(** * rio-color, [scripts/optimize_color.py]: a shallow embedding

    The script searches, by simulated annealing, for the per-channel gamma
    values and the sigmoidal contrast that make the histogram of a source
    image resemble the histogram of a reference image.  This file embeds
    the functions of the script and states properties of them.

    Conventions of the embedding.

    - A Python [float] (and a numpy [float64] sample) is modelled by the
      rational number it denotes, as a canonical rational [Qc]; [nan] and
      the infinities are not modelled.  A float literal denotes its
      binary64 value, [f64] of the decimal: [1e-6], [0.9], [1.1], [0.909].
      These operations of the script on two scalars are rounded to
      binary64: [0-eps], [1+eps], [x / 10], [h / target] and
      [state[k] * multiplier].  The arithmetic of numpy on whole arrays
      ([counts / arr.size], the sums, [(hist1 - hist2)**2], the edges of
      [np.linspace]) is exact, and so is [sum(scores) * 100] in [energy].  Python [int]s that meet floats
      ([arr.size], histogram counts, [contrast=10], image dimensions) are
      [Z] and are injected with [Qc_of_Z] where the source mixes them with
      floats.
    - Exceptions are values of [exn]; fallible code returns [res A].
    - A numpy array that is only read is a [list Qc] (a channel, flattened)
      or a list of channels (an image); arrays that the code copies and
      hands to foreign functions live in a [store] of locations, so that
      aliasing is visible.
    - A [dict] with string keys is a [gmap string _].
    - [random.choice] reads an explicit sequence of draws; the [while]
      loop of [move] runs on fuel, and is shown to end for the keys of the
      class, and not to end when [bias] is the only key and is too large.
    - What the script takes from elsewhere is either embedded from its
      implementation (numpy's [min], [max], [sum] and [histogram], Python's
      [str.format] for the [.2f] fields) or a parameter of the embedding
      ([parse_operations] of [rio_color.operations], the attributes of the
      base class [simanneal.Annealer], the rounding of [round] in
      [time_string]).

    The statements that bound a distance or an energy, or that place the
    threshold of the check of the sums, are statements of the exact
    arithmetic on arrays: with binary64 sums the bounds hold up to rounding
    in the last places.  The samples, the bin edges, the tolerance, the
    multipliers and the guard of [move], and the ratio of [calc_downsample]
    are the binary64 numbers of the script. *)

From Stdlib Require Import ZArith QArith Qabs Qpower Qcanon Qcabs Qround String Ascii
  List Lia.
From Stdlib Require Import DecimalString Lqa.
From stdpp Require Import base numbers list strings gmap.

Import ListNotations.
Local Open Scope Z_scope.
Local Open Scope Qc_scope.

(* [Qcabs] is written out, so that [[x]] is always a list. *)
Disable Notation "[ q ]" : Qc_scope.

(** ** Exceptions and results *)

Inductive exn : Type :=
| AssertionError (failed : string)  (* the text of the [assert] that failed *)
| ValueError (msg : string)
| AttributeError (name : string)
| KeyError (key : string)
| IndexError
| TypeError (msg : string)
| ZeroDivisionError
| OverflowError
| Dangling.  (* model only: a location that is not allocated *)

Inductive res (A : Type) : Type :=
| Ok (a : A)
| Raise (e : exn).
Arguments Ok {A} a.
Arguments Raise {A} e.

#[global] Instance res_ret : MRet res := fun _ a => Ok a.
#[global] Instance res_bind : MBind res := fun _ _ f m =>
  match m with
  | Ok a => f a
  | Raise e => Raise e
  end.

(** [assert cond], the failing assertion is named by its source text. *)
Definition assert_ (cond : bool) (text : string) : res unit :=
  if cond then Ok tt else Raise (AssertionError text).

(** ** Numbers *)

Definition Qc_ltb (x y : Qc) : bool :=
  match x ?= y with Lt => true | _ => false end.

Definition Qc_leb (x y : Qc) : bool :=
  match x ?= y with Gt => false | _ => true end.

Definition Qc_min (x y : Qc) : Qc := if Qc_ltb y x then y else x.
Definition Qc_max (x y : Qc) : Qc := if Qc_ltb x y then y else x.

(** The exact quotient of two integers. *)
Definition Qc_frac (a b : Z) : Qc := Qc_of_Z a / Qc_of_Z b.

(** ** String formatting, as far as [cmd] uses it *)

Module fmt.

(** Round to the nearest integer, ties to the even one, as the correctly
    rounded decimal conversion of [format] does. *)
Definition round_half_even (q : Q) : Z :=
  let f := Qfloor q in
  let twice_rest := (2 * (Qnum q - f * Zpos (Qden q)))%Z in
  match (twice_rest ?= Zpos (Qden q))%Z with
  | Lt => f
  | Gt => (f + 1)%Z
  | Eq => if Z.even f then f else (f + 1)%Z
  end.

Definition digit (d : Z) : ascii := ascii_of_nat (48 + Z.to_nat d).

Definition decimal (n : Z) : string :=
  NilZero.string_of_uint (N.to_uint (Z.to_N n)).

(** [format(x, '.2f')] *)
Definition f2 (x : Qc) : string :=
  let n := round_half_even (Qcabs x * Qc_of_Z 100) in
  (if Qc_ltb x 0 then "-" else "")
  +:+ decimal (n / 100)
  +:+ String "." (String (digit (n mod 100 / 10)) (String (digit (n mod 10)) EmptyString)).

(** A replacement field [name:spec]; only the spec [.2f] is covered. *)
Fixpoint split_colon (field : string) : string * option string :=
  match field with
  | EmptyString => (EmptyString, None)
  | String c rest =>
      if Ascii.eqb c ":" then (EmptyString, Some rest)
      else let '(name, spec) := split_colon rest in (String c name, spec)
  end.

Definition field (f : string) (kwargs : gmap string Qc) : res string :=
  let '(name, spec) := split_colon f in
  match kwargs !! name with
  | None => Raise (KeyError name)
  | Some v =>
      match spec with
      | Some ".2f" => Ok (f2 v)
      | _ => Raise (ValueError "format spec outside the model")
      end
  end.

(** [template.format( **kwargs )]: literal text is copied, [{...}] is a
    replacement field; [inside] holds the text of the field being read. *)
Fixpoint format_from (template : string) (inside : option string)
    (kwargs : gmap string Qc) : res string :=
  match template, inside with
  | EmptyString, None => Ok EmptyString
  | EmptyString, Some _ => Raise (ValueError "expected '}' before end of string")
  | String c rest, None =>
      if Ascii.eqb c "{" then format_from rest (Some EmptyString) kwargs
      else if Ascii.eqb c "}"
      then Raise (ValueError "Single '}' encountered in format string")
      else s ← format_from rest None kwargs; Ok (String c s)
  | String c rest, Some f =>
      if Ascii.eqb c "}"
      then v ← field f kwargs; s ← format_from rest None kwargs; Ok (v +:+ s)
      else format_from rest (Some (f +:+ String c EmptyString)) kwargs
  end.

Definition format (template : string) (kwargs : gmap string Qc) : res string :=
  format_from template None kwargs.

End fmt.

(** ** binary64

    A Python [float] is an IEEE 754 binary64 number.  A decimal literal
    denotes the binary64 number nearest to it, and one arithmetic operation
    on floats gives the binary64 number nearest to the exact result; a tie
    goes to the even significand.  Infinities are not modelled: [f64] of a
    number beyond the range is the rounded finite number. *)

(** The exponent [e] of a number [q] other than 0: [2^e <= |q| < 2^(e+1)]. *)
Definition ilog2 (q : Q) : Z :=
  let k := (Z.log2 (Z.abs (Qnum q)) - Z.log2 (Zpos (Qden q)))%Z in
  if Qle_bool (2 ^ k)%Q (Qabs q) then k else (k - 1)%Z.

(** Rounding to 53 significant bits, and to the multiples of [2^-1074]
    below [2^-1022]. *)
Definition round_binary64 (q : Q) : Q :=
  if Qeq_bool q 0 then 0%Q
  else
    let e := Z.max (ilog2 q) (-1022) in
    let ulp := (2 ^ (e - 52))%Q in
    (inject_Z (fmt.round_half_even (q / ulp)) * ulp)%Q.

(** The binary64 number nearest to [q]. *)
Definition f64 (q : Qc) : Qc := Q2Qc (round_binary64 q).

(** [x + y], [x - y] and [x * y] on floats. *)
Definition fadd (x y : Qc) : Qc := f64 (x + y).
Definition fsub (x y : Qc) : Qc := f64 (x - y).
Definition fmul (x y : Qc) : Qc := f64 (x * y).

Arguments f64 : simpl never.
Arguments fadd : simpl never.
Arguments fsub : simpl never.
Arguments fmul : simpl never.

(** The nearest binary64 number to [q] is beyond the largest one. *)
Definition overflows (q : Qc) : bool :=
  Qc_leb (Q2Qc (2 ^ 1024)%Q) (Qcabs (f64 q)).

(** ** numpy, as far as [histogram_distance] uses it

    These functions are numpy's, not the script's; they are embedded from
    numpy's implementation of [ndarray.min], [ndarray.max], [ndarray.sum]
    and [numpy.histogram]. *)

Module np.

Definition zero_size (reduction : string) : exn :=
  ValueError ("zero-size array to reduction operation " +:+ reduction
              +:+ " which has no identity").

Definition min (a : list Qc) : res Qc :=
  match a with
  | [] => Raise (zero_size "minimum")
  | x :: xs => Ok (fold_left Qc_min xs x)
  end.

Definition max (a : list Qc) : res Qc :=
  match a with
  | [] => Raise (zero_size "maximum")
  | x :: xs => Ok (fold_left Qc_max xs x)
  end.

Definition sum (a : list Qc) : Qc := fold_left Qcplus a 0.

Definition size (a : list Qc) : Z := Z.of_nat (length a).

(** [sa.searchsorted(v, 'left')] on the sorted copy [sa] of [a] is the
    number of elements of [a] below [v]; with ['right'], the number of
    elements not above [v]. *)
Definition searchsorted_left (a : list Qc) (v : Qc) : Z :=
  Z.of_nat (length (filter (fun x => Qc_ltb x v) a)).

Definition searchsorted_right (a : list Qc) (v : Qc) : Z :=
  Z.of_nat (length (filter (fun x => Qc_leb x v) a)).

(** [np.diff] *)
Fixpoint diff (l : list Z) : list Z :=
  match l with
  | x :: ((y :: _) as tl) => (y - x)%Z :: diff tl
  | _ => []
  end.

(** [np.any(edges[:-1] > edges[1:])] *)
Fixpoint decreases (edges : list Qc) : bool :=
  match edges with
  | x :: ((y :: _) as tl) => Qc_ltb y x || decreases tl
  | _ => false
  end.

(** [v[-1:]] *)
Definition last_slice (v : list Qc) : list Qc :=
  match v with
  | [] => []
  | x :: xs => [List.last xs x]
  end.

(** Cumulative counts at the edges: every edge but the last is searched
    from the left, the last one from the right, which closes the last
    bin. *)
Definition cum_n (a edges : list Qc) : list Z :=
  List.map (searchsorted_left a) (removelast edges)
  ++ List.map (searchsorted_right a) (last_slice edges).

(** [np.histogram(a, bins=edges)[0]] for a sequence of bin edges. *)
Definition histogram_edges (a edges : list Qc) : res (list Z) :=
  if decreases edges
  then Raise (ValueError "`bins` must increase monotonically, when an array")
  else Ok (diff (cum_n a edges)).

(** [np.linspace(start, stop, n + 1)] *)
Definition linspace (start stop : Qc) (n : nat) : list Qc :=
  List.map (fun i => start + Qc_of_Z (Z.of_nat i) * ((stop - start) / Qc_of_Z (Z.of_nat n)))
           (seq 0 (S n)).

(** The [bins] argument: [None], an [int] or a sequence of edges. *)
Inductive bins_arg : Type :=
| BinsNone
| BinsInt (n : Z)
| BinsList (edges : list Qc).

(** [np.histogram(a, bins)[0]].  With an integer, [bins] equal-width bins
    span the range of the data, widened by a half on each side when the
    data has a single value. *)
Definition histogram (a : list Qc) (bins : bins_arg) : res (list Z) :=
  match bins with
  | BinsList edges => histogram_edges a edges
  | BinsInt n =>
      if (n <? 1)%Z
      then Raise (ValueError "`bins` must be positive, when an integer")
      else
        let first_edge := match a with [] => 0 | x :: xs => fold_left Qc_min xs x end in
        let last_edge := match a with [] => 1 | x :: xs => fold_left Qc_max xs x end in
        let '(first_edge, last_edge) :=
          if decide (first_edge = last_edge)
          then (first_edge - Q2Qc (1 # 2), last_edge + Q2Qc (1 # 2))
          else (first_edge, last_edge) in
        histogram_edges a (linspace first_edge last_edge (Z.to_nat n))
  | BinsNone =>
      Raise (TypeError "`bins` must be an integer, a string, or an array")
  end.

End np.

(** ** [histogram_distance] (lines 109-132) *)

(** The literal [1e-6] (line 117). *)
Definition eps : Qc := f64 (Q2Qc (1 # 1000000)).

Arguments eps : simpl never.

(** Python truth value of the [bins] argument, as [if not bins] tests it. *)
Definition truthy (bins : np.bins_arg) : bool :=
  match bins with
  | np.BinsNone => false
  | np.BinsInt n => negb (n =? 0)%Z
  | np.BinsList edges => match edges with [] => false | _ => true end
  end.

(** [[x / 10 for x in range(11)]]: each quotient of two ints is rounded to
    binary64. *)
Definition default_bins : list Qc :=
  List.map (fun x => f64 (Qc_frac (Z.of_nat x) 10)) (seq 0 11).

(** [counts / arr.size], elementwise *)
Definition normalize (counts : list Z) (size : Z) : list Qc :=
  List.map (fun c => Qc_of_Z c / Qc_of_Z size) counts.

(** [(hist1 - hist2)**2], elementwise *)
Definition sqerr (hist1 hist2 : list Qc) : list Qc :=
  zip_with (fun x y => (x - y) * (x - y)) hist1 hist2.

Definition histogram_distance (arr1 arr2 : list Qc) (bins : np.bins_arg) : res Qc :=
  m1 ← np.min arr1; _ ← assert_ (Qc_ltb (fsub 0 eps) m1) "arr1.min() > 0-eps";
  M1 ← np.max arr1; _ ← assert_ (Qc_ltb M1 (fadd 1 eps)) "arr1.max() < 1+eps";
  m2 ← np.min arr2; _ ← assert_ (Qc_ltb (fsub 0 eps) m2) "arr2.min() > 0-eps";
  M2 ← np.max arr2; _ ← assert_ (Qc_ltb M2 (fadd 1 eps)) "arr2.max() < 1+eps";
  let bins := if negb (truthy bins) then np.BinsList default_bins else bins in
  c1 ← np.histogram arr1 bins;
  let hist1 := normalize c1 (np.size arr1) in
  c2 ← np.histogram arr2 bins;
  let hist2 := normalize c2 (np.size arr2) in
  _ ← assert_ (Qc_ltb (Qcabs (np.sum hist1 - 1)) eps) "abs(hist1.sum() - 1.0) < eps";
  _ ← assert_ (Qc_ltb (Qcabs (np.sum hist2 - 1)) eps) "abs(hist2.sum() - 1.0) < eps";
  Ok (np.sum (sqerr hist1 hist2)).

(** The four precondition assertions of lines 118-121. *)
Definition precondition_error {A} (r : res A) : bool :=
  match r with
  | Raise (AssertionError t) =>
      bool_decide (t ∈ ["arr1.min() > 0-eps"; "arr1.max() < 1+eps";
                        "arr2.min() > 0-eps"; "arr2.max() < 1+eps"])
  | _ => false
  end.

(** Lines 118-121. *)
Definition precondition (arr1 arr2 : list Qc) : res unit :=
  m1 ← np.min arr1; _ ← assert_ (Qc_ltb (fsub 0 eps) m1) "arr1.min() > 0-eps";
  M1 ← np.max arr1; _ ← assert_ (Qc_ltb M1 (fadd 1 eps)) "arr1.max() < 1+eps";
  m2 ← np.min arr2; _ ← assert_ (Qc_ltb (fsub 0 eps) m2) "arr2.min() > 0-eps";
  M2 ← np.max arr2; assert_ (Qc_ltb M2 (fadd 1 eps)) "arr2.max() < 1+eps".

(** Lines 123-132. *)
Definition compare_histograms (arr1 arr2 : list Qc) (bins : np.bins_arg) : res Qc :=
  let bins := if negb (truthy bins) then np.BinsList default_bins else bins in
  c1 ← np.histogram arr1 bins;
  let hist1 := normalize c1 (np.size arr1) in
  c2 ← np.histogram arr2 bins;
  let hist2 := normalize c2 (np.size arr2) in
  _ ← assert_ (Qc_ltb (Qcabs (np.sum hist1 - 1)) eps) "abs(hist1.sum() - 1.0) < eps";
  _ ← assert_ (Qc_ltb (Qcabs (np.sum hist2 - 1)) eps) "abs(hist2.sum() - 1.0) < eps";
  Ok (np.sum (sqerr hist1 hist2)).

(** A sample passes the precondition when it lies strictly between the
    floats [0 - eps] and [1 + eps]. *)
Definition admitted_sample (x : Qc) : Prop := fsub 0 eps < x ∧ x < fadd 1 eps.

(** A sample is rejected when it is at or beyond an end of the widened
    interval. *)
Definition rejected_sample (x : Qc) : Prop := x ≤ fsub 0 eps ∨ fadd 1 eps ≤ x.

(** A sample lies within the tolerance-widened interval
    [[0 - eps, 1 + eps]]. *)
Definition within_tolerance (x : Qc) : Prop := fsub 0 eps ≤ x ∧ x ≤ fadd 1 eps.

(** *** The normalized histogram in the words of the specification

    Bin [j] holds the samples from edge [j] up to, and excluding, edge
    [j + 1]; the last bin includes its upper edge.  The normalized
    histogram divides the counts by the total sample count. *)

Definition unit_sample (x : Qc) : Prop := 0 ≤ x ∧ x ≤ 1.

Definition in_bin (lo hi : Qc) (closed : bool) (x : Qc) : bool :=
  Qc_leb lo x && (if closed then Qc_leb x hi else Qc_ltb x hi).

Fixpoint bin_counts (a edges : list Qc) : list Z :=
  match edges with
  | lo :: ((hi :: rest) as tl) =>
      let closed := match rest with [] => true | _ => false end in
      Z.of_nat (length (filter (fun x => in_bin lo hi closed x) a)) :: bin_counts a tl
  | _ => []
  end.

Definition normalized_histogram (a edges : list Qc) : list Qc :=
  List.map (fun c => Qc_of_Z c / Qc_of_Z (Z.of_nat (length a))) (bin_counts a edges).

(** The bins [[0, 0.5, 1.0]]. *)
Definition two_bins : list Qc := [0; Q2Qc (1 # 2); 1].

(** ** [calc_downsample] (lines 135-139) *)

(** [a / b] on Python ints, true division ([from __future__ import
    division]): the binary64 number nearest to the quotient, and
    [OverflowError] when that is beyond the largest one. *)
Definition truediv (a b : Z) : res Qc :=
  if (b =? 0)%Z then Raise ZeroDivisionError
  else if overflows (Qc_frac a b) then Raise OverflowError
  else Ok (f64 (Qc_frac a b)).

(** The function returns [None] when neither test succeeds. *)
Definition calc_downsample (w h target : Z) : res (option Qc) :=
  if (w >? h)%Z then r ← truediv h target; Ok (Some r)
  else if (h >=? w)%Z then r ← truediv w target; Ok (Some r)
  else Ok None.

(** [int(w // ratio)] (lines 164 and 165), for an int [w] and a float
    [ratio]: the floor of the exact quotient.  Python's floor division of
    floats starts from the exact remainder [fmod(w, ratio)] and corrects
    the rounded quotient to the integer next to it: for an int below
    [2^53] and a quotient far below [2^53] it is this floor. *)
Definition int_floordiv (w : Z) (ratio : Qc) : res Z :=
  if decide (ratio = 0) then Raise ZeroDivisionError
  else Ok (Qfloor (Qc_of_Z w / ratio)%Qc).

(** Strings without a brace, and strings without a given character. *)
Fixpoint plain (s : string) : bool :=
  match s with
  | EmptyString => true
  | String c s => negb (Ascii.eqb c "{") && negb (Ascii.eqb c "}") && plain s
  end.

Fixpoint no_char (x : ascii) (s : string) : bool :=
  match s with
  | EmptyString => true
  | String c s => negb (Ascii.eqb c x) && no_char x s
  end.

(** ** [ColorEstimator] *)

(** [keys = "gamma_red,gamma_green,gamma_blue,contrast".split(',')] *)
Definition keys : list string :=
  ["gamma_red"; "gamma_green"; "gamma_blue"; "contrast"].

(** A state has the four required keys. *)
Definition has_keys (state : gmap string Qc) : Prop :=
  Forall (fun k => is_Some (state !! k)) keys.

(** [cmd] (lines 67-71) *)
Definition cmd (state : gmap string Qc) : res string :=
  fmt.format
    ("gamma r {gamma_red:.2f}, gamma g {gamma_green:.2f}, gamma b {gamma_blue:.2f}, "
     +:+ "sigmoidal rgb {contrast:.2f} 0.5")
    state.

(** The default parameters of [__init__] (lines 31-35). *)
Definition default_params : gmap string Qc :=
  <["gamma_red" := 1]> (<["gamma_green" := 1]> (<["gamma_blue" := 1]>
    (<["contrast" := Qc_of_Z 10]> ∅))).

(** [validate] (lines 44-48) on the state it would read.  The loop returns
    [False] at the first missing key; when no key is missing the function
    ends without a [return], so its value is [None]. *)
Inductive pyval : Type := PyNone | PyBool (b : bool).

Definition pyval_truthy (v : pyval) : bool :=
  match v with PyNone => false | PyBool b => b end.

Fixpoint validate_loop (ks : list string) (state : gmap string Qc) : pyval :=
  match ks with
  | [] => PyNone
  | k :: ks => if bool_decide (is_Some (state !! k)) then validate_loop ks state
               else PyBool false
  end.

Definition validate (state : gmap string Qc) : pyval := validate_loop keys state.

(** *** [move] (lines 50-65)

    The random source is a sequence of raw draws and a position in it;
    [random.choice(seq)] consumes one draw and indexes [seq] with it. *)

Record rng : Type := { draw : nat → nat; pos : nat }.

Definition choice {A} (xs : list A) (g : rng) : res (A * rng) :=
  match xs !! (draw g (pos g) mod length xs)%nat with
  | Some x => Ok (x, {| draw := draw g; pos := S (pos g) |})
  | None => Raise IndexError
  end.

(** [self.state[k]] *)
Definition getitem (state : gmap string Qc) (k : string) : res Qc :=
  match state !! k with
  | Some v => Ok v
  | None => Raise (KeyError k)
  end.

(** The [while invalid_key] loop.  [None] stands for a loop that has not
    ended within [fuel] iterations. *)
Fixpoint move_loop (ks : list string) (fuel : nat) (k : string)
    (state : gmap string Qc) (g : rng) : option (res (string * rng)) :=
  match fuel with
  | O => None
  | S fuel =>
      if String.eqb k "bias" then
        match getitem state k with
        | Raise e => Some (Raise e)
        | Ok v =>
            if Qc_ltb (f64 (Q2Qc (909 # 1000))) v then
              match choice ks g with
              | Raise e => Some (Raise e)
              | Ok (k, g) => move_loop ks fuel k state g
              end
            else Some (Ok (k, g))
        end
      else Some (Ok (k, g))
  end.

(** [(0.9, 1.1)] *)
Definition multipliers : list Qc := [f64 (Q2Qc (9 # 10)); f64 (Q2Qc (11 # 10))].

(** The values of a state that the model covers: floats, and ints that
    are floats, of a magnitude of at most [2^1023], whose product with a
    multiplier is finite. *)
Definition moderate (v : Qc) : Prop :=
  f64 v = v ∧ Qcabs v ≤ Q2Qc (2 ^ 1023)%Q.

Definition move_with (ks : list string) (fuel : nat) (state : gmap string Qc) (g : rng)
    : option (res (gmap string Qc * rng)) :=
  match choice ks g with
  | Raise e => Some (Raise e)
  | Ok (k, g) =>
      match choice multipliers g with
      | Raise e => Some (Raise e)
      | Ok (multiplier, g) =>
          match move_loop ks fuel k state g with
          | None => None
          | Some (Raise e) => Some (Raise e)
          | Some (Ok (k, g)) =>
              match getitem state k with
              | Raise e => Some (Raise e)
              | Ok v =>
                  let newval := fmul v multiplier in
                  Some (Ok (<[k := newval]> state, g))
              end
          end
      end
  end.

Definition move : nat → gmap string Qc → rng → option (res (gmap string Qc * rng)) :=
  move_with keys.

(** *** The store of arrays

    [source.copy()] allocates; the functions that [parse_operations]
    returns receive the array itself and are free to write to it. *)

Abbreviation image := (list (list Qc)) (only parsing).
Abbreviation store := (gmap nat (list (list Qc))) (only parsing).

Definition M (A : Type) : Type := store → store * res A.

#[global] Instance M_ret : MRet M := fun _ a σ => (σ, Ok a).
#[global] Instance M_bind : MBind M := fun _ _ f m σ =>
  match m σ with
  | (σ', Ok a) => f a σ'
  | (σ', Raise e) => (σ', Raise e)
  end.

Definition lift {A} (r : res A) : M A := fun σ => (σ, r).

(** [a.copy()] *)
Definition ndarray_copy (l : nat) : M nat := fun σ =>
  match σ !! l with
  | Some a => let l' := fresh (dom σ) in (<[l' := a]> σ, Ok l')
  | None => (σ, Raise Dangling)
  end.

(** [a[i]], read as a value *)
Definition channel (l : nat) (i : nat) : M (list Qc) := fun σ =>
  match σ !! l with
  | Some a =>
      match a !! i with
      | Some c => (σ, Ok c)
      | None => (σ, Raise IndexError)
      end
  | None => (σ, Raise Dangling)
  end.

Record ColorEstimator : Type :=
  { src : nat; ref : nat; state : gmap string Qc }.

(** *** [__init__] (lines 27-42) *)

Section Construction.

(** The class body binds [validate], not [_validate]; the attribute
    [self._validate] can therefore only come from the base class
    [simanneal.Annealer].  [base_validate] is what the base class binds
    under that name, if anything. *)
Variable base_validate : option (gmap string Qc → res bool).

(** [self._validate(state)] *)
Definition call_validate (st : gmap string Qc) : res bool :=
  match base_validate with
  | None => Raise (AttributeError "_validate")
  | Some f => f st
  end.

(** [not state], for [None] or a dict *)
Definition not_state (st : option (gmap string Qc)) : bool :=
  match st with
  | None => true
  | Some st => bool_decide (st = ∅)
  end.

(** The base class constructor stores a copy of [params] as the state. *)
Definition __init__ (source reference : nat) (st : option (gmap string Qc))
    : M ColorEstimator :=
  src ← ndarray_copy source;
  ref ← ndarray_copy reference;
  params ← lift (if not_state st then Ok default_params
                 else
                   let st := default ∅ st in
                   ok ← call_validate st;
                   if (ok : bool) then Ok st else Raise (ValueError "invalid state"));
  mret {| src := src; ref := ref; state := params |}.

End Construction.

(** [simanneal.Annealer] has no attribute [_validate]. *)
Definition simanneal_validate : option (gmap string Qc → res bool) := None.

(** *** [energy] (lines 73-84) *)

Section Energy.

(** [rio_color.operations.parse_operations]: from a descriptor, a list
    of functions from an array to an array. *)
Variable parse_operations : string → res (list (nat → M nat)).

(** [for func in ...: arr = func(arr)] *)
Fixpoint apply_ops (funcs : list (nat → M nat)) (arr : nat) : M nat :=
  match funcs with
  | [] => mret arr
  | func :: funcs => arr ← func arr; apply_ops funcs arr
  end.

(** [[histogram_distance(self.ref[i], arr[i]) for i in ...]] *)
Fixpoint scores_of (self : ColorEstimator) (arr : nat) (range : list nat)
    : M (list Qc) :=
  match range with
  | [] => mret []
  | i :: range =>
      r ← channel (ref self) i;
      a ← channel arr i;
      s ← lift (histogram_distance r a np.BinsNone);
      scores ← scores_of self arr range;
      mret (s :: scores)
  end.

(** Python's [sum] starts from [0]. *)
Definition py_sum (xs : list Qc) : Qc := fold_left Qcplus xs 0.

Definition energy (self : ColorEstimator) : M Qc :=
  arr ← ndarray_copy (src self);
  ops ← lift (cmd (state self));
  funcs ← lift (parse_operations ops);
  arr ← apply_ops funcs arr;
  scores ← scores_of self arr (seq 0 3);
  mret (py_sum scores * Qc_of_Z 100).

End Energy.

(** *** What the collaborator's functions may do

    A function returned by [parse_operations] is [confined] when it
    touches no array but its argument and arrays it allocates itself, and
    returns its argument or an array it allocated.  It [implements] a
    transformation of images when, besides, it returns an array holding
    the transformed argument. *)

Definition confined (f : nat → M nat) : Prop :=
  ∀ (l : nat) (σ σ' : gmap nat (list (list Qc))) (r : res nat),
    f l σ = (σ', r) →
    (∀ l0, l0 ≠ l → l0 ∈ dom σ → σ' !! l0 = σ !! l0)
    ∧ (∀ l', r = Ok l' → l' = l ∨ l' ∉ dom σ).

Definition implements (f : nat → M nat) (g : list (list Qc) → list (list Qc)) : Prop :=
  confined f
  ∧ ∀ (l : nat) (σ : gmap nat (list (list Qc))) (a : list (list Qc)),
      σ !! l = Some a →
      ∃ σ' l', f l σ = (σ', Ok l') ∧ σ' !! l' = Some (g a).

(** A transformation done in place, and one done on a copy. *)
Definition op_inplace (g : list (list Qc) → list (list Qc)) : nat → M nat :=
  fun l σ =>
    match σ !! l with
    | Some a => (<[l := g a]> σ, Ok l)
    | None => (σ, Raise Dangling)
    end.

Definition op_copy (g : list (list Qc) → list (list Qc)) : nat → M nat :=
  fun l σ =>
    match σ !! l with
    | Some a => let l' := fresh (dom σ) in (<[l' := g a]> σ, Ok l')
    | None => (σ, Raise Dangling)
    end.

(** The image after the transformations, applied in sequence. *)
Definition transformed (gs : list (list (list Qc) → list (list Qc)))
    (img : list (list Qc)) : list (list Qc) :=
  fold_left (fun a g => g a) gs img.

(** Channel [i] of an image, and the distance of two images on it. *)
Definition channel_of (img : list (list Qc)) (i : nat) : res (list Qc) :=
  match img !! i with
  | Some c => Ok c
  | None => Raise IndexError
  end.

Definition channel_distance (ref_img out : list (list Qc)) (i : nat) : res Qc :=
  r ← channel_of ref_img i;
  a ← channel_of out i;
  histogram_distance r a np.BinsNone.

(** A store with a source and a reference image, for examples. *)
Definition example_source : list (list Qc) := [[0; 1]; [Q2Qc (1 # 2)]; [1]].
Definition example_reference : list (list Qc) := [[1]; [Q2Qc (1 # 2)]; [1; 1]].
Definition example_store : gmap nat (list (list Qc)) :=
  <[0%nat := example_source]> (<[1%nat := example_reference]> ∅).

(** The distances of the channels of [range], in order; the first error
    ends the list. *)
Fixpoint distances (ref_img out : list (list Qc)) (range : list nat) : res (list Qc) :=
  match range with
  | [] => Ok []
  | i :: range =>
      s ← channel_distance ref_img out i;
      scores ← distances ref_img out range;
      Ok (s :: scores)
  end.

(** An estimator and a collaborator, for examples: the descriptor is
    answered with a transformation in place and one on a copy. *)
Definition halve (img : list (list Qc)) : list (list Qc) :=
  List.map (List.map (fun x => x * Q2Qc (1 # 2))) img.

Definition example_parse : string → res (list (nat → M nat)) :=
  fun _ => Ok [op_inplace halve; op_copy halve].

Definition example_estimator : ColorEstimator :=
  {| src := 0; ref := 1; state := default_params |}.

(** A computation [keeps] the arrays at the locations [D] when it leaves
    them as they are, whatever it returns or raises; [Q] holds of the value
    it returns. *)
Definition keeps {A} (D : gset nat) (m : M A) (Q : A → Prop) : Prop :=
  ∀ (σ σ' : gmap nat (list (list Qc))) (r : res A),
    m σ = (σ', r) → D ⊆ dom σ →
    (∀ l, l ∈ D → σ' !! l = σ !! l) ∧ (∀ a, r = Ok a → Q a).

(** *** Auxiliary notions for the properties of [histogram_distance] *)

(** The bins that lines 123-124 hand to [np.histogram]. *)
Definition effective_bins (bins : np.bins_arg) : np.bins_arg :=
  if negb (truthy bins) then np.BinsList default_bins else bins.

(** The number of samples of [a] outside of [[lo, hi]]. *)
Definition outside (lo hi x : Qc) : bool := Qc_ltb x lo || Qc_ltb hi x.

Definition uncovered (a : list Qc) (lo hi : Qc) : Z :=
  Z.of_nat (length (filter (fun x => outside lo hi x) a)).

(** ** [time_string] (lines 15-20) *)

(** [c * n], a character repeated *)
Fixpoint repeat_char (c : ascii) (n : nat) : string :=
  match n with
  | O => EmptyString
  | S n => String c (repeat_char c n)
  end.

(** The conversion [%i] of the [%] operator with a minimum width, without
    and with the flag [0]: the sign and the decimal digits, filled up to
    the width with spaces before the sign or, with the flag, with zeros
    after it. *)
Definition percent_i (zero : bool) (width : nat) (n : Z) : string :=
  let sign := if (n <? 0)%Z then "-" else "" in
  let digits := fmt.decimal (Z.abs n) in
  let fill := (width - (String.length sign + String.length digits))%nat in
  if zero then sign +:+ repeat_char "0" fill +:+ digits
  else repeat_char " " fill +:+ sign +:+ digits.

(** [divmod(a, b)] on ints: the floor quotient and its remainder. *)
Definition divmod (a b : Z) : Z * Z := ((a / b)%Z, (a mod b)%Z).

Section TimeString.

(** [int(round(seconds))]: Python 2 rounds a half away from zero, Python 3
    to the even neighbour; the script runs under both, and the rounding is
    left open. *)
Variable round : Qc → Z.

Definition time_string (seconds : Qc) : string :=
  let s := round seconds in
  let '(h, s) := divmod s 3600 in
  let '(m, s) := divmod s 60 in
  percent_i false 2 h +:+ ":" +:+ percent_i true 2 m +:+ ":" +:+ percent_i true 2 s.

End TimeString.

(** Two decimal digits, for a number below 100. *)
Definition two_digits (n : Z) : string :=
  String (fmt.digit (n / 10)) (String (fmt.digit (n mod 10)) EmptyString).

(** *** Auxiliary notions for the properties of [ColorEstimator] *)

(** [k], at position [i], is the first of the keys [ks] that [st] lacks. *)
Definition first_missing (ks : list string) (st : gmap string Qc) (i : nat) (k : string)
    : Prop :=
  ks !! i = Some k ∧ st !! k = None
  ∧ ∀ j k', (j < i)%nat → ks !! j = Some k' → is_Some (st !! k').

(** * Properties *)

(** The rounding of [.2f] is to a nearest integer: twice the distance to
    the rounded value is at most one, and a tie goes to the even side. *)
Lemma round_half_even_nearest (q : Q) :
  let n := fmt.round_half_even q in
  (2 * Z.abs (n * Zpos (Qden q) - Qnum q) ≤ Zpos (Qden q))%Z
  ∧ ((2 * Z.abs (n * Zpos (Qden q) - Qnum q) = Zpos (Qden q))%Z → Z.even n = true).
Proof.
  destruct q as [a d]. unfold fmt.round_half_even, Qfloor. cbn [Qnum Qden].
  pose proof (Z.div_mod a (Zpos d) ltac:(done)) as Hdm.
  pose proof (Z.mod_pos_bound a (Zpos d) ltac:(done)) as Hb.
  set (f := (a / Zpos d)%Z) in *. set (r := (a mod Zpos d)%Z) in *.
  assert (Hr : (a - f * Zpos d = r)%Z) by lia. rewrite Hr.
  destruct (Z.compare_spec (2 * r) (Zpos d)) as [He|Hl|Hg].
  - destruct (Z.even f) eqn:Hev.
    + split; [lia|done].
    + split; [lia|]. intros _.
      rewrite Z.even_add, Hev. reflexivity.
  - split; lia.
  - split; lia.
Qed.

(** ** binary64 *)

Section Binary64.

Local Open Scope Q_scope.

Lemma round_half_even_close (x : Q) :
  Qabs (inject_Z (fmt.round_half_even x) - x) <= 1 # 2.
Proof.
  destruct (round_half_even_nearest x) as [H _].
  set (n := fmt.round_half_even x) in *. clearbody n.
  destruct x as [a d]. cbn [Qnum Qden] in H.
  apply Qabs_Qle_condition. unfold Qle, Qminus, Qplus, Qopp, inject_Z. cbn.
  lia.
Qed.

(** Rounding does not pass an integer. *)
Lemma round_half_even_le (x : Q) (M : Z) :
  x <= inject_Z M -> (fmt.round_half_even x <= M)%Z.
Proof.
  intros Hx. pose proof (round_half_even_close x) as H.
  apply Qabs_Qle_condition in H as [_ H].
  assert (H1 : inject_Z (fmt.round_half_even x) <= inject_Z M + (1 # 2)) by lra.
  revert H1. unfold Qle, Qplus, inject_Z. cbn. lia.
Qed.

Lemma two_nonzero : ~ 2 == 0.
Proof. easy. Qed.

Lemma pow2_pos (k : Z) : 0 < 2 ^ k.
Proof. apply Qpower_0_lt. easy. Qed.

Lemma Qabs_frac (q : Q) :
  Qabs q == inject_Z (Z.abs (Qnum q)) / inject_Z (Zpos (Qden q)).
Proof.
  destruct q as [a d]. unfold Qabs. cbn [Qnum Qden].
  rewrite (Qmake_Qdiv (Z.abs a) d). reflexivity.
Qed.

Lemma Qnum_abs_pos (q : Q) : ~ q == 0 -> (0 < Z.abs (Qnum q))%Z.
Proof. destruct q as [n d]. unfold Qeq. cbn. lia. Qed.

(** [ilog2 q] is the exponent of [q]. *)
Lemma ilog2_lower (q : Q) : ~ q == 0 -> 2 ^ ilog2 q <= Qabs q.
Proof.
  intros Hq. unfold ilog2.
  set (a := Z.abs (Qnum q)). set (b := Zpos (Qden q)).
  set (k := (Z.log2 a - Z.log2 b)%Z).
  destruct (Qle_bool (2 ^ k) (Qabs q)) eqn:E; [now apply Qle_bool_iff|].
  pose proof (Qnum_abs_pos q Hq) as Ha. fold a in Ha.
  assert (Hb : (0 < b)%Z) by easy.
  destruct (Z.log2_spec a Ha) as [Ha1 _].
  destruct (Z.log2_spec b Hb) as [_ Hb2].
  pose proof (Z.log2_nonneg a) as La. pose proof (Z.log2_nonneg b) as Lb.
  rewrite Qabs_frac. fold a b.
  assert (HbQ : 0 < inject_Z b).
  { change 0 with (inject_Z 0). rewrite <- Zlt_Qlt. lia. }
  apply Qle_shift_div_l; [easy|].
  apply Qle_trans with (2 ^ (k - 1) * 2 ^ (Z.log2 b + 1)).
  - apply Qmult_le_l; [apply pow2_pos|].
    change 2 with (inject_Z 2). rewrite <- Zpower_Qpower by lia.
    rewrite <- Zle_Qle. unfold Z.succ in Hb2. lia.
  - rewrite <- Qpower_plus by apply two_nonzero.
    replace (k - 1 + (Z.log2 b + 1))%Z with (Z.log2 a) by (unfold k; lia).
    change 2 with (inject_Z 2). rewrite <- Zpower_Qpower by lia.
    rewrite <- Zle_Qle. lia.
Qed.

Lemma ilog2_upper (q : Q) : ~ q == 0 -> Qabs q < 2 ^ (ilog2 q + 1).
Proof.
  intros Hq. unfold ilog2.
  set (a := Z.abs (Qnum q)). set (b := Zpos (Qden q)).
  set (k := (Z.log2 a - Z.log2 b)%Z).
  destruct (Qle_bool (2 ^ k) (Qabs q)) eqn:E.
  - pose proof (Qnum_abs_pos q Hq) as Ha. fold a in Ha.
    assert (Hb : (0 < b)%Z) by easy.
    destruct (Z.log2_spec a Ha) as [_ Ha2].
    destruct (Z.log2_spec b Hb) as [Hb1 _].
    pose proof (Z.log2_nonneg a) as La. pose proof (Z.log2_nonneg b) as Lb.
    rewrite Qabs_frac. fold a b.
    assert (HbQ : 0 < inject_Z b).
    { change 0 with (inject_Z 0). rewrite <- Zlt_Qlt. lia. }
    apply Qlt_shift_div_r; [easy|].
    apply Qlt_le_trans with (2 ^ (k + 1) * 2 ^ Z.log2 b).
    + rewrite <- Qpower_plus by apply two_nonzero.
      replace (k + 1 + Z.log2 b)%Z with (Z.log2 a + 1)%Z by (unfold k; lia).
      change 2 with (inject_Z 2). rewrite <- Zpower_Qpower by lia.
      rewrite <- Zlt_Qlt. unfold Z.succ in Ha2. lia.
    + apply Qmult_le_l; [apply pow2_pos|].
      change 2 with (inject_Z 2). rewrite <- Zpower_Qpower by lia.
      rewrite <- Zle_Qle. lia.
  - replace (k - 1 + 1)%Z with k by lia.
    apply Qnot_le_lt. intros H. apply Qle_bool_iff in H. congruence.
Qed.

(** The rounded number is within half a unit of the last place. *)
Lemma round_binary64_error (q : Q) :
  Qabs (round_binary64 q - q) <= Qabs q * 2 ^ (-53) + 2 ^ (-1075).
Proof.
  unfold round_binary64. destruct (Qeq_bool q 0) eqn:E.
  - apply Qeq_bool_iff in E. rewrite E.
    pose proof (pow2_pos (-53)). pose proof (pow2_pos (-1075)).
    setoid_replace (0 - 0) with 0 using relation Qeq by ring. change (Qabs 0) with 0. lra.
  - assert (Hq : ~ q == 0).
    { intros H. apply Qeq_bool_iff in H. congruence. }
    pose proof (ilog2_lower q Hq) as Hl.
    set (e := Z.max (ilog2 q) (-1022)). cbv zeta.
    set (ulp := 2 ^ (e - 52)).
    assert (Hu : 0 < ulp) by apply pow2_pos.
    set (n := fmt.round_half_even (q / ulp)).
    pose proof (round_half_even_close (q / ulp)) as Hn. fold n in Hn.
    assert (Heq : inject_Z n * ulp - q == (inject_Z n - q / ulp) * ulp).
    { field. lra. }
    rewrite Heq, Qabs_Qmult, (Qabs_pos ulp) by lra.
    assert (Hhalf : ulp * (1 # 2) == 2 ^ (e - 53)).
    { unfold ulp. replace (e - 53)%Z with ((e - 52) + (-1))%Z by lia.
      rewrite Qpower_plus by apply two_nonzero. reflexivity. }
    assert (H1 : Qabs (inject_Z n - q / ulp) * ulp <= 2 ^ (e - 53)).
    { rewrite <- Hhalf. rewrite (Qmult_comm ulp).
      apply Qmult_le_compat_r; [easy|lra]. }
    eapply Qle_trans; [exact H1|].
    pose proof (pow2_pos (-53)). pose proof (pow2_pos (-1075)).
    pose proof (Qabs_nonneg q).
    destruct (Z.max_spec (ilog2 q) (-1022)) as [[Hlt He]|[Hle He]]; fold e in He.
    + rewrite He. change (-1022 - 53)%Z with (-1075)%Z.
      assert (0 <= Qabs q * 2 ^ (-53)) by (apply Qmult_le_0_compat; lra). lra.
    + rewrite He. replace (ilog2 q - 53)%Z with (ilog2 q + (-53))%Z by lia.
      rewrite Qpower_plus by apply two_nonzero.
      assert (2 ^ ilog2 q * 2 ^ (-53) <= Qabs q * 2 ^ (-53)).
      { apply Qmult_le_compat_r; lra. }
      lra.
Qed.

(** Rounding does not pass 1. *)
Lemma round_binary64_le_1 (q : Q) : q <= 1 -> round_binary64 q <= 1.
Proof.
  intros Hq. unfold round_binary64. destruct (Qeq_bool q 0) eqn:E; [lra|].
  set (e := Z.max (ilog2 q) (-1022)). cbv zeta.
  set (ulp := 2 ^ (e - 52)).
  assert (Hu : 0 < ulp) by apply pow2_pos.
  destruct (Qlt_le_dec q 0) as [Hneg|Hpos].
  - assert (Hn : (fmt.round_half_even (q / ulp) <= 0)%Z).
    { apply round_half_even_le. change (inject_Z 0) with 0.
      apply Qle_shift_div_r; [easy|]. lra. }
    assert (inject_Z (fmt.round_half_even (q / ulp)) <= 0).
    { change 0 with (inject_Z 0). now rewrite <- Zle_Qle. }
    assert (inject_Z (fmt.round_half_even (q / ulp)) * ulp <= 0 * ulp).
    { apply Qmult_le_compat_r; lra. }
    lra.
  - assert (He : (e <= 0)%Z).
    { unfold e. apply Z.max_lub; [|lia]. unfold ilog2.
      assert (Hk : (Z.log2 (Z.abs (Qnum q)) - Z.log2 (Z.pos (Qden q)) <= 0)%Z).
      { assert (Hab : (Z.abs (Qnum q) <= Z.pos (Qden q))%Z).
        { destruct q as [a d]. unfold Qle in *. cbn in *. lia. }
        pose proof (Z.log2_le_mono _ _ Hab). lia. }
      destruct (Qle_bool _ _); lia. }
    assert (Hone : inject_Z (2 ^ (52 - e)) * ulp == 1).
    { rewrite Zpower_Qpower by lia. unfold ulp. change (inject_Z 2) with 2.
      rewrite <- Qpower_plus by apply two_nonzero.
      replace (52 - e + (e - 52))%Z with 0%Z by lia. reflexivity. }
    assert (Hn : (fmt.round_half_even (q / ulp) <= 2 ^ (52 - e))%Z).
    { apply round_half_even_le. apply Qle_shift_div_r; [easy|]. lra. }
    rewrite Zle_Qle in Hn.
    assert (inject_Z (fmt.round_half_even (q / ulp)) * ulp
            <= inject_Z (2 ^ (52 - e)) * ulp).
    { apply Qmult_le_compat_r; lra. }
    lra.
Qed.

End Binary64.

Lemma f64_error (x : Qc) :
  Qcabs (f64 x - x) ≤ Qcabs x * Q2Qc (2 ^ (-53))%Q + Q2Qc (2 ^ (-1075))%Q.
Proof.
  unfold Qcle, f64. cbn [this Qcabs Qcplus Qcmult Qcminus Qcopp Q2Qc].
  rewrite !Qred_correct. apply round_binary64_error.
Qed.

Lemma f64_le_1 (x : Qc) : x ≤ 1 → f64 x ≤ 1.
Proof.
  unfold Qcle, f64. cbn [this Q2Qc]. rewrite !Qred_correct.
  apply round_binary64_le_1.
Qed.

(** The literals of the script, and some more numbers, as binary64. *)
Example f64_examples :
  f64 (Q2Qc (1 # 1000000)) = Q2Qc (4722366482869645 # 4722366482869645213696)
  ∧ fadd 1 eps = Q2Qc (4503604130970123 # 4503599627370496)
  ∧ fsub 0 eps = - eps
  ∧ f64 (Q2Qc (9 # 10)) = Q2Qc (8106479329266893 # 9007199254740992)
  ∧ f64 (Q2Qc (11 # 10)) = Q2Qc (2476979795053773 # 2251799813685248)
  ∧ f64 (Q2Qc (909 # 1000)) = Q2Qc (4093772061279781 # 4503599627370496)
  ∧ f64 (Q2Qc (1 # 3)) = Q2Qc (6004799503160661 # 18014398509481984)
  ∧ f64 (Qc_of_Z 9007199254740993) = Qc_of_Z 9007199254740992
  ∧ f64 (Q2Qc (512 # 400)) = Q2Qc (5764607523034235 # 4503599627370496)
  ∧ f64 0 = 0 ∧ f64 1 = 1 ∧ f64 (Qc_of_Z 10) = Qc_of_Z 10
  ∧ f64 (Q2Qc (1 # 2)) = Q2Qc (1 # 2).
Proof. repeat split; apply Qc_is_canon; by vm_compute. Qed.

Lemma f64_zero : f64 0 = 0.
Proof. apply Qc_is_canon. by vm_compute. Qed.

Lemma f64_one : f64 1 = 1.
Proof. apply Qc_is_canon. by vm_compute. Qed.

Opaque f64.

(** ** The monad of results *)

Lemma bind_Ok {A B} (a : A) (f : A → res B) : (Ok a ≫= f) = f a.
Proof. reflexivity. Qed.

Lemma bind_Raise {A B} (e : exn) (f : A → res B) : (Raise e ≫= f) = Raise e.
Proof. reflexivity. Qed.

Lemma assert_true (text : string) : assert_ true text = Ok tt.
Proof. reflexivity. Qed.

Lemma assert_false (text : string) : assert_ false text = Raise (AssertionError text).
Proof. reflexivity. Qed.

(** ** Comparisons *)

Lemma Qc_ltb_lt (x y : Qc) : Qc_ltb x y = true ↔ x < y.
Proof.
  unfold Qc_ltb. rewrite Qclt_alt. destruct (x ?= y); split; congruence.
Qed.

Lemma Qc_leb_le (x y : Qc) : Qc_leb x y = true ↔ x ≤ y.
Proof.
  unfold Qc_leb. rewrite Qcle_alt. destruct (x ?= y); split; congruence.
Qed.

Lemma Qc_ltb_ge (x y : Qc) : Qc_ltb x y = false ↔ y ≤ x.
Proof.
  rewrite <- not_true_iff_false, Qc_ltb_lt. symmetry. apply Qcle_ngt.
Qed.

Lemma Qc_leb_gt (x y : Qc) : Qc_leb x y = false ↔ y < x.
Proof.
  rewrite <- not_true_iff_false, Qc_leb_le. symmetry. apply Qclt_nge.
Qed.

Lemma Qc_min_gt (lo x y : Qc) : lo < Qc_min x y ↔ lo < x ∧ lo < y.
Proof.
  unfold Qc_min. destruct (Qc_ltb y x) eqn:E.
  - apply Qc_ltb_lt in E. split; [|tauto].
    intros H. split; [|done]. by apply Qclt_trans with y.
  - apply Qc_ltb_ge in E. split; [|tauto].
    intros H. split; [done|]. by apply Qclt_le_trans with x.
Qed.

Lemma Qc_max_lt (hi x y : Qc) : Qc_max x y < hi ↔ x < hi ∧ y < hi.
Proof.
  unfold Qc_max. destruct (Qc_ltb x y) eqn:E.
  - apply Qc_ltb_lt in E. split; [|tauto].
    intros H. split; [|done]. by apply Qclt_trans with y.
  - apply Qc_ltb_ge in E. split; [|tauto].
    intros H. split; [done|]. by apply Qcle_lt_trans with x.
Qed.

Lemma fold_min_gt (lo : Qc) (xs : list Qc) (x : Qc) :
  lo < fold_left Qc_min xs x ↔ Forall (fun y => lo < y) (x :: xs).
Proof.
  revert x. induction xs as [|y xs IH]; intros x; simpl.
  - rewrite Forall_singleton. tauto.
  - rewrite IH, !Forall_cons, Qc_min_gt. tauto.
Qed.

Lemma fold_max_lt (hi : Qc) (xs : list Qc) (x : Qc) :
  fold_left Qc_max xs x < hi ↔ Forall (fun y => y < hi) (x :: xs).
Proof.
  revert x. induction xs as [|y xs IH]; intros x; simpl.
  - rewrite Forall_singleton. tauto.
  - rewrite IH, !Forall_cons, Qc_max_lt. tauto.
Qed.

(** ** The precondition of [histogram_distance] *)

Lemma histogram_distance_split (arr1 arr2 : list Qc) (bins : np.bins_arg) :
  histogram_distance arr1 arr2 bins =
  (_ ← precondition arr1 arr2; compare_histograms arr1 arr2 bins).
Proof.
  unfold histogram_distance, precondition, compare_histograms.
  destruct (np.min arr1); [rewrite !bind_Ok|by rewrite !bind_Raise].
  destruct (assert_ _ "arr1.min() > 0-eps"); [rewrite !bind_Ok|by rewrite !bind_Raise].
  destruct (np.max arr1); [rewrite !bind_Ok|by rewrite !bind_Raise].
  destruct (assert_ _ "arr1.max() < 1+eps"); [rewrite !bind_Ok|by rewrite !bind_Raise].
  destruct (np.min arr2); [rewrite !bind_Ok|by rewrite !bind_Raise].
  destruct (assert_ _ "arr2.min() > 0-eps"); [rewrite !bind_Ok|by rewrite !bind_Raise].
  destruct (np.max arr2); [rewrite !bind_Ok|by rewrite !bind_Raise].
  destruct (assert_ _ "arr2.max() < 1+eps") as [[]|];
    [by rewrite !bind_Ok|by rewrite !bind_Raise].
Qed.

Lemma precondition_ok (arr1 arr2 : list Qc) :
  arr1 ≠ [] → arr2 ≠ [] →
  Forall admitted_sample arr1 → Forall admitted_sample arr2 →
  precondition arr1 arr2 = Ok tt.
Proof.
  intros N1 N2 F1 F2. unfold precondition.
  destruct arr1 as [|x xs]; [done|]. destruct arr2 as [|y ys]; [done|].
  assert (Hm1 : Qc_ltb (fsub 0 eps) (fold_left Qc_min xs x) = true).
  { apply Qc_ltb_lt, fold_min_gt. eapply Forall_impl; [exact F1|]. by intros ? []. }
  assert (HM1 : Qc_ltb (fold_left Qc_max xs x) (fadd 1 eps) = true).
  { apply Qc_ltb_lt, fold_max_lt. eapply Forall_impl; [exact F1|]. by intros ? []. }
  assert (Hm2 : Qc_ltb (fsub 0 eps) (fold_left Qc_min ys y) = true).
  { apply Qc_ltb_lt, fold_min_gt. eapply Forall_impl; [exact F2|]. by intros ? []. }
  assert (HM2 : Qc_ltb (fold_left Qc_max ys y) (fadd 1 eps) = true).
  { apply Qc_ltb_lt, fold_max_lt. eapply Forall_impl; [exact F2|]. by intros ? []. }
  cbn [np.min np.max].
  by rewrite !bind_Ok, Hm1, assert_true, bind_Ok, HM1, assert_true, bind_Ok, Hm2,
    assert_true, bind_Ok, HM2.
Qed.

Lemma precondition_fails (arr1 arr2 : list Qc) :
  arr1 ≠ [] → arr2 ≠ [] →
  ¬ (Forall admitted_sample arr1 ∧ Forall admitted_sample arr2) →
  ∃ e, precondition arr1 arr2 = Raise e ∧ precondition_error (@Raise Qc e) = true.
Proof.
  intros N1 N2 HF. unfold precondition.
  destruct arr1 as [|x xs]; [done|]. destruct arr2 as [|y ys]; [done|].
  cbn [np.min np.max]. rewrite !bind_Ok.
  destruct (Qc_ltb (fsub 0 eps) (fold_left Qc_min xs x)) eqn:Hm1;
    [rewrite assert_true, !bind_Ok
    |rewrite assert_false, bind_Raise; eexists; split; [reflexivity|by vm_compute]].
  destruct (Qc_ltb (fold_left Qc_max xs x) (fadd 1 eps)) eqn:HM1;
    [rewrite assert_true, !bind_Ok
    |rewrite assert_false, bind_Raise; eexists; split; [reflexivity|by vm_compute]].
  destruct (Qc_ltb (fsub 0 eps) (fold_left Qc_min ys y)) eqn:Hm2;
    [rewrite assert_true, !bind_Ok
    |rewrite assert_false, bind_Raise; eexists; split; [reflexivity|by vm_compute]].
  destruct (Qc_ltb (fold_left Qc_max ys y) (fadd 1 eps)) eqn:HM2;
    [|rewrite assert_false; eexists; split; [reflexivity|by vm_compute]].
  exfalso. apply HF.
  apply Qc_ltb_lt, fold_min_gt in Hm1, Hm2. apply Qc_ltb_lt, fold_max_lt in HM1, HM2.
  split; apply Forall_forall; intros z Hz; split.
  - by eapply Forall_forall in Hm1.
  - by eapply Forall_forall in HM1.
  - by eapply Forall_forall in Hm2.
  - by eapply Forall_forall in HM2.
Qed.

Lemma histogram_raises (a : list Qc) (bins : np.bins_arg) (e : exn) :
  np.histogram a bins = Raise e → precondition_error (@Raise Qc e) = false.
Proof.
  unfold np.histogram, np.histogram_edges.
  destruct bins as [|n|edges]; repeat case_match; intros [= <-]; done.
Qed.

Lemma compare_histograms_no_precondition_error (arr1 arr2 : list Qc) (bins : np.bins_arg) :
  precondition_error (compare_histograms arr1 arr2 bins) = false.
Proof.
  unfold compare_histograms.
  set (b := if negb (truthy bins) then _ else _).
  destruct (np.histogram arr1 b) as [c1|e1] eqn:H1; simpl;
    [|by apply histogram_raises in H1].
  destruct (np.histogram arr2 b) as [c2|e2] eqn:H2; simpl;
    [|by apply histogram_raises in H2].
  unfold assert_. repeat case_match; done.
Qed.

Lemma admitted_or_rejected (x : Qc) : admitted_sample x ∨ rejected_sample x.
Proof.
  unfold admitted_sample, rejected_sample.
  destruct (Qclt_le_dec (fsub 0 eps) x); [|tauto].
  destruct (Qclt_le_dec x (fadd 1 eps)); tauto.
Qed.

Lemma admitted_not_rejected (x : Qc) : admitted_sample x → ¬ rejected_sample x.
Proof.
  intros [H1 H2] [H|H].
  - exact (Qcle_not_lt _ _ H H1).
  - exact (Qcle_not_lt _ _ H H2).
Qed.

Lemma Forall_admitted_Exists_rejected (a : list Qc) :
  ¬ Forall admitted_sample a ↔ Exists rejected_sample a.
Proof.
  induction a as [|x a IH].
  - rewrite Exists_nil. split; [|tauto]. intros H. apply H. constructor.
  - rewrite Forall_cons, Exists_cons, <- IH.
    pose proof (admitted_or_rejected x). pose proof (admitted_not_rejected x).
    tauto.
Qed.

Lemma rejected_both (arr1 arr2 : list Qc) :
  ¬ (Forall admitted_sample arr1 ∧ Forall admitted_sample arr2)
  ↔ Exists rejected_sample (arr1 ++ arr2).
Proof.
  rewrite Exists_app, <- !Forall_admitted_Exists_rejected.
  split; [|tauto]. intros H.
  destruct (decide (Exists rejected_sample arr1)) as [E|E].
  - left. by apply Forall_admitted_Exists_rejected.
  - right. intros F2. apply H. split; [|done].
    rewrite <- Forall_admitted_Exists_rejected in E.
    apply Forall_forall. intros x Hx.
    destruct (admitted_or_rejected x) as [|R]; [done|].
    exfalso. apply E. intros F. rewrite Forall_forall in F.
    by apply (admitted_not_rejected x (F x Hx)).
Qed.

(** C5, amended.  A sample at or beyond the float [0 - eps] or the float
    [1 + eps] makes [histogram_distance] raise; on non-empty arrays the
    error is one of the four precondition assertions exactly when some
    sample is rejected, that is, when not every sample lies strictly
    between the two floats. *)
Theorem histogram_distance_precondition (arr1 arr2 : list Qc) (bins : np.bins_arg) :
  (Exists rejected_sample (arr1 ++ arr2) →
   ∃ e, histogram_distance arr1 arr2 bins = Raise e)
  ∧ (arr1 ≠ [] → arr2 ≠ [] →
     (precondition_error (histogram_distance arr1 arr2 bins) = true
      ↔ Exists rejected_sample (arr1 ++ arr2))).
Proof.
  assert (Hiff : arr1 ≠ [] → arr2 ≠ [] →
     (precondition_error (histogram_distance arr1 arr2 bins) = true
      ↔ Exists rejected_sample (arr1 ++ arr2))).
  { intros N1 N2. rewrite histogram_distance_split, <- rejected_both. split.
    - intros HP HF. destruct HF as [F1 F2].
      rewrite (precondition_ok arr1 arr2 N1 N2 F1 F2) in HP. simpl in HP.
      by rewrite compare_histograms_no_precondition_error in HP.
    - intros HF. destruct (precondition_fails arr1 arr2 N1 N2 HF) as (e & -> & He).
      exact He. }
  split; [|exact Hiff].
  intros HE.
  destruct arr1 as [|x xs]; [by eexists|].
  destruct arr2 as [|y ys].
  - rewrite histogram_distance_split. unfold precondition. simpl.
    unfold assert_. repeat case_match; by eexists.
  - apply Hiff in HE; [|done..].
    destruct (histogram_distance _ _ _) as [|e]; [done|by eexists].
Qed.

Lemma histogram_distance_precondition_witness :
  Exists rejected_sample ([Qc_of_Z 2] ++ [0])
  ∧ (∃ e, histogram_distance [Qc_of_Z 2] [0] np.BinsNone = Raise e)
  ∧ precondition_error (histogram_distance [Qc_of_Z 2] [0] np.BinsNone) = true.
Proof.
  assert (HE : Exists rejected_sample ([Qc_of_Z 2] ++ [0])).
  { apply Exists_cons_hd. right. by vm_compute. }
  destruct (histogram_distance_precondition [Qc_of_Z 2] [0] np.BinsNone) as [H1 H2].
  split; [exact HE|]. split; [exact (H1 HE)|].
  apply H2; [done|done|exact HE].
Defined.

(** C5, as stated, fails at the ends of the interval: the sample that is
    the float [1 + eps] lies within [[0 - eps, 1 + eps]], it is neither
    above [1 + eps] nor below [0 - eps], and the precondition assertion is
    raised. *)
Lemma histogram_distance_rejects_boundary :
  Forall within_tolerance [fadd 1 eps] ∧ Forall within_tolerance [0]
  ∧ ¬ Exists (fun x => x < fsub 0 eps ∨ fadd 1 eps < x) ([fadd 1 eps] ++ [0])
  ∧ histogram_distance [fadd 1 eps] [0] np.BinsNone
    = Raise (AssertionError "arr1.max() < 1+eps")
  ∧ precondition_error (histogram_distance [fadd 1 eps] [0] np.BinsNone) = true.
Proof.
  split; [|split; [|split; [|split]]].
  - apply Forall_singleton. split; by vm_compute.
  - apply Forall_singleton. split; by vm_compute.
  - simpl. rewrite Exists_cons, Exists_cons, Exists_nil.
    intros [[H|H]|[[H|H]|[]]]; by vm_compute in H.
  - by vm_compute.
  - by vm_compute.
Qed.


(** ** Histograms *)

Ltac qc_order :=
  repeat match goal with
  | H : Qc_ltb _ _ = true |- _ => apply Qc_ltb_lt in H
  | H : Qc_ltb _ _ = false |- _ => apply Qc_ltb_ge in H
  | H : Qc_leb _ _ = true |- _ => apply Qc_leb_le in H
  | H : Qc_leb _ _ = false |- _ => apply Qc_leb_gt in H
  end;
  unfold Qclt, Qcle in *; lra.

Lemma count_cons (p : Qc → bool) (x : Qc) (a : list Qc) :
  Z.of_nat (length (filter (fun y => p y) (x :: a)))
  = ((if p x then 1 else 0) + Z.of_nat (length (filter (fun y => p y) a)))%Z.
Proof.
  rewrite filter_cons. destruct (decide _) as [H|H]; destruct (p x); simpl in *;
    try done; lia.
Qed.

Lemma searchsorted_left_diff (a : list Qc) (lo hi : Qc) :
  lo ≤ hi →
  (np.searchsorted_left a hi - np.searchsorted_left a lo)%Z
  = Z.of_nat (length (filter (fun x => in_bin lo hi false x) a)).
Proof.
  intros Hle. unfold np.searchsorted_left.
  induction a as [|x a IH]; [done|].
  rewrite !count_cons, <- IH. unfold in_bin.
  destruct (Qc_ltb x hi) eqn:E1, (Qc_ltb x lo) eqn:E2, (Qc_leb lo x) eqn:E3;
    simpl; try lia; exfalso; qc_order.
Qed.

Lemma searchsorted_right_diff (a : list Qc) (lo hi : Qc) :
  lo ≤ hi →
  (np.searchsorted_right a hi - np.searchsorted_left a lo)%Z
  = Z.of_nat (length (filter (fun x => in_bin lo hi true x) a)).
Proof.
  intros Hle. unfold np.searchsorted_left, np.searchsorted_right.
  induction a as [|x a IH]; [done|].
  rewrite !count_cons, <- IH. unfold in_bin.
  destruct (Qc_leb x hi) eqn:E1, (Qc_ltb x lo) eqn:E2, (Qc_leb lo x) eqn:E3;
    simpl; try lia; exfalso; qc_order.
Qed.

Lemma last_cons_default {A} (l : list A) (x d d' : A) :
  List.last (x :: l) d = List.last (x :: l) d'.
Proof.
  revert x. induction l as [|y l IH]; intros x; [done|].
  change (List.last (y :: l) d = List.last (y :: l) d'). apply IH.
Qed.

Lemma last_slice_cons (lo hi : Qc) (rest : list Qc) :
  np.last_slice (lo :: hi :: rest) = np.last_slice (hi :: rest).
Proof.
  unfold np.last_slice. f_equal.
  destruct rest as [|r rs]; [done|].
  change (List.last (r :: rs) lo = List.last (r :: rs) hi).
  apply last_cons_default.
Qed.

Lemma cum_n_cons (a : list Qc) (lo hi : Qc) (rest : list Qc) :
  np.cum_n a (lo :: hi :: rest)
  = np.searchsorted_left a lo :: np.cum_n a (hi :: rest).
Proof. unfold np.cum_n. by rewrite last_slice_cons. Qed.

(** The differences of the cumulative counts are the counts of the bins. *)
Lemma diff_cum_n (a edges : list Qc) :
  np.decreases edges = false → np.diff (np.cum_n a edges) = bin_counts a edges.
Proof.
  induction edges as [|lo tl IH]; [done|].
  destruct tl as [|hi rest]; [done|].
  intros Hd. simpl in Hd. apply orb_false_iff in Hd as [Hle Hd].
  apply Qc_ltb_ge in Hle. specialize (IH Hd).
  rewrite cum_n_cons.
  destruct rest as [|r rs].
  - simpl. by rewrite <- searchsorted_right_diff.
  - rewrite cum_n_cons in *.
    change (bin_counts a (lo :: hi :: r :: rs))
      with (Z.of_nat (length (filter (fun x => in_bin lo hi false x) a))
            :: bin_counts a (hi :: r :: rs)).
    rewrite <- IH, <- searchsorted_left_diff by done. done.
Qed.

Lemma searchsorted_left_none (a : list Qc) (v : Qc) :
  Forall (fun x => v ≤ x) a → np.searchsorted_left a v = 0%Z.
Proof.
  unfold np.searchsorted_left. induction 1 as [|x a Hx _ IH]; [done|].
  rewrite count_cons, IH. destruct (Qc_ltb x v) eqn:E; [exfalso; qc_order|done].
Qed.

Lemma searchsorted_right_all (a : list Qc) (v : Qc) :
  Forall (fun x => x ≤ v) a → np.searchsorted_right a v = Z.of_nat (length a).
Proof.
  unfold np.searchsorted_right. induction 1 as [|x a Hx _ IH]; [done|].
  rewrite count_cons, IH. destruct (Qc_leb x v) eqn:E; [simpl; lia|exfalso; qc_order].
Qed.

Lemma sum_diff (x : Z) (l : list Z) :
  fold_right Z.add 0%Z (np.diff (x :: l)) = (List.last l x - x)%Z.
Proof.
  revert x. induction l as [|y l IH]; intros x; [simpl; lia|].
  change (np.diff (x :: y :: l)) with ((y - x)%Z :: np.diff (y :: l)).
  cbn [fold_right]. rewrite IH.
  destruct l as [|z l]; [simpl; lia|].
  change (List.last (y :: z :: l) x) with (List.last (z :: l) x).
  rewrite (last_cons_default l z y x). lia.
Qed.

Lemma sum_normalize (cs : list Z) (n : Z) :
  np.sum (normalize cs n) = Qc_of_Z (fold_right Z.add 0%Z cs) / Qc_of_Z n.
Proof.
  unfold np.sum, normalize.
  assert (H : ∀ acc, fold_left Qcplus (List.map (fun c => Qc_of_Z c / Qc_of_Z n) cs) acc
                     = acc + Qc_of_Z (fold_right Z.add 0%Z cs) / Qc_of_Z n).
  { induction cs as [|c cs IH]; intros acc; simpl.
    - rewrite Z2Qc_inj_0. unfold Qcdiv. ring.
    - rewrite IH, Z2Qc_inj_add. unfold Qcdiv. ring. }
  rewrite H. ring.
Qed.

Lemma default_bins_increase : np.decreases default_bins = false.
Proof. by vm_compute. Qed.

Lemma histogram_default (a : list Qc) :
  np.histogram a (np.BinsList default_bins) = Ok (bin_counts a default_bins).
Proof.
  unfold np.histogram, np.histogram_edges.
  by rewrite default_bins_increase, diff_cum_n by apply default_bins_increase.
Qed.

(** The end edges [0 / 10] and [10 / 10] are the floats 0.0 and 1.0. *)
Lemma default_first_edge : f64 (Qc_frac (Z.of_nat 0) 10) = 0.
Proof. apply Qc_is_canon. by vm_compute. Qed.

Lemma default_last_edge : f64 (Qc_frac (Z.of_nat 10) 10) = 1.
Proof. apply Qc_is_canon. by vm_compute. Qed.

(** Every sample of the unit interval is counted in one of the ten bins. *)
Lemma default_counts_total (a : list Qc) :
  Forall unit_sample a →
  fold_right Z.add 0%Z (bin_counts a default_bins) = Z.of_nat (length a).
Proof.
  intros Ha. rewrite <- diff_cum_n by apply default_bins_increase.
  cbv [default_bins seq List.map]. rewrite !cum_n_cons, sum_diff.
  cbv [np.cum_n removelast np.last_slice List.map app List.last].
  rewrite default_first_edge, default_last_edge.
  rewrite searchsorted_left_none, searchsorted_right_all; [lia|..];
    (eapply Forall_impl; [exact Ha|]); by intros x [H0 H1].
Qed.

Lemma Qc_div_same (n : Z) : n ≠ 0%Z → Qc_of_Z n / Qc_of_Z n = 1.
Proof.
  intros Hn. unfold Qcdiv. apply Qcmult_inv_r.
  rewrite <- Z2Qc_inj_0. by intros H%Z2Qc_inj.
Qed.

Lemma normalized_sum_one (a : list Qc) :
  a ≠ [] → Forall unit_sample a →
  np.sum (normalized_histogram a default_bins) = 1.
Proof.
  intros Hne Ha. unfold normalized_histogram.
  change (List.map _ (bin_counts a default_bins))
    with (normalize (bin_counts a default_bins) (Z.of_nat (length a))).
  rewrite sum_normalize, default_counts_total by done.
  apply Qc_div_same. destruct a; [done|]. simpl. lia.
Qed.

Lemma sum_check_passes : Qc_ltb (Qcabs (1 - 1)) eps = true.
Proof. vm_compute. reflexivity. Qed.

Lemma unit_sample_admitted (x : Qc) : unit_sample x → admitted_sample x.
Proof.
  intros [H0 H1]. split.
  - apply Qclt_le_trans with 0; [by vm_compute|done].
  - apply Qcle_lt_trans with 1; [done|by vm_compute].
Qed.

(** With a [bins] argument that is false as a condition, the histograms
    are taken over the default edges. *)
Lemma default_distance (arr1 arr2 : list Qc) (bins : np.bins_arg) :
  truthy bins = false →
  arr1 ≠ [] → arr2 ≠ [] →
  Forall unit_sample arr1 → Forall unit_sample arr2 →
  histogram_distance arr1 arr2 bins
  = Ok (np.sum (sqerr (normalized_histogram arr1 default_bins)
                      (normalized_histogram arr2 default_bins))).
Proof.
  intros Hb N1 N2 U1 U2.
  pose proof (normalized_sum_one arr1 N1 U1) as S1.
  pose proof (normalized_sum_one arr2 N2 U2) as S2.
  rewrite histogram_distance_split, precondition_ok; [|done|done|..].
  2,3: eapply Forall_impl; [eassumption|apply unit_sample_admitted].
  rewrite bind_Ok. unfold compare_histograms. rewrite Hb. cbn [negb].
  rewrite !histogram_default, bind_Ok. cbv zeta. rewrite bind_Ok.
  change (normalize (bin_counts arr1 default_bins) (np.size arr1))
    with (normalized_histogram arr1 default_bins).
  change (normalize (bin_counts arr2 default_bins) (np.size arr2))
    with (normalized_histogram arr2 default_bins).
  rewrite S1, S2, sum_check_passes, assert_true, !bind_Ok. reflexivity.
Qed.

(** C6, amended.  For non-empty arrays of samples of the closed interval
    [[0, 1]] and the default binning, whose edges are the floats [x / 10],
    each normalized histogram sums to 1, no assertion fails, and
    [histogram_distance] returns the sum over the bins of the squared
    differences of the two normalized histograms. *)
Theorem histogram_distance_unit_interval (arr1 arr2 : list Qc) :
  arr1 ≠ [] → arr2 ≠ [] →
  Forall unit_sample arr1 → Forall unit_sample arr2 →
  np.sum (normalized_histogram arr1 default_bins) = 1
  ∧ np.sum (normalized_histogram arr2 default_bins) = 1
  ∧ histogram_distance arr1 arr2 np.BinsNone
    = Ok (np.sum (sqerr (normalized_histogram arr1 default_bins)
                        (normalized_histogram arr2 default_bins))).
Proof.
  intros N1 N2 U1 U2.
  split; [by apply normalized_sum_one|]. split; [by apply normalized_sum_one|].
  by apply default_distance.
Qed.

Lemma histogram_distance_unit_interval_witness :
  histogram_distance [0; Q2Qc (1 # 2)] [1] np.BinsNone
  = Ok (np.sum (sqerr (normalized_histogram [0; Q2Qc (1 # 2)] default_bins)
                      (normalized_histogram [1] default_bins))).
Proof.
  apply (histogram_distance_unit_interval [0; Q2Qc (1 # 2)] [1]); try done;
    repeat constructor; by vm_compute.
Defined.

(** C6, as stated, fails: a sample in the margin between [1] and the
    float [1 + eps], here the float [1 + 2^-21], passes the precondition and
    is counted in no bin, so that the normalized histogram does not sum to 1
    and the internal assertion is raised. *)
Lemma histogram_distance_margin_uncounted :
  f64 (Q2Qc (2097153 # 2097152)) = Q2Qc (2097153 # 2097152)
  ∧ Forall within_tolerance [Q2Qc (2097153 # 2097152)]
  ∧ Forall within_tolerance [0]
  ∧ Forall admitted_sample [Q2Qc (2097153 # 2097152)]
  ∧ np.sum (normalize (bin_counts [Q2Qc (2097153 # 2097152)] default_bins) 1) = 0
  ∧ histogram_distance [Q2Qc (2097153 # 2097152)] [0] np.BinsNone
    = Raise (AssertionError "abs(hist1.sum() - 1.0) < eps").
Proof.
  split; [|split; [|split; [|split; [|split]]]].
  - apply Qc_is_canon. by vm_compute.
  - apply Forall_singleton. split; by vm_compute.
  - apply Forall_singleton. split; by vm_compute.
  - apply Forall_singleton. split; by vm_compute.
  - apply Qc_is_canon. by vm_compute.
  - by vm_compute.
Qed.

(** ** The scenario of two bins *)

Lemma count_repeat (p : Qc → bool) (x : Qc) (n : nat) :
  Z.of_nat (length (filter (fun y => p y) (repeat x n)))
  = if p x then Z.of_nat n else 0%Z.
Proof.
  induction n as [|n IH]; [by destruct (p x)|].
  change (repeat x (S n)) with (x :: repeat x n).
  rewrite count_cons, IH. destruct (p x); lia.
Qed.

Lemma Qc_zero_div (x : Qc) : Qc_of_Z 0 / x = 0.
Proof. rewrite Z2Qc_inj_0. unfold Qcdiv. ring. Qed.

Lemma two_bins_zeros (n : nat) :
  bin_counts (repeat 0 n) two_bins = [Z.of_nat n; 0%Z].
Proof.
  unfold two_bins, bin_counts. by rewrite !count_repeat.
Qed.

Lemma two_bins_ones (n : nat) :
  bin_counts (repeat 1 n) two_bins = [0%Z; Z.of_nat n].
Proof.
  unfold two_bins, bin_counts. by rewrite !count_repeat.
Qed.

Lemma length_repeat_size (x : Qc) (n : nat) : np.size (repeat x n) = Z.of_nat n.
Proof. unfold np.size. by rewrite repeat_length. Qed.

Lemma sum_one_zero : np.sum [1; 0] = 1.
Proof. unfold np.sum. simpl. ring. Qed.

Lemma sum_zero_one : np.sum [0; 1] = 1.
Proof. unfold np.sum. simpl. ring. Qed.

Lemma sqerr_two_bins : np.sum (sqerr [1; 0] [0; 1]) = Qc_of_Z 2.
Proof. apply Qc_is_canon. reflexivity. Qed.

(** C7.  With the bins [[0, 0.5, 1.0]], the distance between [N] zeros and
    [N] ones is exactly 2, for every [N >= 1]: the normalized histograms
    are [[1, 0]] and [[0, 1]]. *)
Theorem histogram_distance_zeros_ones (N : nat) :
  (1 ≤ N)%nat →
  normalize (bin_counts (repeat 0 N) two_bins) (np.size (repeat 0 N)) = [1; 0]
  ∧ normalize (bin_counts (repeat 1 N) two_bins) (np.size (repeat 1 N)) = [0; 1]
  ∧ histogram_distance (repeat 0 N) (repeat 1 N) (np.BinsList two_bins)
    = Ok (Qc_of_Z 2).
Proof.
  intros HN.
  assert (Hz : normalize (bin_counts (repeat 0 N) two_bins) (np.size (repeat 0 N))
               = [1; 0]).
  { rewrite two_bins_zeros, length_repeat_size. unfold normalize, List.map.
    by rewrite Qc_div_same, Qc_zero_div by lia. }
  assert (Ho : normalize (bin_counts (repeat 1 N) two_bins) (np.size (repeat 1 N))
               = [0; 1]).
  { rewrite two_bins_ones, length_repeat_size. unfold normalize, List.map.
    by rewrite Qc_div_same, Qc_zero_div by lia. }
  split; [done|]. split; [done|].
  rewrite histogram_distance_split, precondition_ok.
  - rewrite bind_Ok. unfold compare_histograms.
    change (truthy (np.BinsList two_bins)) with true. cbn [negb].
    unfold np.histogram, np.histogram_edges.
    change (np.decreases two_bins) with false. cbv iota.
    rewrite !diff_cum_n, bind_Ok by done. cbv zeta. rewrite bind_Ok.
    rewrite Hz, Ho, sum_one_zero, sum_zero_one, sum_check_passes, assert_true,
      !bind_Ok.
    by rewrite sqerr_two_bins.
  - destruct N; [lia|done].
  - destruct N; [lia|done].
  - apply Forall_forall. intros x ->%list_elem_of_In%repeat_spec.
    split; by vm_compute.
  - apply Forall_forall. intros x ->%list_elem_of_In%repeat_spec.
    split; by vm_compute.
Qed.

Lemma histogram_distance_zeros_ones_witness :
  histogram_distance (repeat 0 3) (repeat 1 3) (np.BinsList two_bins)
  = Ok (Qc_of_Z 2).
Proof.
  apply (histogram_distance_zeros_ones 3). lia.
Defined.

(** ** The default binning *)

Lemma truthy_false (bins : np.bins_arg) :
  truthy bins = false
  ↔ bins = np.BinsNone ∨ bins = np.BinsInt 0 ∨ bins = np.BinsList [].
Proof.
  split.
  - destruct bins as [|n|[|e edges]]; simpl; try done; auto.
    intros ->%negb_false_iff%Z.eqb_eq. auto.
  - by intros [->| [->| ->]].
Qed.

(** The eleven default edges are the floats 0.0, 0.1, ..., 1.0. *)
Lemma default_bins_floats :
  default_bins
  = [0; Q2Qc (3602879701896397 # 36028797018963968);
     Q2Qc (3602879701896397 # 18014398509481984);
     Q2Qc (5404319552844595 # 18014398509481984);
     Q2Qc (3602879701896397 # 9007199254740992);
     Q2Qc (1 # 2);
     Q2Qc (5404319552844595 # 9007199254740992);
     Q2Qc (3152519739159347 # 4503599627370496);
     Q2Qc (3602879701896397 # 4503599627370496);
     Q2Qc (8106479329266893 # 9007199254740992);
     1].
Proof.
  unfold default_bins. cbv [seq List.map].
  repeat (apply (f_equal2 (@cons Qc)); [apply Qc_is_canon; by vm_compute|]).
  reflexivity.
Qed.

(** C10.  A [bins] argument that is false as a condition, that is [None],
    [0] or the empty list, is replaced by the default binning of the eleven
    edges that are the floats 0.0, 0.1, ..., 1.0: the call gives what the
    call with these edges gives, and for non-empty arrays of samples of
    [[0, 1]] it returns the sum of the squared differences of the
    histograms over these edges.  The empty list does not reach
    [np.histogram], which would answer it with no bin at all. *)
Theorem histogram_distance_falsy_bins (arr1 arr2 : list Qc) (bins : np.bins_arg) :
  truthy bins = false →
  histogram_distance arr1 arr2 bins
  = histogram_distance arr1 arr2 (np.BinsList default_bins)
  ∧ histogram_distance arr1 arr2 bins = histogram_distance arr1 arr2 np.BinsNone
  ∧ (arr1 ≠ [] → arr2 ≠ [] → Forall unit_sample arr1 → Forall unit_sample arr2 →
     histogram_distance arr1 arr2 bins
     = Ok (np.sum (sqerr (normalized_histogram arr1 default_bins)
                         (normalized_histogram arr2 default_bins))))
  ∧ np.histogram arr1 (np.BinsList []) = Ok []
  ∧ default_bins
    = [0; Q2Qc (3602879701896397 # 36028797018963968);
       Q2Qc (3602879701896397 # 18014398509481984);
       Q2Qc (5404319552844595 # 18014398509481984);
       Q2Qc (3602879701896397 # 9007199254740992);
       Q2Qc (1 # 2);
       Q2Qc (5404319552844595 # 9007199254740992);
       Q2Qc (3152519739159347 # 4503599627370496);
       Q2Qc (3602879701896397 # 4503599627370496);
       Q2Qc (8106479329266893 # 9007199254740992);
       1].
Proof.
  intros Hb.
  assert (H : ∀ b, truthy b = false →
              compare_histograms arr1 arr2 b
              = compare_histograms arr1 arr2 (np.BinsList default_bins)).
  { intros b Hf. unfold compare_histograms. rewrite Hf.
    change (truthy (np.BinsList default_bins)) with true. reflexivity. }
  split; [|split; [|split; [|split]]].
  - by rewrite !histogram_distance_split, (H bins Hb).
  - by rewrite !histogram_distance_split, (H bins Hb), (H np.BinsNone eq_refl).
  - by apply default_distance.
  - reflexivity.
  - exact default_bins_floats.
Qed.

Lemma histogram_distance_falsy_bins_witness :
  histogram_distance [0; Q2Qc (1 # 2)] [1] (np.BinsList [])
  = Ok (np.sum (sqerr (normalized_histogram [0; Q2Qc (1 # 2)] default_bins)
                      (normalized_histogram [1] default_bins)))
  ∧ histogram_distance [0; Q2Qc (1 # 2)] [1] (np.BinsInt 0)
    = histogram_distance [0; Q2Qc (1 # 2)] [1] np.BinsNone.
Proof.
  split.
  - destruct (histogram_distance_falsy_bins [0; Q2Qc (1 # 2)] [1] (np.BinsList []))
      as (_ & _ & H & _); [reflexivity|].
    apply H; [done|done|..];
      repeat (apply Forall_cons_2; [split; by vm_compute|]); apply Forall_nil_2.
  - destruct (histogram_distance_falsy_bins [0; Q2Qc (1 # 2)] [1] (np.BinsInt 0))
      as (_ & H & _); [reflexivity|exact H].
Defined.

(** On these arrays the distance is 3/2, with [None], [0] and [[]]. *)
Example falsy_bins_example :
  np.sum (sqerr (normalized_histogram [0; Q2Qc (1 # 2)] default_bins)
                (normalized_histogram [1] default_bins)) = Q2Qc (3 # 2)
  ∧ histogram_distance [0; Q2Qc (1 # 2)] [1] (np.BinsList []) = Ok (Q2Qc (3 # 2))
  ∧ histogram_distance [0; Q2Qc (1 # 2)] [1] (np.BinsInt 0) = Ok (Q2Qc (3 # 2))
  ∧ histogram_distance [0; Q2Qc (1 # 2)] [1] np.BinsNone = Ok (Q2Qc (3 # 2)).
Proof.
  split; [apply Qc_is_canon; by vm_compute|].
  repeat split; vm_compute; reflexivity.
Qed.

(** A sample that is the float 0.3 is counted in the bin that starts at
    that edge, the fourth one: against a sample at 0.25, in the third
    bin, the distance is 2. *)
Example default_edge_example :
  np.histogram [f64 (Q2Qc (3 # 10))] (np.BinsList default_bins)
  = Ok [0; 0; 0; 1; 0; 0; 0; 0; 0; 0]%Z
  ∧ np.histogram [Q2Qc (1 # 4)] (np.BinsList default_bins)
    = Ok [0; 0; 1; 0; 0; 0; 0; 0; 0; 0]%Z
  ∧ histogram_distance [f64 (Q2Qc (3 # 10))] [Q2Qc (1 # 4)] np.BinsNone
    = Ok (Q2Qc 2).
Proof. repeat split; vm_compute; reflexivity. Qed.

(** ** [calc_downsample] *)

Lemma Qc_pos_nonzero (z : Qc) : 0 < z → z ≠ 0.
Proof. intros Hz ->. by apply (Qclt_not_eq 0 0). Qed.

Lemma Qc_div_le_iff (x y z : Qc) : 0 < z → x / z ≤ y ↔ x ≤ y * z.
Proof.
  intros Hz. pose proof (Qc_pos_nonzero z Hz) as Hnz. split; intros H.
  - rewrite <- (test_field x z Hnz). apply Qcmult_le_compat_r; [done|].
    by apply Qclt_le_weak.
  - apply Qcmult_lt_0_le_reg_r with z; [done|]. by rewrite test_field.
Qed.

Lemma Qc_le_div_iff (x y z : Qc) : 0 < z → y ≤ x / z ↔ y * z ≤ x.
Proof.
  intros Hz. pose proof (Qc_pos_nonzero z Hz) as Hnz. split; intros H.
  - rewrite <- (test_field x z Hnz). apply Qcmult_le_compat_r; [done|].
    by apply Qclt_le_weak.
  - apply Qcmult_lt_0_le_reg_r with z; [done|]. by rewrite test_field.
Qed.

Lemma Qc_div_lt_iff (x y z : Qc) : 0 < z → x / z < y ↔ x < y * z.
Proof.
  intros Hz. rewrite !Qclt_nge. by rewrite Qc_le_div_iff.
Qed.

Lemma Qc_of_Z_nonzero (n : Z) : n ≠ 0%Z → Qc_of_Z n ≠ 0.
Proof. intros Hn. rewrite <- Z2Qc_inj_0. by intros H%Z2Qc_inj. Qed.

(** The function divides the smaller of the two dimensions. *)
Lemma calc_downsample_min (w h target : Z) :
  calc_downsample w h target = (r ← truediv (Z.min w h) target; Ok (Some r)).
Proof.
  unfold calc_downsample. destruct (w >? h)%Z eqn:E.
  - by replace (Z.min w h) with h by lia.
  - replace (h >=? w)%Z with true by lia.
    by replace (Z.min w h) with w by lia.
Qed.

Section Ratio.

Local Open Scope Q_scope.

(** A quotient [q = M / T] of numbers from 1 to [2^32] and a number [r]
    within half a unit of its last place. *)
Lemma ratio_bounds (M T q r d : Q) :
  1 <= M -> 1 <= T -> T <= 4294967296 ->
  q * T == M ->
  0 <= d <= 1 # 166153499473114484112975882535043072 ->
  Qabs (r - q) <= Qabs q * (1 # 9007199254740992) + d ->
  0 < q /\ 0 < r
  /\ Qabs (r * T - M) <= M * (1 # 4503599627370496)
  /\ (T - 1) * r <= M /\ M < (T + 1) * r.
Proof.
  intros HM HT HT2 Hq Hd Herr.
  assert (Hq0 : 1 # 4294967296 <= q).
  { destruct (Qlt_le_dec q (1 # 4294967296)) as [Hlt|]; [|easy].
    assert (q * T < (1 # 4294967296) * T) by (apply Qmult_lt_compat_r; lra).
    lra. }
  rewrite (Qabs_pos q) in Herr by lra.
  apply Qabs_Qle_condition in Herr as [Hlo Hhi].
  assert (Hr0 : 0 < r) by lra.
  assert (H1 : (r - q) * T <= q * (1 # 4503599627370496) * T).
  { apply Qmult_le_compat_r; lra. }
  assert (H2 : - (q * (1 # 4503599627370496)) * T <= (r - q) * T).
  { apply Qmult_le_compat_r; lra. }
  assert (E1 : (r - q) * T == r * T - M) by (rewrite <- Hq; ring).
  assert (E2 : q * (1 # 4503599627370496) * T == M * (1 # 4503599627370496)).
  { rewrite <- Hq. ring. }
  assert (E3 : - (q * (1 # 4503599627370496)) * T == - (M * (1 # 4503599627370496))).
  { rewrite <- Hq. ring. }
  rewrite E1, E2 in H1. rewrite E1, E3 in H2.
  split; [lra|]. split; [easy|].
  split; [apply Qabs_Qle_condition; lra|].
  assert (Hr : M * (1 # 8589934592) <= r).
  { destruct (Qlt_le_dec r (M * (1 # 8589934592))) as [Hlt|]; [|easy].
    assert (r * T <= M * (1 # 8589934592) * T).
    { apply Qmult_le_compat_r; lra. }
    assert (M * (1 # 8589934592) * T <= M * (1 # 8589934592) * 4294967296).
    { apply Qmult_le_l; lra. }
    lra. }
  set (p := r * T) in *.
  assert (Ea : (T - 1) * r == p - r) by (unfold p; ring).
  assert (Eb : (T + 1) * r == p + r) by (unfold p; ring).
  rewrite Ea, Eb. clearbody p. split; lra.
Qed.

(** The floor of a number between two integers. *)
Lemma Qfloor_between (x : Q) (lo hi : Z) :
  inject_Z lo <= x -> x < inject_Z hi + 1 -> (lo <= Qfloor x <= hi)%Z.
Proof.
  intros Hlo Hhi. split.
  - rewrite <- (Qfloor_Z lo). by apply Qfloor_resp_le.
  - pose proof (Qfloor_le x) as Hf.
    assert (H : inject_Z (Qfloor x) < inject_Z (hi + 1)).
    { rewrite inject_Z_plus. change (inject_Z 1) with 1. lra. }
    rewrite <- Zlt_Qlt in H. lia.
Qed.

End Ratio.

(** Order goals on canonical rationals, taken to the plain rationals. *)
Ltac qc_abs :=
  unfold Qcle, Qclt in *;
  cbn [this Qcabs Qcplus Qcmult Qcminus Qcopp Q2Qc] in *;
  rewrite ?Qred_correct in *.

Ltac qc_real :=
  unfold Qcle, Qclt, Qc_of_Z in *;
  cbn [this Qcplus Qcmult Qcminus Qcopp Q2Qc] in *;
  rewrite ?Qred_correct in *; unfold inject_Z in *.

(** For dimensions and targets below [2^32] the quotient is rounded
    without overflow, and the rounded quotient times the target is the
    dimension, up to the rounding. *)
Lemma downsample_ratio (m t : Z) :
  (0 < m < 2 ^ 32)%Z → (0 < t < 2 ^ 32)%Z →
  overflows (Qc_frac m t) = false
  ∧ 0 < f64 (Qc_frac m t)
  ∧ Qcabs (f64 (Qc_frac m t) * Qc_of_Z t - Qc_of_Z m)
    ≤ Qc_of_Z m * Q2Qc (1 # 4503599627370496)
  ∧ (Qc_of_Z t - 1) * f64 (Qc_frac m t) ≤ Qc_of_Z m
  ∧ Qc_of_Z m < (Qc_of_Z t + 1) * f64 (Qc_frac m t).
Proof.
  intros Hm Ht.
  assert (HM1 : 1 ≤ Qc_of_Z m) by (rewrite <- Z2Qc_inj_1, <- Z2Qc_inj_le; lia).
  assert (HM2 : Qc_of_Z m ≤ Qc_of_Z 4294967296) by (rewrite <- Z2Qc_inj_le; lia).
  assert (HT1 : 1 ≤ Qc_of_Z t) by (rewrite <- Z2Qc_inj_1, <- Z2Qc_inj_le; lia).
  assert (HT2 : Qc_of_Z t ≤ Qc_of_Z 4294967296) by (rewrite <- Z2Qc_inj_le; lia).
  assert (HTz : Qc_of_Z t ≠ 0) by (apply Qc_of_Z_nonzero; lia).
  assert (Hq : Qc_frac m t * Qc_of_Z t = Qc_of_Z m).
  { unfold Qc_frac. by apply test_field. }
  pose proof (f64_error (Qc_frac m t)) as Herr.
  unfold overflows. rewrite Qc_leb_gt.
  set (M := Qc_of_Z m) in *. set (T := Qc_of_Z t) in *.
  set (q := Qc_frac m t) in *. set (r := f64 q) in *.
  set (big := Qc_of_Z 4294967296) in *.
  set (huge := Q2Qc (2 ^ 1024)%Q).
  set (d := Q2Qc (2 ^ (-1075))%Q) in *.
  set (u := Q2Qc (2 ^ (-53))%Q) in *.
  assert (Hbig : (this big == 4294967296)%Q) by (by vm_compute).
  assert (Hhuge : (8589934592 < this huge)%Q) by (by vm_compute).
  assert (Hu : (this u == 1 # 9007199254740992)%Q) by (by vm_compute).
  assert (Hd : (0 <= this d <= 1 # 166153499473114484112975882535043072)%Q).
  { split; by vm_compute. }
  assert (HqQ : (this q * this T == this M)%Q).
  { rewrite <- Hq. cbn [this Qcmult Q2Qc]. symmetry. apply Qred_correct. }
  clearbody M T q r big huge d u. clear Hq.
  qc_abs. rewrite Hu in Herr.
  destruct (ratio_bounds (this M) (this T) (this q) (this r) (this d))
    as (Hq0 & Hr0 & Hprod & Hlow & Hup); [lra|lra|lra|done|done|done|].
  assert (Hrle : (this r <= 8589934592)%Q).
  { apply Qabs_Qle_condition in Hprod as [_ Hp].
    assert ((this r * 1 <= this r * this T)%Q) by (apply Qmult_le_l; lra).
    lra. }
  rewrite (Qabs_pos (this r)) by lra.
  repeat split; try done; lra.
Qed.

(** The smaller dimension, floor-divided by the rounded ratio, lands on
    the target or one below it; a dimension of at least [k] times the
    smaller one lands at [k] times the target less one, or above. *)
Lemma int_floordiv_ratio (m t w k : Z) :
  (0 < m < 2 ^ 32)%Z → (0 < t < 2 ^ 32)%Z → (0 ≤ k)%Z → (k * m ≤ w)%Z →
  ∃ out, int_floordiv w (f64 (Qc_frac m t)) = Ok out
         ∧ ((t - 1) * k ≤ out)%Z ∧ (w = m → out ≤ t)%Z.
Proof.
  intros Hm Ht Hk Hw.
  destruct (downsample_ratio m t Hm Ht) as (_ & Hr0 & _ & Hlow & Hup).
  assert (HK : 0 ≤ Qc_of_Z k) by (by rewrite <- Z2Qc_inj_0, <- Z2Qc_inj_le).
  assert (HW : Qc_of_Z (k * m) ≤ Qc_of_Z w) by (by rewrite <- Z2Qc_inj_le).
  unfold int_floordiv.
  set (r := f64 (Qc_frac m t)) in *. clearbody r.
  destruct (decide (r = 0)) as [->|Hz]; [by apply (Qclt_not_eq 0 0) in Hr0|].
  eexists. split; [done|].
  assert (Hlo : Qc_of_Z ((t - 1) * k) ≤ Qc_of_Z w / r).
  { apply Qc_le_div_iff; [done|].
    apply Qcle_trans with (Qc_of_Z (k * m)); [|done].
    rewrite !Z2Qc_inj_mul, Z2Qc_inj_sub, Z2Qc_inj_1.
    replace ((Qc_of_Z t - 1) * Qc_of_Z k * r)
      with ((Qc_of_Z t - 1) * r * Qc_of_Z k) by ring.
    rewrite (Qcmult_comm (Qc_of_Z k)). by apply Qcmult_le_compat_r. }
  split.
  - rewrite <- (Qfloor_Z ((t - 1) * k)). apply Qfloor_resp_le. exact Hlo.
  - intros ->.
    assert (Hhi : Qc_of_Z m / r < Qc_of_Z (t + 1)).
    { apply Qc_div_lt_iff; [done|]. by rewrite Z2Qc_inj_add, Z2Qc_inj_1. }
    pose proof (Qfloor_le (Qc_of_Z m / r)%Qc) as Hf.
    assert (H : (inject_Z (Qfloor (Qc_of_Z m / r)%Qc) < inject_Z (t + 1))%Q).
    { eapply Qle_lt_trans; [exact Hf|exact Hhi]. }
    rewrite <- Zlt_Qlt in H. lia.
Qed.

(** The quotient of a dimension by the rounded ratio stays far below
    [2^53], where the floor division of floats is the floor of the
    quotient. *)
Lemma downsample_quotient_small (m t w : Z) :
  (0 < m < 2 ^ 24)%Z → (0 < t < 2 ^ 24)%Z → (0 < w < 2 ^ 24)%Z →
  Qc_of_Z w / f64 (Qc_frac m t) < Qc_of_Z (2 ^ 49).
Proof.
  intros Hm Ht Hw.
  destruct (downsample_ratio m t) as (_ & Hr0 & _ & _ & Hup); [lia|lia|].
  assert (HM1 : 1 ≤ Qc_of_Z m) by (rewrite <- Z2Qc_inj_1, <- Z2Qc_inj_le; lia).
  assert (HT : Qc_of_Z t + 1 ≤ Qc_of_Z 16777216).
  { rewrite <- Z2Qc_inj_1, <- Z2Qc_inj_add, <- Z2Qc_inj_le. lia. }
  assert (HW : Qc_of_Z w ≤ Qc_of_Z 16777216) by (rewrite <- Z2Qc_inj_le; lia).
  set (r := f64 (Qc_frac m t)) in *. clearbody r.
  apply Qc_div_lt_iff; [done|].
  assert (Hr : (Qc_of_Z t + 1) * r ≤ Qc_of_Z 16777216 * r).
  { apply Qcmult_le_compat_r; [done|by apply Qclt_le_weak]. }
  change (2 ^ 49)%Z with 562949953421312%Z.
  set (p := (Qc_of_Z t + 1) * r) in *. clearbody p.
  qc_real. lra.
Qed.

(** C9, amended.  For positive dimensions and a positive target, all
    below [2^24], the function returns the float nearest to the smaller
    dimension over the target.  Floor-dividing by that ratio, as [main]
    does (line 164), brings the smaller dimension approximately to the
    target: to the target or one below it.  The larger dimension is
    brought to the target less one times the whole number of times the
    smaller dimension fits into it, or above: near the target for a
    square image only. *)
Theorem calc_downsample_smaller_dimension (w h target : Z) :
  (0 < w < 2 ^ 24)%Z → (0 < h < 2 ^ 24)%Z → (0 < target < 2 ^ 24)%Z →
  ∃ ratio small large,
    calc_downsample w h target = Ok (Some ratio)
    ∧ ratio = f64 (Qc_frac (Z.min w h) target)
    ∧ 0 < ratio
    ∧ Qcabs (ratio * Qc_of_Z target - Qc_of_Z (Z.min w h))
      ≤ Qc_of_Z (Z.min w h) * Q2Qc (1 # 4503599627370496)
    ∧ Qc_of_Z (Z.max w h) / ratio < Qc_of_Z (2 ^ 49)
    ∧ int_floordiv (Z.min w h) ratio = Ok small
    ∧ int_floordiv (Z.max w h) ratio = Ok large
    ∧ (target - 1 ≤ small ≤ target)%Z
    ∧ ((target - 1) * (Z.max w h / Z.min w h) ≤ large)%Z.
Proof.
  intros Hw Hh Ht.
  assert (Hmin : (0 < Z.min w h < 2 ^ 24)%Z) by lia.
  assert (Hmax : (0 < Z.max w h < 2 ^ 24)%Z) by lia.
  assert (Hmin' : (0 < Z.min w h < 2 ^ 32)%Z) by lia.
  assert (Ht' : (0 < target < 2 ^ 32)%Z) by lia.
  destruct (downsample_ratio _ _ Hmin' Ht') as (Hov & Hr0 & Hprod & _).
  destruct (int_floordiv_ratio (Z.min w h) target (Z.min w h) 1)
    as (small & Hs & Hs1 & Hs2); [done|done|lia|lia|].
  destruct (int_floordiv_ratio (Z.min w h) target (Z.max w h)
              (Z.max w h / Z.min w h))
    as (large & Hl & Hl1 & _); [done|done| | |].
  { apply Z.div_pos; lia. }
  { rewrite Z.mul_comm. apply Z.mul_div_le. lia. }
  exists (f64 (Qc_frac (Z.min w h) target)), small, large.
  split; [|split; [done|split; [done|split; [done|split;
    [by apply downsample_quotient_small|split; [done|split; [done|]]]]]]].
  - rewrite calc_downsample_min. unfold truediv.
    replace (target =? 0)%Z with false by lia. by rewrite Hov.
  - split; [|done]. specialize (Hs2 eq_refl). lia.
Qed.

Lemma calc_downsample_smaller_dimension_witness :
  ∃ ratio small large,
    calc_downsample 512 512 400 = Ok (Some ratio)
    ∧ ratio = f64 (Qc_frac (Z.min 512 512) 400)
    ∧ 0 < ratio
    ∧ Qcabs (ratio * Qc_of_Z 400 - Qc_of_Z (Z.min 512 512))
      ≤ Qc_of_Z (Z.min 512 512) * Q2Qc (1 # 4503599627370496)
    ∧ Qc_of_Z (Z.max 512 512) / ratio < Qc_of_Z (2 ^ 49)
    ∧ int_floordiv (Z.min 512 512) ratio = Ok small
    ∧ int_floordiv (Z.max 512 512) ratio = Ok large
    ∧ (400 - 1 ≤ small ≤ 400)%Z
    ∧ ((400 - 1) * (Z.max 512 512 / Z.min 512 512) ≤ large)%Z.
Proof.
  apply (calc_downsample_smaller_dimension 512 512 400); lia.
Defined.

(** The target is missed by one in plain cases: an image of 512 by 512
    and the target 400 give the ratio 1.28, a float above 512/400, and
    512 floor-divided by it is 399. *)
Example calc_downsample_one_below :
  calc_downsample 512 512 400
  = Ok (Some (Q2Qc (5764607523034235 # 4503599627370496)))
  ∧ int_floordiv 512 (Q2Qc (5764607523034235 # 4503599627370496)) = Ok 399%Z
  ∧ calc_downsample 800 600 400 = Ok (Some (Q2Qc (3 # 2)))
  ∧ int_floordiv 600 (Q2Qc (3 # 2)) = Ok 400%Z
  ∧ int_floordiv 800 (Q2Qc (3 # 2)) = Ok 533%Z.
Proof.
  assert (H1 : overflows (Qc_frac 512 400) = false) by (by vm_compute).
  assert (H2 : f64 (Qc_frac 512 400)
               = Q2Qc (5764607523034235 # 4503599627370496)).
  { apply Qc_is_canon. by vm_compute. }
  assert (H3 : overflows (Qc_frac 600 400) = false) by (by vm_compute).
  assert (H4 : f64 (Qc_frac 600 400) = Q2Qc (3 # 2)).
  { apply Qc_is_canon. by vm_compute. }
  split; [|split; [by vm_compute|split; [|split; by vm_compute]]].
  - rewrite calc_downsample_min. unfold truediv.
    change (Z.min 512 512) with 512%Z. change (400 =? 0)%Z with false.
    cbv iota. by rewrite H1, H2.
  - rewrite calc_downsample_min. unfold truediv.
    change (Z.min 800 600) with 600%Z. change (400 =? 0)%Z with false.
    cbv iota. by rewrite H3, H4.
Qed.

(** C9, as stated, fails: for an image of 4000 by 400 and the target 400
    the ratio is 1, and the largest dimension stays at 4000, ten times the
    target, while the smallest one is at the target. *)
Lemma calc_downsample_largest_dimension_far :
  calc_downsample 4000 400 400 = Ok (Some 1)
  ∧ int_floordiv (Z.max 4000 400) 1 = Ok (10 * 400)%Z
  ∧ int_floordiv (Z.min 4000 400) 1 = Ok 400%Z.
Proof.
  assert (H1 : overflows (Qc_frac 400 400) = false) by (by vm_compute).
  assert (H2 : f64 (Qc_frac 400 400) = 1).
  { apply Qc_is_canon. by vm_compute. }
  split; [|split; by vm_compute].
  rewrite calc_downsample_min. unfold truediv.
  change (Z.min 4000 400) with 400%Z. change (400 =? 0)%Z with false.
  cbv iota. by rewrite H1, H2.
Qed.

(** The largest dimension can end at any multiple of the target. *)
Lemma calc_downsample_largest_dimension_multiple (k : Z) :
  (0 < k)%Z →
  calc_downsample (400 * k) 400 400 = Ok (Some 1)
  ∧ int_floordiv (Z.max (400 * k) 400) 1 = Ok (k * 400)%Z.
Proof.
  intros Hk.
  assert (H1 : overflows (Qc_frac 400 400) = false) by (by vm_compute).
  assert (H2 : f64 (Qc_frac 400 400) = 1).
  { apply Qc_is_canon. by vm_compute. }
  split.
  - rewrite calc_downsample_min. unfold truediv.
    replace (Z.min (400 * k) 400) with 400%Z by lia.
    change (400 =? 0)%Z with false. cbv iota. by rewrite H1, H2.
  - replace (Z.max (400 * k) 400) with (k * 400)%Z by lia.
    unfold int_floordiv. destruct (decide (1 = 0)) as [E|_]; [done|].
    f_equal. replace (Qc_of_Z (k * 400) / 1) with (Qc_of_Z (k * 400)).
    + apply Qfloor_Z.
    + unfold Qcdiv. by rewrite <- (Qcmult_1_r (/ 1)), Qcmult_inv_l, Qcmult_1_r.
Qed.

(** ** Formatting *)

Lemma digit_decimal (d : Z) :
  (0 ≤ d < 10)%Z →
  fmt.digit d ∈ ["0"; "1"; "2"; "3"; "4"; "5"; "6"; "7"; "8"; "9"]%char.
Proof.
  intros Hd.
  assert (H : (d = 0 ∨ d = 1 ∨ d = 2 ∨ d = 3 ∨ d = 4 ∨ d = 5 ∨ d = 6 ∨ d = 7
               ∨ d = 8 ∨ d = 9)%Z) by lia.
  clear Hd.
  repeat (destruct H as [H|H]; [rewrite H; vm_compute; repeat constructor|]).
  rewrite H. vm_compute. repeat constructor.
Qed.

(** [.2f] writes a sign, the integer part, a point and two decimal digits. *)
Lemma f2_two_decimals (x : Qc) :
  ∃ (sign int : string) (d1 d2 : ascii),
    fmt.f2 x = sign +:+ int +:+ String "." (String d1 (String d2 ""))
    ∧ d1 ∈ ["0"; "1"; "2"; "3"; "4"; "5"; "6"; "7"; "8"; "9"]%char
    ∧ d2 ∈ ["0"; "1"; "2"; "3"; "4"; "5"; "6"; "7"; "8"; "9"]%char.
Proof.
  unfold fmt.f2. set (n := fmt.round_half_even _).
  eexists _, _, _, _. split; [reflexivity|].
  split; apply digit_decimal.
  - pose proof (Z.mod_pos_bound n 100 ltac:(done)).
    split; [apply Z.div_pos; lia|apply Z.div_lt_upper_bound; lia].
  - apply Z.mod_pos_bound. done.
Qed.

Example f2_examples :
  fmt.f2 (Q2Qc (1 # 8)) = "0.12" ∧ fmt.f2 (Q2Qc (3 # 8)) = "0.38"
  ∧ fmt.f2 (Q2Qc (-1 # 1000)) = "-0.00" ∧ fmt.f2 (Qc_of_Z 10) = "10.00"
  ∧ fmt.f2 (Q2Qc (123456789 # 1000)) = "123456.79".
Proof. repeat split; by vm_compute. Qed.

Example format_examples :
  fmt.format "a {x:.2f} b" {["x" := 1]} = Ok "a 1.00 b"
  ∧ fmt.format "a {y:.2f} b" {["x" := 1]} = Raise (KeyError "y")
  ∧ fmt.format "a } b" {["x" := 1]}
    = Raise (ValueError "Single '}' encountered in format string").
Proof. repeat split; by vm_compute. Qed.

Lemma append_empty_r (s : string) : s +:+ "" = s.
Proof.
  induction s as [|c s IH]; [done|].
  cbv [String.append]. fold String.append. by rewrite IH.
Qed.

Lemma append_cons (c : ascii) (s t : string) : String c s +:+ t = String c (s +:+ t).
Proof. reflexivity. Qed.

Lemma append_snoc (acc : string) (c : ascii) (f : string) :
  (acc +:+ String c "") +:+ f = acc +:+ String c f.
Proof.
  induction acc as [|a acc IH]; [done|].
  rewrite !append_cons. by rewrite IH.
Qed.

Lemma format_from_plain (lit rest : string) (kw : gmap string Qc) :
  plain lit = true →
  fmt.format_from (lit +:+ rest) None kw
  = (s ← fmt.format_from rest None kw; Ok (lit +:+ s)).
Proof.
  induction lit as [|c lit IH]; intros Hp.
  - change ("" +:+ rest) with rest.
    destruct (fmt.format_from rest None kw); reflexivity.
  - cbn [plain] in Hp. apply andb_true_iff in Hp as [Hc Hp].
    apply andb_true_iff in Hc as [Ho Hc].
    apply negb_true_iff in Ho, Hc.
    rewrite append_cons. cbn [fmt.format_from]. rewrite Ho, Hc, (IH Hp).
    destruct (fmt.format_from rest None kw); reflexivity.
Qed.

Lemma format_from_inside (f rest acc : string) (kw : gmap string Qc) :
  no_char "}" f = true →
  fmt.format_from (f +:+ String "}" rest) (Some acc) kw
  = (v ← fmt.field (acc +:+ f) kw;
     s ← fmt.format_from rest None kw; Ok (v +:+ s)).
Proof.
  revert acc. induction f as [|c f IH]; intros acc Hn.
  - change ("" +:+ String "}" rest) with (String "}" rest).
    rewrite append_empty_r. reflexivity.
  - cbn [no_char] in Hn. apply andb_true_iff in Hn as [Hc Hn].
    apply negb_true_iff in Hc.
    rewrite append_cons. cbn [fmt.format_from]. rewrite Hc, (IH _ Hn).
    by rewrite append_snoc.
Qed.

Lemma format_from_field (f rest : string) (kw : gmap string Qc) :
  no_char "}" f = true →
  fmt.format_from (String "{" (f +:+ String "}" rest)) None kw
  = (v ← fmt.field f kw; s ← fmt.format_from rest None kw; Ok (v +:+ s)).
Proof.
  intros Hn. cbn [fmt.format_from].
  change (Ascii.eqb "{" "{") with true. cbv iota.
  by rewrite format_from_inside.
Qed.

Lemma split_colon_spec (name spec : string) :
  no_char ":" name = true →
  fmt.split_colon (name +:+ String ":" spec) = (name, Some spec).
Proof.
  induction name as [|c name IH]; intros Hn; [done|].
  cbn [no_char] in Hn. apply andb_true_iff in Hn as [Hc Hn].
  apply negb_true_iff in Hc.
  rewrite append_cons. cbn [fmt.split_colon]. by rewrite Hc, (IH Hn).
Qed.

Lemma field_2f (name : string) (kw : gmap string Qc) :
  no_char ":" name = true →
  fmt.field (name +:+ ":.2f") kw = (v ← getitem kw name; Ok (fmt.f2 v)).
Proof.
  intros Hn. unfold fmt.field, getitem. rewrite split_colon_spec by done.
  destruct (kw !! name); reflexivity.
Qed.

(** ** [cmd] *)

(** [cmd] reads the four values in the order of the template and puts
    their two-decimal forms between the literal parts. *)
Lemma cmd_getitem (st : gmap string Qc) :
  cmd st
  = (r ← getitem st "gamma_red";
     g ← getitem st "gamma_green";
     b ← getitem st "gamma_blue";
     c ← getitem st "contrast";
     Ok ("gamma r " +:+ fmt.f2 r +:+ ", gamma g " +:+ fmt.f2 g +:+ ", gamma b "
         +:+ fmt.f2 b +:+ ", sigmoidal rgb " +:+ fmt.f2 c +:+ " 0.5")).
Proof.
  change (cmd st) with
    (fmt.format_from
       ("gamma r " +:+ String "{" (("gamma_red" +:+ ":.2f") +:+ String "}"
        (", gamma g " +:+ String "{" (("gamma_green" +:+ ":.2f") +:+ String "}"
        (", gamma b " +:+ String "{" (("gamma_blue" +:+ ":.2f") +:+ String "}"
        (", sigmoidal rgb " +:+ String "{" (("contrast" +:+ ":.2f") +:+ String "}"
        (" 0.5" +:+ "")))))))))
       None st).
  rewrite format_from_plain, format_from_field, field_2f by reflexivity.
  destruct (getitem st "gamma_red") as [r|]; [|reflexivity].
  rewrite !bind_Ok.
  rewrite format_from_plain, format_from_field, field_2f by reflexivity.
  destruct (getitem st "gamma_green") as [g|]; [|reflexivity].
  rewrite !bind_Ok.
  rewrite format_from_plain, format_from_field, field_2f by reflexivity.
  destruct (getitem st "gamma_blue") as [b|]; [|reflexivity].
  rewrite !bind_Ok.
  rewrite format_from_plain, format_from_field, field_2f by reflexivity.
  destruct (getitem st "contrast") as [c|]; [|reflexivity].
  rewrite !bind_Ok.
  rewrite format_from_plain by reflexivity.
  cbn [fmt.format_from]. rewrite !bind_Ok. reflexivity.
Qed.

Lemma getitem_Some (st : gmap string Qc) (k : string) (v : Qc) :
  st !! k = Some v → getitem st k = Ok v.
Proof. unfold getitem. by intros ->. Qed.



(** ** [move] *)

Lemma keys_not_bias (k : string) : k ∈ keys → String.eqb k "bias" = false.
Proof.
  unfold keys. rewrite !elem_of_cons, elem_of_nil.
  intros [->|[->|[->|[->|[]]]]]; reflexivity.
Qed.

(** On the four keys the loop ends in its first iteration, with the key
    and the random source it was entered with. *)
Lemma move_loop_keys (fuel : nat) (k : string) (state : gmap string Qc) (g : rng) :
  k ∈ keys → move_loop keys (S fuel) k state g = Some (Ok (k, g)).
Proof. intros Hk. cbn [move_loop]. by rewrite keys_not_bias. Qed.

Lemma has_keys_lookup (state : gmap string Qc) (k : string) :
  has_keys state → k ∈ keys → is_Some (state !! k).
Proof. unfold has_keys. rewrite Forall_forall. auto. Qed.

Lemma choice_lookup {A} (xs : list A) (g : rng) (x : A) :
  xs !! (draw g (pos g) mod length xs)%nat = Some x →
  choice xs g = Ok (x, {| draw := draw g; pos := S (pos g) |}).
Proof. unfold choice. by intros ->. Qed.

(** The two multipliers, as the floats they are. *)
Lemma multipliers_floats :
  multipliers = [Q2Qc (8106479329266893 # 9007199254740992);
                 Q2Qc (2476979795053773 # 2251799813685248)].
Proof.
  assert (E1 : f64 (Q2Qc (9 # 10))
               = Q2Qc (8106479329266893 # 9007199254740992)).
  { apply Qc_is_canon. by vm_compute. }
  assert (E2 : f64 (Q2Qc (11 # 10))
               = Q2Qc (2476979795053773 # 2251799813685248)).
  { apply Qc_is_canon. by vm_compute. }
  unfold multipliers. by rewrite E1, E2.
Qed.

(** The product of a moderate value and a multiplier is finite. *)
Lemma fmul_finite (v m : Qc) :
  Qcabs v ≤ Q2Qc (2 ^ 1023)%Q → m ∈ multipliers → overflows (v * m) = false.
Proof.
  intros Hv Hm.
  assert (Hm' : Qcabs m ≤ Q2Qc (3 # 2)).
  { rewrite multipliers_floats in Hm.
    rewrite !elem_of_cons, elem_of_nil in Hm.
    destruct Hm as [->|[->|[]]]; by vm_compute. }
  unfold overflows. apply Qc_leb_gt.
  pose proof (f64_error (v * m)) as Herr.
  pose proof (Qcabs_triangle (f64 (v * m) - v * m) (v * m)) as Htri.
  replace (f64 (v * m) - v * m + v * m) with (f64 (v * m)) in Htri by ring.
  rewrite (Qcabs_Qcmult v m) in *.
  assert (Hprod : Qcabs v * Qcabs m ≤ Q2Qc (2 ^ 1023)%Q * Q2Qc (3 # 2)).
  { apply Qcle_trans with (Q2Qc (2 ^ 1023)%Q * Qcabs m).
    - apply Qcmult_le_compat_r; [done|apply Qcabs_nonneg].
    - rewrite !(Qcmult_comm (Q2Qc (2 ^ 1023)%Q)).
      apply Qcmult_le_compat_r; [done|by vm_compute]. }
  set (a := Qcabs v * Qcabs m) in *.
  set (e := Qcabs (f64 (v * m) - v * m)) in *.
  set (r := Qcabs (f64 (v * m))) in *.
  set (B := Q2Qc (2 ^ 1023)%Q) in *. set (H := Q2Qc (2 ^ 1024)%Q).
  set (u := Q2Qc (2 ^ (-53))%Q) in *. set (d := Q2Qc (2 ^ (-1075))%Q) in *.
  set (c := Q2Qc (3 # 2)) in *.
  assert (HH : (this H == 2 * this B)%Q) by (by vm_compute).
  assert (HB : (4 <= this B)%Q) by (by vm_compute).
  assert (Hu : (this u == 1 # 9007199254740992)%Q) by (by vm_compute).
  assert (Hd : (this d <= 1)%Q) by (by vm_compute).
  assert (Hc : (this c == 3 # 2)%Q) by (by vm_compute).
  clearbody a e r B H u d c. clear Hv Hm Hm'.
  qc_real. rewrite Hu in Herr. rewrite Hc in Hprod. lra.
Qed.

(** C4.  On a state with the four keys, whose values are floats of a
    magnitude of at most [2^1023], [move] returns for every fuel of at
    least one iteration: it draws twice, one key [k] of the four and one
    multiplier [m] of the floats 0.9 and 1.1, sets [k] to the product of
    its old value and [m], which is finite and rounded to the nearest
    float, and leaves every other key as it was.  The guard on [bias]
    does not draw again and does not change the key. *)
Theorem move_changes_one_key (state : gmap string Qc) (g : rng) (fuel : nat) :
  has_keys state → (1 ≤ fuel)%nat → map_Forall (fun _ v => moderate v) state →
  ∃ (k : string) (m v : Qc),
    keys !! (draw g (pos g) mod 4)%nat = Some k
    ∧ multipliers !! (draw g (S (pos g)) mod 2)%nat = Some m
    ∧ (m = f64 (Q2Qc (9 # 10)) ∨ m = f64 (Q2Qc (11 # 10)))
    ∧ (m = Q2Qc (8106479329266893 # 9007199254740992)
       ∨ m = Q2Qc (2476979795053773 # 2251799813685248))
    ∧ state !! k = Some v
    ∧ overflows (v * m) = false
    ∧ Qcabs (fmul v m - v * m)
      ≤ Qcabs (v * m) * Q2Qc (2 ^ (-53))%Q + Q2Qc (2 ^ (-1075))%Q
    ∧ move fuel state g
      = Some (Ok (<[k := fmul v m]> state,
                  {| draw := draw g; pos := S (S (pos g)) |}))
    ∧ (<[k := fmul v m]> state) !! k = Some (fmul v m)
    ∧ (∀ k', k' ≠ k → (<[k := fmul v m]> state) !! k' = state !! k')
    ∧ dom (<[k := fmul v m]> state) = dom state.
Proof.
  intros Hkeys Hfuel Hmod. destruct fuel as [|fuel]; [lia|].
  destruct (lookup_lt_is_Some_2 keys (draw g (pos g) mod 4)%nat) as [k Hk].
  { apply Nat.mod_upper_bound. done. }
  destruct (lookup_lt_is_Some_2 multipliers (draw g (S (pos g)) mod 2)%nat) as [m Hm].
  { apply Nat.mod_upper_bound. done. }
  assert (Hin : k ∈ keys) by (eapply list_elem_of_lookup_2; exact Hk).
  assert (Hmin : m ∈ multipliers) by (eapply list_elem_of_lookup_2; exact Hm).
  destruct (has_keys_lookup state k Hkeys Hin) as [v Hv].
  destruct (Hmod k v Hv) as [_ Hsize].
  exists k, m, v.
  split; [done|]. split; [done|]. split.
  { unfold multipliers in Hmin.
    rewrite !elem_of_cons, elem_of_nil in Hmin. tauto. }
  split.
  { rewrite multipliers_floats in Hmin.
    rewrite !elem_of_cons, elem_of_nil in Hmin. tauto. }
  split; [done|]. split; [by apply fmul_finite|].
  split; [apply f64_error|]. split.
  { unfold move, move_with.
    rewrite (choice_lookup keys g k Hk).
    rewrite (choice_lookup multipliers {| draw := draw g; pos := S (pos g) |} m Hm).
    cbn [draw pos].
    rewrite move_loop_keys by done.
    unfold getitem. by rewrite Hv. }
  split; [apply lookup_insert_eq|]. split.
  - intros k' Hne. by apply lookup_insert_ne.
  - apply dom_insert_lookup_L. by exists v.
Qed.

Lemma moderate_one : moderate 1.
Proof. split; [exact f64_one|by vm_compute]. Qed.

Lemma moderate_ten : moderate (Qc_of_Z 10).
Proof. split; [apply Qc_is_canon|]; by vm_compute. Qed.

Lemma default_params_moderate : map_Forall (fun _ v => moderate v) default_params.
Proof.
  unfold default_params.
  repeat (apply map_Forall_insert_2; [exact moderate_one || exact moderate_ten|]).
  apply map_Forall_empty.
Qed.

Lemma move_changes_one_key_witness :
  ∃ (k : string) (m v : Qc),
    move 1 default_params {| draw := fun i => (3 + i)%nat; pos := 0 |}
    = Some (Ok (<[k := fmul v m]> default_params,
                {| draw := fun i => (3 + i)%nat; pos := 2 |})).
Proof.
  destruct (move_changes_one_key default_params
              {| draw := fun i => (3 + i)%nat; pos := 0 |} 1)
    as (k & m & v & _ & _ & _ & _ & _ & _ & _ & H & _).
  - unfold has_keys, keys.
    repeat (apply Forall_cons_2; [by eexists|]). apply Forall_nil_2.
  - lia.
  - exact default_params_moderate.
  - exists k, m, v. exact H.
Defined.

(** The draws 3 and 4 choose [contrast] and 0.9: the int 10 becomes the
    float 9.0.  On [gamma_red] at 0.25 the product with the float 0.9 is
    the float 0.225 above 9/40, which [cmd] prints as 0.23. *)
Example move_example :
  move 1 default_params {| draw := fun i => (3 + i)%nat; pos := 0 |}
  = Some (Ok (<["contrast" := Qc_of_Z 9]> default_params,
              {| draw := fun i => (3 + i)%nat; pos := 2 |}))
  ∧ fmul (Q2Qc (1 # 4)) (f64 (Q2Qc (9 # 10)))
    = Q2Qc (8106479329266893 # 36028797018963968)
  ∧ fmt.f2 (fmul (Q2Qc (1 # 4)) (f64 (Q2Qc (9 # 10)))) = "0.23"
  ∧ fmt.f2 (Q2Qc (1 # 4) * Q2Qc (9 # 10)) = "0.22".
Proof.
  split; [|split; [apply Qc_is_canon; by vm_compute|split; by vm_compute]].
  unfold move, move_with.
  rewrite (choice_lookup keys {| draw := fun i => (3 + i)%nat; pos := 0 |}
             "contrast" eq_refl).
  cbn [draw pos].
  rewrite (choice_lookup multipliers {| draw := fun i => (3 + i)%nat; pos := 1 |}
             (f64 (Q2Qc (9 # 10))) eq_refl).
  cbn [draw pos].
  rewrite move_loop_keys by (unfold keys; set_solver).
  change (getitem default_params "contrast") with (Ok (Qc_of_Z 10)).
  cbv iota zeta. do 4 f_equal.
  apply Qc_is_canon. by vm_compute.
Qed.

(** ** The store *)

Lemma M_bind_inv {A B} (m : M A) (f : A → M B)
    (σ σ' : gmap nat (list (list Qc))) (r : res B) :
  (m ≫= f) σ = (σ', r) →
  (∃ σ1 a, m σ = (σ1, Ok a) ∧ f a σ1 = (σ', r))
  ∨ (∃ e, m σ = (σ', Raise e) ∧ r = Raise e).
Proof.
  unfold mbind, M_bind. destruct (m σ) as [σ1 [a|e]]; intros H.
  - left. by exists σ1, a.
  - right. exists e. by inversion H.
Qed.

Lemma M_bind_Ok {A B} (m : M A) (f : A → M B)
    (σ σ1 : gmap nat (list (list Qc))) (a : A) :
  m σ = (σ1, Ok a) → (m ≫= f) σ = f a σ1.
Proof. unfold mbind, M_bind. by intros ->. Qed.

Lemma M_bind_Raise {A B} (m : M A) (f : A → M B)
    (σ σ1 : gmap nat (list (list Qc))) (e : exn) :
  m σ = (σ1, Raise e) → (m ≫= f) σ = (σ1, Raise e).
Proof. unfold mbind, M_bind. by intros ->. Qed.

Lemma fresh_unallocated (σ : gmap nat (list (list Qc))) : fresh (dom σ) ∉ dom σ.
Proof. apply is_fresh. Qed.

Lemma ndarray_copy_Some (l : nat) (σ : gmap nat (list (list Qc))) (a : list (list Qc)) :
  σ !! l = Some a →
  ndarray_copy l σ = (<[fresh (dom σ) := a]> σ, Ok (fresh (dom σ))).
Proof. unfold ndarray_copy. by intros ->. Qed.

Lemma insert_fresh_lookup (σ : gmap nat (list (list Qc))) (a : list (list Qc)) (l : nat) :
  l ∈ dom σ → (<[fresh (dom σ) := a]> σ) !! l = σ !! l.
Proof.
  intros Hl. apply lookup_insert_ne. intros <-. by apply (fresh_unallocated σ).
Qed.

(** ** [__init__] *)

(** [validate] never answers with a true value: a state with the four
    keys gets [None]. *)
Lemma validate_not_truthy (st : gmap string Qc) : pyval_truthy (validate st) = false.
Proof.
  unfold validate. induction keys as [|k ks IH]; [done|].
  simpl. by case_bool_decide.
Qed.

Lemma validate_full_state : validate default_params = PyNone.
Proof. by vm_compute. Qed.

(** C1, on the code.  With the base class of [simanneal], which has no
    [_validate], constructing the estimator with a supplied non-empty state
    raises [AttributeError], whether or not the state has the four keys: a
    state with a missing key gets no [ValueError], and a state with the four
    keys does not construct. *)
Theorem init_supplied_state_raises (σ : gmap nat (list (list Qc)))
    (source reference : nat) (a b : list (list Qc)) (st : gmap string Qc) :
  σ !! source = Some a → σ !! reference = Some b → st ≠ ∅ →
  ∃ σ', __init__ simanneal_validate source reference (Some st) σ
        = (σ', Raise (AttributeError "_validate")).
Proof.
  intros Ha Hb Hst. unfold __init__.
  rewrite (M_bind_Ok _ _ _ _ _ (ndarray_copy_Some source σ a Ha)).
  assert (Hb' : (<[fresh (dom σ) := a]> σ) !! reference = Some b).
  { rewrite insert_fresh_lookup; [done|]. apply elem_of_dom. by exists b. }
  rewrite (M_bind_Ok _ _ _ _ _ (ndarray_copy_Some reference _ b Hb')).
  eexists. apply M_bind_Raise. unfold lift, not_state.
  rewrite bool_decide_eq_false_2 by done. reflexivity.
Qed.

Lemma init_supplied_state_raises_witness :
  ∃ σ', __init__ simanneal_validate 0 1 (Some default_params) example_store
        = (σ', Raise (AttributeError "_validate")).
Proof.
  apply (init_supplied_state_raises example_store 0 1 example_source example_reference).
  - reflexivity.
  - reflexivity.
  - intros H. apply (f_equal (fun m : gmap string Qc => m !! "contrast")) in H.
    by vm_compute in H.
Defined.

(** ** [energy] and the buffers of the estimator *)

Lemma keeps_dom (D : gset nat) (σ σ' : gmap nat (list (list Qc))) :
  D ⊆ dom σ → (∀ l, l ∈ D → σ' !! l = σ !! l) → D ⊆ dom σ'.
Proof.
  intros HD Heq l Hl. apply elem_of_dom. rewrite (Heq l Hl).
  apply elem_of_dom. by apply HD.
Qed.

Lemma keeps_bind {A B} (D : gset nat) (m : M A) (f : A → M B)
    (Q : A → Prop) (R : B → Prop) :
  keeps D m Q → (∀ a, Q a → keeps D (f a) R) → keeps D (m ≫= f) R.
Proof.
  intros Hm Hf σ σ' r Hrun HD.
  apply M_bind_inv in Hrun as [(σ1 & a & Hrun1 & Hrun2)|(e & Hrun1 & ->)].
  - destruct (Hm σ σ1 (Ok a) Hrun1 HD) as [Heq1 HQ].
    destruct (Hf a (HQ a eq_refl) σ1 σ' r Hrun2 (keeps_dom D σ σ1 HD Heq1))
      as [Heq2 HR].
    split; [|done]. intros l Hl. by rewrite (Heq2 l Hl), (Heq1 l Hl).
  - destruct (Hm σ σ' (Raise e) Hrun1 HD) as [Heq1 _]. by split.
Qed.

Lemma keeps_ret {A} (D : gset nat) (a : A) (Q : A → Prop) : Q a → keeps D (mret a) Q.
Proof. intros HQ σ σ' r [= <- <-] _. split; [done|]. by intros ? [= <-]. Qed.

Lemma keeps_lift {A} (D : gset nat) (r : res A) : keeps D (lift r) (fun a => r = Ok a).
Proof. intros σ σ' r' [= <- <-] _. by split. Qed.

Lemma keeps_channel (D : gset nat) (l i : nat) : keeps D (channel l i) (fun _ => True).
Proof.
  intros σ σ' r Hrun _. unfold channel in Hrun.
  repeat case_match; injection Hrun as <- <-; by split.
Qed.

Lemma keeps_copy (D : gset nat) (l : nat) : keeps D (ndarray_copy l) (fun l' => l' ∉ D).
Proof.
  intros σ σ' r Hrun HD. unfold ndarray_copy in Hrun.
  destruct (σ !! l) as [a|]; injection Hrun as <- <-.
  - split.
    + intros l0 Hl0. apply insert_fresh_lookup. by apply HD.
    + intros l' [= <-] Hin. apply (fresh_unallocated σ). by apply HD.
  - by split.
Qed.

Lemma keeps_confined (D : gset nat) (f : nat → M nat) (arr : nat) :
  confined f → arr ∉ D → keeps D (f arr) (fun l' => l' ∉ D).
Proof.
  intros Hf Harr σ σ' r Hrun HD.
  destruct (Hf arr σ σ' r Hrun) as [Hframe Hres]. split.
  - intros l Hl. apply Hframe; [by intros ->|by apply HD].
  - intros l' -> Hin. destruct (Hres l' eq_refl) as [->|Hnew]; [done|].
    apply Hnew. by apply HD.
Qed.

Lemma keeps_apply_ops (D : gset nat) (funcs : list (nat → M nat)) (arr : nat) :
  Forall confined funcs → arr ∉ D →
  keeps D (apply_ops funcs arr) (fun l' => l' ∉ D).
Proof.
  intros Hfs. revert arr. induction Hfs as [|f funcs Hf _ IH]; intros arr Harr.
  - by apply keeps_ret.
  - cbn [apply_ops]. eapply keeps_bind; [by apply keeps_confined|].
    intros arr' Harr'. by apply IH.
Qed.

Lemma keeps_scores_of (D : gset nat) (self : ColorEstimator) (arr : nat)
    (range : list nat) :
  keeps D (scores_of self arr range) (fun _ => True).
Proof.
  induction range as [|i range IH]; [by apply keeps_ret|].
  cbn [scores_of].
  eapply keeps_bind; [apply keeps_channel|]. intros r _.
  eapply keeps_bind; [apply keeps_channel|]. intros a _.
  eapply keeps_bind; [apply keeps_lift|]. intros s _.
  eapply keeps_bind; [apply IH|]. intros scores _.
  by apply keeps_ret.
Qed.

(** C8.  When the functions of the collaborator are confined to the array
    they are given, [energy] leaves every array that existed before the
    call as it was, among them the source and the reference buffer of the
    estimator, whether it returns or raises. *)
Theorem energy_preserves_buffers
    (parse_operations : string → res (list (nat → M nat)))
    (self : ColorEstimator) (σ σ' : gmap nat (list (list Qc))) (r : res Qc) :
  (∀ d funcs, parse_operations d = Ok funcs → Forall confined funcs) →
  src self ∈ dom σ → ref self ∈ dom σ →
  energy parse_operations self σ = (σ', r) →
  σ' !! src self = σ !! src self
  ∧ σ' !! ref self = σ !! ref self
  ∧ ∀ l, l ∈ dom σ → σ' !! l = σ !! l.
Proof.
  intros Hops Hsrc Href Hrun.
  assert (Hkeeps : keeps (dom σ) (energy parse_operations self) (fun _ => True)).
  { unfold energy.
    eapply keeps_bind; [apply keeps_copy|]. intros arr Harr.
    eapply keeps_bind; [apply keeps_lift|]. intros ops _.
    eapply keeps_bind; [apply keeps_lift|]. intros funcs Hparse.
    eapply keeps_bind;
      [apply keeps_apply_ops; [exact (Hops ops funcs Hparse)|exact Harr]|].
    intros arr' _.
    eapply keeps_bind; [apply keeps_scores_of|]. intros scores _.
    by apply keeps_ret. }
  destruct (Hkeeps σ σ' r Hrun) as [Heq _]; [done|].
  split; [by apply Heq|]. split; [by apply Heq|]. exact Heq.
Qed.

Lemma op_inplace_confined (g : list (list Qc) → list (list Qc)) : confined (op_inplace g).
Proof.
  intros l σ σ' r Hrun. unfold op_inplace in Hrun.
  destruct (σ !! l) as [a|]; injection Hrun as <- <-.
  - split; [|by intros l' [= <-]; left].
    intros l0 Hne _. by apply lookup_insert_ne.
  - by split.
Qed.

Lemma op_copy_confined (g : list (list Qc) → list (list Qc)) : confined (op_copy g).
Proof.
  intros l σ σ' r Hrun. unfold op_copy in Hrun.
  destruct (σ !! l) as [a|]; injection Hrun as <- <-.
  - split.
    + intros l0 _ Hl0. by apply insert_fresh_lookup.
    + intros l' [= <-]. right. apply fresh_unallocated.
  - by split.
Qed.

Lemma op_inplace_implements (g : list (list Qc) → list (list Qc)) :
  implements (op_inplace g) g.
Proof.
  split; [apply op_inplace_confined|].
  intros l σ a Ha. exists (<[l := g a]> σ), l. unfold op_inplace. rewrite Ha.
  split; [done|apply lookup_insert_eq].
Qed.

Lemma op_copy_implements (g : list (list Qc) → list (list Qc)) :
  implements (op_copy g) g.
Proof.
  split; [apply op_copy_confined|].
  intros l σ a Ha. exists (<[fresh (dom σ) := g a]> σ), (fresh (dom σ)).
  unfold op_copy. rewrite Ha. split; [done|apply lookup_insert_eq].
Qed.

Lemma example_parse_confined (d : string) (funcs : list (nat → M nat)) :
  example_parse d = Ok funcs → Forall confined funcs.
Proof.
  intros [= <-].
  apply Forall_cons_2; [apply op_inplace_confined|].
  apply Forall_cons_2; [apply op_copy_confined|]. apply Forall_nil_2.
Qed.

Lemma example_store_allocated :
  example_store !! 0%nat = Some example_source
  ∧ example_store !! 1%nat = Some example_reference.
Proof. split; reflexivity. Qed.

Lemma energy_preserves_buffers_witness :
  (energy example_parse example_estimator example_store).1 !! 0%nat
  = example_store !! 0%nat
  ∧ (energy example_parse example_estimator example_store).1 !! 1%nat
    = example_store !! 1%nat.
Proof.
  destruct (energy_preserves_buffers example_parse example_estimator
              example_store
              (energy example_parse example_estimator example_store).1
              (energy example_parse example_estimator example_store).2)
    as (H0 & H1 & _).
  - exact example_parse_confined.
  - apply elem_of_dom. eexists. exact (proj1 example_store_allocated).
  - apply elem_of_dom. eexists. exact (proj2 example_store_allocated).
  - apply surjective_pairing.
  - split; [exact H0|exact H1].
Defined.

(** ** The value of [energy] *)

Lemma channel_Some (l i : nat) (σ : gmap nat (list (list Qc))) (img : list (list Qc)) :
  σ !! l = Some img → channel l i σ = (σ, channel_of img i).
Proof.
  intros Hl. unfold channel, channel_of. rewrite Hl.
  by destruct (img !! i).
Qed.

Lemma scores_of_distances (self : ColorEstimator) (arr : nat) (range : list nat)
    (σ : gmap nat (list (list Qc))) (ref_img out : list (list Qc)) :
  σ !! ref self = Some ref_img → σ !! arr = Some out →
  scores_of self arr range σ = (σ, distances ref_img out range).
Proof.
  intros Href Harr. induction range as [|i range IH]; [done|].
  cbn [scores_of distances]. unfold channel_distance.
  pose proof (channel_Some (ref self) i σ ref_img Href) as Hr.
  pose proof (channel_Some arr i σ out Harr) as Ha.
  destruct (channel_of ref_img i) as [r|e];
    [|rewrite !bind_Raise; by apply M_bind_Raise].
  rewrite (M_bind_Ok _ _ _ _ _ Hr), !bind_Ok.
  destruct (channel_of out i) as [a|e];
    [|rewrite !bind_Raise; by apply M_bind_Raise].
  rewrite (M_bind_Ok _ _ _ _ _ Ha), !bind_Ok.
  destruct (histogram_distance r a np.BinsNone) as [s|e].
  - rewrite (M_bind_Ok _ _ σ σ s) by done. rewrite bind_Ok.
    destruct (distances ref_img out range) as [scores|e].
    + by rewrite (M_bind_Ok _ _ _ _ _ IH), bind_Ok.
    + rewrite bind_Raise. by apply M_bind_Raise.
  - rewrite bind_Raise. by apply M_bind_Raise.
Qed.

Lemma apply_ops_implements (funcs : list (nat → M nat))
    (gs : list (list (list Qc) → list (list Qc))) :
  Forall2 implements funcs gs →
  ∀ (D : gset nat) (arr : nat) (σ : gmap nat (list (list Qc))) (a : list (list Qc)),
    σ !! arr = Some a → arr ∉ D → D ⊆ dom σ →
    ∃ σ' arr',
      apply_ops funcs arr σ = (σ', Ok arr')
      ∧ σ' !! arr' = Some (transformed gs a)
      ∧ (∀ l, l ∈ D → σ' !! l = σ !! l)
      ∧ arr' ∉ D.
Proof.
  induction 1 as [|f g funcs gs [Hconf Himpl] _ IH]; intros D arr σ a Ha Harr HD.
  - by exists σ, arr.
  - destruct (Himpl arr σ a Ha) as (σ1 & arr1 & Hrun & Hout).
    destruct (keeps_confined D f arr Hconf Harr σ σ1 (Ok arr1) Hrun HD)
      as [Heq1 Hnew].
    destruct (IH D arr1 σ1 (g a) Hout (Hnew arr1 eq_refl) (keeps_dom D σ σ1 HD Heq1))
      as (σ' & arr' & Hrun' & Hout' & Heq' & Harr').
    exists σ', arr'. cbn [apply_ops].
    rewrite (M_bind_Ok _ _ _ _ _ Hrun). split; [done|]. split; [done|].
    split; [|done]. intros l Hl. by rewrite (Heq' l Hl), (Heq1 l Hl).
Qed.

Lemma distances_three (ref_img out : list (list Qc)) :
  (scores ← distances ref_img out (seq 0 3); Ok (py_sum scores * Qc_of_Z 100))
  = (s0 ← channel_distance ref_img out 0;
     s1 ← channel_distance ref_img out 1;
     s2 ← channel_distance ref_img out 2;
     Ok ((s0 + s1 + s2) * Qc_of_Z 100)).
Proof.
  cbn [seq distances].
  destruct (channel_distance ref_img out 0) as [s0|]; [|reflexivity].
  rewrite !bind_Ok.
  destruct (channel_distance ref_img out 1) as [s1|]; [|reflexivity].
  rewrite !bind_Ok.
  destruct (channel_distance ref_img out 2) as [s2|]; [|reflexivity].
  rewrite !bind_Ok. unfold py_sum. cbn [fold_left].
  by rewrite Qcplus_0_l.
Qed.

Lemma has_keys_cmd (st : gmap string Qc) : has_keys st → ∃ d, cmd st = Ok d.
Proof.
  intros Hk.
  destruct (has_keys_lookup st "gamma_red" Hk) as [r Hr]; [unfold keys; set_solver|].
  destruct (has_keys_lookup st "gamma_green" Hk) as [g Hg]; [unfold keys; set_solver|].
  destruct (has_keys_lookup st "gamma_blue" Hk) as [b Hb]; [unfold keys; set_solver|].
  destruct (has_keys_lookup st "contrast" Hk) as [c Hc]; [unfold keys; set_solver|].
  rewrite cmd_getitem.
  rewrite (getitem_Some _ _ _ Hr), (getitem_Some _ _ _ Hg),
    (getitem_Some _ _ _ Hb), (getitem_Some _ _ _ Hc), !bind_Ok.
  by eexists.
Qed.

(** C2.  For a state with the four keys, when the functions parsed from the
    descriptor implement the transformations [gs], [energy] is 100 times
    the sum, over the channels 0, 1 and 2, of the histogram distance
    between the channel of the reference buffer and the channel of the
    source image transformed by [gs] in sequence; an error of a channel is
    the error of [energy].  The two buffers hold what they held. *)
Theorem energy_sum_of_distances
    (parse_operations : string → res (list (nat → M nat)))
    (self : ColorEstimator) (σ : gmap nat (list (list Qc)))
    (funcs : list (nat → M nat)) (gs : list (list (list Qc) → list (list Qc)))
    (src_img ref_img : list (list Qc)) :
  has_keys (state self) →
  (∀ d, cmd (state self) = Ok d → parse_operations d = Ok funcs) →
  Forall2 implements funcs gs →
  σ !! src self = Some src_img → σ !! ref self = Some ref_img →
  let out := transformed gs src_img in
  ∃ σ',
    energy parse_operations self σ
    = (σ', s0 ← channel_distance ref_img out 0;
           s1 ← channel_distance ref_img out 1;
           s2 ← channel_distance ref_img out 2;
           Ok ((s0 + s1 + s2) * Qc_of_Z 100))
    ∧ σ' !! src self = Some src_img
    ∧ σ' !! ref self = Some ref_img.
Proof.
  intros Hkeys Hparse Himpl Hsrc Href out.
  destruct (has_keys_cmd (state self) Hkeys) as [d Hd].
  pose proof (Hparse d Hd) as Hfuncs.
  set (σ1 := <[fresh (dom σ) := src_img]> σ).
  assert (HD : dom σ ⊆ dom σ1).
  { unfold σ1. rewrite dom_insert_L. set_solver. }
  destruct (apply_ops_implements funcs gs Himpl (dom σ) (fresh (dom σ)) σ1 src_img)
    as (σ' & arr' & Hrun & Hout & Heq & Harr'); [apply lookup_insert_eq|apply fresh_unallocated|done|].
  assert (Hkeep : ∀ l, l ∈ dom σ → σ' !! l = σ !! l).
  { intros l Hl. rewrite (Heq l Hl). by apply insert_fresh_lookup. }
  assert (Hsrc' : σ' !! src self = Some src_img).
  { rewrite Hkeep; [done|]. apply elem_of_dom. by eexists. }
  assert (Href' : σ' !! ref self = Some ref_img).
  { rewrite Hkeep; [done|]. apply elem_of_dom. by eexists. }
  exists σ'. split; [|done].
  unfold energy.
  rewrite (M_bind_Ok _ _ _ _ _ (ndarray_copy_Some (src self) σ src_img Hsrc)).
  fold σ1. rewrite Hd. rewrite (M_bind_Ok _ _ σ1 σ1 d) by done.
  rewrite Hfuncs. rewrite (M_bind_Ok _ _ σ1 σ1 funcs) by done.
  rewrite (M_bind_Ok _ _ _ _ _ Hrun).
  rewrite <- distances_three.
  pose proof (scores_of_distances self arr' (seq 0 3) σ' ref_img out Href' Hout) as Hs.
  destruct (distances ref_img out (seq 0 3)) as [scores|e].
  - by rewrite (M_bind_Ok _ _ _ _ _ Hs), bind_Ok.
  - rewrite bind_Raise. by apply M_bind_Raise.
Qed.

Lemma energy_sum_of_distances_witness :
  ∃ σ',
    energy example_parse example_estimator example_store
    = (σ', s0 ← channel_distance example_reference
                   (transformed [halve; halve] example_source) 0;
           s1 ← channel_distance example_reference
                   (transformed [halve; halve] example_source) 1;
           s2 ← channel_distance example_reference
                   (transformed [halve; halve] example_source) 2;
           Ok ((s0 + s1 + s2) * Qc_of_Z 100))
    ∧ σ' !! 0%nat = Some example_source
    ∧ σ' !! 1%nat = Some example_reference.
Proof.
  apply (energy_sum_of_distances example_parse example_estimator example_store
           [op_inplace halve; op_copy halve] [halve; halve]
           example_source example_reference).
  - unfold has_keys, keys.
    repeat (apply Forall_cons_2; [by eexists|]). apply Forall_nil_2.
  - intros d _. reflexivity.
  - apply Forall2_cons_2; [apply op_inplace_implements|].
    apply Forall2_cons_2; [apply op_copy_implements|]. apply Forall2_nil_2.
  - exact (proj1 example_store_allocated).
  - exact (proj2 example_store_allocated).
Defined.

(** On the example the three distances are 3/2, 2 and 2. *)
Example energy_example :
  match (energy example_parse example_estimator example_store).2 with
  | Ok e => e = Qc_of_Z 550
  | Raise _ => False
  end.
Proof. vm_compute. apply Qc_is_canon. reflexivity. Qed.

(** Had the base class a [_validate] that answers as [validate] does, every
    supplied state would be refused, the states with the four keys
    included. *)
Lemma init_with_validate_refuses (σ : gmap nat (list (list Qc)))
    (source reference : nat) (a b : list (list Qc)) (st : gmap string Qc) :
  σ !! source = Some a → σ !! reference = Some b → st ≠ ∅ →
  ∃ σ', __init__ (Some (fun st => Ok (pyval_truthy (validate st))))
          source reference (Some st) σ
        = (σ', Raise (ValueError "invalid state")).
Proof.
  intros Ha Hb Hst. unfold __init__.
  rewrite (M_bind_Ok _ _ _ _ _ (ndarray_copy_Some source σ a Ha)).
  assert (Hb' : (<[fresh (dom σ) := a]> σ) !! reference = Some b).
  { rewrite insert_fresh_lookup; [done|]. apply elem_of_dom. by exists b. }
  rewrite (M_bind_Ok _ _ _ _ _ (ndarray_copy_Some reference _ b Hb')).
  eexists. apply M_bind_Raise. unfold lift, not_state, call_validate.
  rewrite bool_decide_eq_false_2 by done.
  cbn [default]. by rewrite bind_Ok, validate_not_truthy.
Qed.

(** Without a supplied state, and with a supplied empty one, the default
    parameters are taken. *)
Lemma init_default_params (base : option (gmap string Qc → res bool))
    (σ : gmap nat (list (list Qc))) (source reference : nat)
    (a b : list (list Qc)) (st : option (gmap string Qc)) :
  σ !! source = Some a → σ !! reference = Some b →
  (st = None) ∨ (st = Some ∅) →
  ∃ σ' self, __init__ base source reference st σ = (σ', Ok self)
    ∧ state self = default_params
    ∧ σ' !! src self = Some a ∧ σ' !! ref self = Some b
    ∧ (src self ∉ dom σ) ∧ (ref self ∉ dom σ) ∧ src self ≠ ref self
    ∧ ∀ l, l ∈ dom σ → σ' !! l = σ !! l.
Proof.
  intros Ha Hb Hsup. unfold __init__.
  rewrite (M_bind_Ok _ _ _ _ _ (ndarray_copy_Some source σ a Ha)).
  set (l1 := fresh (dom σ)). set (σ1 := <[l1 := a]> σ).
  assert (Hl1 : l1 ∉ dom σ) by apply fresh_unallocated.
  assert (Hb' : σ1 !! reference = Some b).
  { unfold σ1, l1. rewrite insert_fresh_lookup; [done|]. apply elem_of_dom. by exists b. }
  rewrite (M_bind_Ok _ _ _ _ _ (ndarray_copy_Some reference _ b Hb')).
  set (l2 := fresh (dom σ1)). set (σ2 := <[l2 := b]> σ1).
  assert (Hl2 : l2 ∉ dom σ1) by apply fresh_unallocated.
  assert (Hne : l1 ≠ l2).
  { intros Heq. apply Hl2. rewrite <- Heq. unfold σ1. rewrite dom_insert_L.
    by apply elem_of_union_l, elem_of_singleton. }
  assert (Hn : not_state st = true).
  { destruct Hsup as [Hsup|Hsup]; rewrite Hsup; [done|].
    cbn [not_state]. by apply bool_decide_eq_true_2. }
  rewrite Hn. rewrite (M_bind_Ok _ _ σ2 σ2 default_params) by done.
  eexists. eexists. split; [reflexivity|]. cbn [state src ref].
  split; [done|]. split.
  { unfold σ2. rewrite lookup_insert_ne by done. apply lookup_insert_eq. }
  split; [apply lookup_insert_eq|]. split; [done|]. split.
  { intros Hin. apply Hl2. unfold σ1. rewrite dom_insert_L.
    by apply elem_of_union_r. }
  split; [done|].
  intros l Hl. unfold σ2, σ1.
  rewrite !lookup_insert_ne; [done|..]; intros <-.
  - done.
  - apply Hl2. unfold σ1. rewrite dom_insert_L. by apply elem_of_union_r.
Qed.

(** ** Examples *)

Example histogram_examples :
  np.histogram [0; f64 (Q2Qc (1 # 20)); f64 (Q2Qc (1 # 10)); f64 (Q2Qc (9 # 10)); 1]
    (np.BinsList default_bins)
  = Ok [2; 1; 0; 0; 0; 0; 0; 0; 0; 2]%Z
  ∧ np.histogram [Q2Qc (-1 # 2); 0; Qc_of_Z 2] (np.BinsList default_bins)
    = Ok [1; 0; 0; 0; 0; 0; 0; 0; 0; 0]%Z
  ∧ np.histogram [0; 1; 1] (np.BinsInt 2) = Ok [1; 2]%Z
  ∧ np.histogram [0; 1] (np.BinsList [1; 0])
    = Raise (ValueError "`bins` must increase monotonically, when an array").
Proof. repeat split; by vm_compute. Qed.

(** With a key [bias] among the keys, the guard draws the key again. *)
Example move_with_bias :
  match move_with ["bias"; "contrast"] 3 (<["bias" := 1]> default_params)
          {| draw := fun i => match i with 3%nat => 1%nat | _ => 0%nat end; pos := 0 |}
  with
  | Some (Ok (st, g')) =>
      st !! "bias" = Some 1 ∧ st !! "contrast" = Some (Qc_of_Z 9) ∧ pos g' = 4%nat
  | _ => False
  end.
Proof.
  vm_compute. split; [|split]; try reflexivity.
  f_equal. apply Qc_is_canon. reflexivity.
Qed.

Example validate_examples :
  validate default_params = PyNone
  ∧ validate (delete "contrast" default_params) = PyBool false.
Proof. split; by vm_compute. Qed.

(** ** The two histograms have the same number of bins

    so that [hist1 - hist2] never broadcasts and [sqerr] drops nothing. *)

Lemma length_diff (l : list Z) : length (np.diff l) = (length l - 1)%nat.
Proof.
  induction l as [|x l IH]; [done|].
  destruct l as [|y l]; [done|].
  change (np.diff (x :: y :: l)) with ((y - x)%Z :: np.diff (y :: l)).
  cbn [length] in *. rewrite IH. lia.
Qed.

Lemma length_removelast_cons {A} (x : A) (l : list A) :
  length (removelast (x :: l)) = length l.
Proof.
  revert x. induction l as [|y l IH]; intros x; [done|].
  change (removelast (x :: y :: l)) with (x :: removelast (y :: l)).
  cbn [length]. by rewrite IH.
Qed.

Lemma length_cum_n (a edges : list Qc) : length (np.cum_n a edges) = length edges.
Proof.
  unfold np.cum_n. rewrite length_app, !length_map.
  destruct edges as [|e edges]; [done|].
  rewrite length_removelast_cons. cbn [np.last_slice length]. lia.
Qed.

Lemma length_histogram_edges (a edges : list Qc) (c : list Z) :
  np.histogram_edges a edges = Ok c → length c = (length edges - 1)%nat.
Proof.
  unfold np.histogram_edges. destruct (np.decreases edges); [done|].
  intros [= <-]. by rewrite length_diff, length_cum_n.
Qed.

Lemma length_linspace (start stop : Qc) (n : nat) :
  length (np.linspace start stop n) = S n.
Proof. unfold np.linspace. by rewrite length_map, length_seq. Qed.

Lemma histogram_lengths_agree (arr1 arr2 : list Qc) (bins : np.bins_arg)
    (c1 c2 : list Z) :
  np.histogram arr1 bins = Ok c1 → np.histogram arr2 bins = Ok c2 →
  length c1 = length c2.
Proof.
  destruct bins as [|n|edges]; cbn [np.histogram]; [done| |].
  - destruct (n <? 1)%Z; [done|].
    repeat case_match; intros Hc1 Hc2;
      apply length_histogram_edges in Hc1, Hc2;
      rewrite Hc1, Hc2, !length_linspace; done.
  - intros Hc1 Hc2. apply length_histogram_edges in Hc1, Hc2. congruence.
Qed.

(** * Further properties *)

(** ** When [histogram_distance] returns *)

Lemma compare_histograms_unfold (arr1 arr2 : list Qc) (bins : np.bins_arg) :
  compare_histograms arr1 arr2 bins
  = (c1 ← np.histogram arr1 (effective_bins bins);
     c2 ← np.histogram arr2 (effective_bins bins);
     _ ← assert_ (Qc_ltb (Qcabs (np.sum (normalize c1 (np.size arr1)) - 1)) eps)
           "abs(hist1.sum() - 1.0) < eps";
     _ ← assert_ (Qc_ltb (Qcabs (np.sum (normalize c2 (np.size arr2)) - 1)) eps)
           "abs(hist2.sum() - 1.0) < eps";
     Ok (np.sum (sqerr (normalize c1 (np.size arr1)) (normalize c2 (np.size arr2))))).
Proof. reflexivity. Qed.

Lemma precondition_Ok (arr1 arr2 : list Qc) :
  precondition arr1 arr2 = Ok tt
  ↔ arr1 ≠ [] ∧ arr2 ≠ [] ∧ Forall admitted_sample arr1 ∧ Forall admitted_sample arr2.
Proof.
  split; [|intros (N1 & N2 & F1 & F2); by apply precondition_ok].
  intros HP.
  assert (N1 : arr1 ≠ []) by (intros ->; discriminate HP).
  assert (N2 : arr2 ≠ []).
  { intros ->. destruct arr1 as [|x xs]; [done|].
    unfold precondition in HP. cbn [np.min np.max] in HP.
    rewrite !bind_Ok in HP.
    destruct (Qc_ltb (fsub 0 eps) (fold_left Qc_min xs x));
      [rewrite assert_true, bind_Ok in HP|discriminate HP].
    destruct (Qc_ltb (fold_left Qc_max xs x) (fadd 1 eps));
      [rewrite assert_true, bind_Ok in HP|discriminate HP].
    discriminate HP. }
  split; [done|]. split; [done|].
  destruct (decide (Forall admitted_sample arr1 ∧ Forall admitted_sample arr2))
    as [HF|HF]; [done|].
  destruct (precondition_fails arr1 arr2 N1 N2 HF) as (e & He & _).
  rewrite He in HP. discriminate HP.
Qed.

(** [histogram_distance] returns [d] exactly when the samples pass the
    precondition, both histograms are computed, both sum to 1 within [eps],
    and [d] is the sum of the squared differences. *)
Lemma histogram_distance_Ok (arr1 arr2 : list Qc) (bins : np.bins_arg) (d : Qc) :
  histogram_distance arr1 arr2 bins = Ok d
  ↔ precondition arr1 arr2 = Ok tt
    ∧ ∃ c1 c2,
        np.histogram arr1 (effective_bins bins) = Ok c1
        ∧ np.histogram arr2 (effective_bins bins) = Ok c2
        ∧ Qc_ltb (Qcabs (np.sum (normalize c1 (np.size arr1)) - 1)) eps = true
        ∧ Qc_ltb (Qcabs (np.sum (normalize c2 (np.size arr2)) - 1)) eps = true
        ∧ d = np.sum (sqerr (normalize c1 (np.size arr1)) (normalize c2 (np.size arr2))).
Proof.
  rewrite histogram_distance_split, compare_histograms_unfold. split.
  - destruct (precondition arr1 arr2) as [[]|e];
      [rewrite bind_Ok|rewrite bind_Raise; discriminate].
    destruct (np.histogram arr1 (effective_bins bins)) as [c1|e1];
      [rewrite bind_Ok|rewrite bind_Raise; discriminate].
    destruct (np.histogram arr2 (effective_bins bins)) as [c2|e2];
      [rewrite bind_Ok|rewrite bind_Raise; discriminate].
    destruct (Qc_ltb (Qcabs (np.sum (normalize c1 (np.size arr1)) - 1)) eps) eqn:H1;
      [rewrite assert_true, bind_Ok|rewrite assert_false, bind_Raise; discriminate].
    destruct (Qc_ltb (Qcabs (np.sum (normalize c2 (np.size arr2)) - 1)) eps) eqn:H2;
      [rewrite assert_true, bind_Ok|rewrite assert_false, bind_Raise; discriminate].
    intros [= <-]. split; [done|]. by exists c1, c2.
  - intros (-> & c1 & c2 & -> & -> & H1 & H2 & ->).
    by rewrite !bind_Ok, H1, H2, !assert_true, !bind_Ok.
Qed.

Lemma fold_plus_acc (l : list Qc) (acc : Qc) :
  fold_left Qcplus l acc = acc + fold_left Qcplus l 0.
Proof.
  revert acc. induction l as [|x l IH]; intros acc; cbn [fold_left].
  - ring.
  - rewrite (IH (acc + x)), (IH (0 + x)). ring.
Qed.

Lemma np_sum_cons (x : Qc) (l : list Qc) : np.sum (x :: l) = x + np.sum l.
Proof. unfold np.sum. cbn [fold_left]. rewrite fold_plus_acc. ring. Qed.

Lemma np_sum_nil : np.sum [] = 0.
Proof. reflexivity. Qed.

Lemma sqerr_cons (x y : Qc) (h1 h2 : list Qc) :
  sqerr (x :: h1) (y :: h2) = (x - y) * (x - y) :: sqerr h1 h2.
Proof. reflexivity. Qed.

Lemma sqerr_comm (h1 h2 : list Qc) : sqerr h1 h2 = sqerr h2 h1.
Proof.
  revert h2. induction h1 as [|x h1 IH]; intros [|y h2]; try reflexivity.
  rewrite !sqerr_cons, IH. f_equal. ring.
Qed.

Lemma sum_sqerr_self (h : list Qc) : np.sum (sqerr h h) = 0.
Proof.
  induction h as [|x h IH]; [reflexivity|].
  rewrite sqerr_cons, np_sum_cons, IH. ring.
Qed.

Lemma precondition_comm (arr1 arr2 : list Qc) :
  precondition arr1 arr2 = Ok tt → precondition arr2 arr1 = Ok tt.
Proof. rewrite !precondition_Ok. tauto. Qed.

(** X1.  The distance is symmetric: when [histogram_distance] returns [d]
    for two arrays, it returns [d] for the arrays in the other order, with
    any [bins]. *)
Theorem histogram_distance_symmetric (arr1 arr2 : list Qc) (bins : np.bins_arg) (d : Qc) :
  histogram_distance arr1 arr2 bins = Ok d →
  histogram_distance arr2 arr1 bins = Ok d.
Proof.
  rewrite !histogram_distance_Ok.
  intros (HP & c1 & c2 & Hc1 & Hc2 & H1 & H2 & ->).
  split; [by apply precondition_comm|].
  exists c2, c1. repeat (split; [done|]). f_equal. apply sqerr_comm.
Qed.

Lemma histogram_distance_symmetric_witness :
  histogram_distance [1] [0; Q2Qc (1 # 2)] np.BinsNone = Ok (Q2Qc (3 # 2)).
Proof.
  apply (histogram_distance_symmetric [0; Q2Qc (1 # 2)] [1]).
  vm_compute. reflexivity.
Defined.

(** X2.  The distance of an array to itself is 0: whenever
    [histogram_distance(a, a, bins)] returns, it returns 0, and it does
    return for every non-empty array of samples of [[0, 1]] with the default
    bins. *)
Theorem histogram_distance_self (a : list Qc) :
  (∀ bins d, histogram_distance a a bins = Ok d → d = 0)
  ∧ (a ≠ [] → Forall unit_sample a → histogram_distance a a np.BinsNone = Ok 0).
Proof.
  split.
  - intros bins d. rewrite histogram_distance_Ok.
    intros (_ & c1 & c2 & Hc1 & Hc2 & _ & _ & ->).
    rewrite Hc1 in Hc2. injection Hc2 as <-. apply sum_sqerr_self.
  - intros Hne Hu. apply histogram_distance_Ok.
    assert (Ha : Forall admitted_sample a).
    { eapply Forall_impl; [exact Hu|apply unit_sample_admitted]. }
    split; [by apply precondition_ok|].
    exists (bin_counts a default_bins), (bin_counts a default_bins).
    change (effective_bins np.BinsNone) with (np.BinsList default_bins).
    change (normalize (bin_counts a default_bins) (np.size a))
      with (normalized_histogram a default_bins).
    rewrite histogram_default, normalized_sum_one, sum_check_passes, sum_sqerr_self
      by done.
    done.
Qed.

Lemma histogram_distance_self_witness :
  histogram_distance [0; Q2Qc (1 # 2); 1] [0; Q2Qc (1 # 2); 1] np.BinsNone = Ok 0.
Proof.
  apply (histogram_distance_self [0; Q2Qc (1 # 2); 1]); [done|].
  repeat (apply Forall_cons_2; [split; by vm_compute|]). apply Forall_nil_2.
Defined.

Lemma admitted_fold (x : Qc) (xs : list Qc) :
  Forall admitted_sample (x :: xs)
  ↔ fsub 0 eps < fold_left Qc_min xs x ∧ fold_left Qc_max xs x < fadd 1 eps.
Proof.
  rewrite fold_min_gt, fold_max_lt. unfold admitted_sample. apply Forall_and.
Qed.

(** [np.histogram] and the lines after the precondition raise no error of
    an empty reduction. *)
Lemma histogram_not_zero_size (a : list Qc) (bins : np.bins_arg) (s : string) :
  np.histogram a bins ≠ Raise (np.zero_size s).
Proof.
  unfold np.histogram, np.histogram_edges, np.zero_size.
  destruct bins as [|n|edges]; repeat case_match; discriminate.
Qed.

Lemma compare_histograms_not_zero_size (arr1 arr2 : list Qc) (bins : np.bins_arg)
    (s : string) :
  compare_histograms arr1 arr2 bins ≠ Raise (np.zero_size s).
Proof.
  rewrite compare_histograms_unfold.
  destruct (np.histogram arr1 (effective_bins bins)) as [c1|e1] eqn:H1;
    [rewrite bind_Ok|rewrite bind_Raise; intros [= ->];
                      by apply histogram_not_zero_size in H1].
  destruct (np.histogram arr2 (effective_bins bins)) as [c2|e2] eqn:H2;
    [rewrite bind_Ok|rewrite bind_Raise; intros [= ->];
                      by apply histogram_not_zero_size in H2].
  destruct (Qc_ltb (Qcabs (np.sum (normalize c1 (np.size arr1)) - 1)) eps);
    [rewrite assert_true, bind_Ok|rewrite assert_false, bind_Raise; discriminate].
  destruct (Qc_ltb (Qcabs (np.sum (normalize c2 (np.size arr2)) - 1)) eps);
    [rewrite assert_true, bind_Ok|rewrite assert_false, bind_Raise; discriminate].
  discriminate.
Qed.

(** X3.  [histogram_distance] raises numpy's [ValueError] of a zero-size
    array for the reduction [minimum] exactly when the first array is
    empty, or the second array is empty and every sample of the first has
    passed its two assertions; it never raises the one for [maximum], since
    [min()] is asked first.  A first array with a sample that is not
    admitted raises the [AssertionError] of line 118 or 119, also when the
    second array is empty. *)
Theorem histogram_distance_empty (arr1 arr2 : list Qc) (bins : np.bins_arg) :
  (histogram_distance arr1 arr2 bins = Raise (np.zero_size "minimum")
   ↔ arr1 = [] ∨ (arr2 = [] ∧ Forall admitted_sample arr1))
  ∧ histogram_distance arr1 arr2 bins ≠ Raise (np.zero_size "maximum")
  ∧ (arr1 ≠ [] → ¬ Forall admitted_sample arr1 →
     histogram_distance arr1 arr2 bins
     = Raise (AssertionError "arr1.min() > 0-eps")
     ∨ histogram_distance arr1 arr2 bins
       = Raise (AssertionError "arr1.max() < 1+eps")).
Proof.
  rewrite histogram_distance_split.
  destruct arr1 as [|x xs].
  { unfold precondition. cbn [np.min]. rewrite !bind_Raise.
    split; [split; [by left|done]|]. split; [|done].
    intros H. vm_compute in H. discriminate H. }
  pose proof (admitted_fold x xs) as Hfold.
  unfold precondition. cbn [np.min np.max]. rewrite !bind_Ok.
  destruct (Qc_ltb (fsub 0 eps) (fold_left Qc_min xs x)) eqn:Hm.
  2:{ rewrite assert_false, !bind_Raise. apply Qc_ltb_ge in Hm.
      split; [split; [discriminate|]|split; [discriminate|by left]].
      intros [|[_ Ha]]; [done|]. apply Hfold in Ha as [Ha _].
      exfalso. exact (Qcle_not_lt _ _ Hm Ha). }
  rewrite assert_true, !bind_Ok.
  destruct (Qc_ltb (fold_left Qc_max xs x) (fadd 1 eps)) eqn:HM.
  2:{ rewrite assert_false, !bind_Raise. apply Qc_ltb_ge in HM.
      split; [split; [discriminate|]|split; [discriminate|by right]].
      intros [|[_ Ha]]; [done|]. apply Hfold in Ha as [_ Ha].
      exfalso. exact (Qcle_not_lt _ _ HM Ha). }
  rewrite assert_true, !bind_Ok.
  apply Qc_ltb_lt in Hm, HM.
  pose proof (proj2 Hfold (conj Hm HM)) as Ha. clear Hm HM Hfold.
  destruct arr2 as [|y ys].
  { cbn [np.min]. rewrite !bind_Raise.
    split; [split; [by right|done]|]. split; [|done].
    intros H. vm_compute in H. discriminate H. }
  assert (Hno : ∀ s,
    (_ ← (m2 ← np.min (y :: ys);
          _ ← assert_ (Qc_ltb (fsub 0 eps) m2) "arr2.min() > 0-eps";
          M2 ← np.max (y :: ys);
          assert_ (Qc_ltb M2 (fadd 1 eps)) "arr2.max() < 1+eps");
     compare_histograms (x :: xs) (y :: ys) bins) ≠ Raise (np.zero_size s)).
  { intros s. cbn [np.min np.max]. rewrite !bind_Ok.
    destruct (Qc_ltb (fsub 0 eps) (fold_left Qc_min ys y));
      [rewrite assert_true, !bind_Ok|rewrite assert_false, !bind_Raise; discriminate].
    destruct (Qc_ltb (fold_left Qc_max ys y) (fadd 1 eps));
      [rewrite assert_true, !bind_Ok|rewrite assert_false, !bind_Raise; discriminate].
    apply compare_histograms_not_zero_size. }
  split; [split|split; [apply Hno|done]].
  - intros H. by apply Hno in H.
  - intros [|[? _]]; done.
Qed.

Lemma histogram_distance_empty_witness :
  histogram_distance [0; 1] [] np.BinsNone = Raise (np.zero_size "minimum")
  ∧ histogram_distance [fadd 1 eps] [] np.BinsNone
    = Raise (AssertionError "arr1.max() < 1+eps").
Proof.
  split.
  - apply (histogram_distance_empty [0; 1] [] np.BinsNone). right.
    split; [done|].
    repeat (apply Forall_cons_2; [split; by vm_compute|]). apply Forall_nil_2.
  - destruct (histogram_distance_empty [fadd 1 eps] [] np.BinsNone)
      as (_ & _ & [H|H]); [done| | |done].
    + intros Ha. apply Forall_inv in Ha as [_ Ha].
      by apply (Qclt_not_eq _ _ Ha).
    + exfalso. revert H. by vm_compute.
Defined.

(** ** The counts of a histogram *)

Lemma bin_counts_nonneg (a edges : list Qc) :
  Forall (fun c => (0 ≤ c)%Z) (bin_counts a edges).
Proof.
  induction edges as [|lo tl IH]; [constructor|].
  destruct tl as [|hi rest]; [constructor|].
  cbn [bin_counts] in *. apply Forall_cons_2; [lia|exact IH].
Qed.

Lemma count_range (p : Qc → bool) (a : list Qc) :
  (0 ≤ Z.of_nat (length (filter (fun y => p y) a)) ≤ Z.of_nat (length a))%Z.
Proof.
  induction a as [|x a IH]; [done|].
  rewrite count_cons. cbn [length]. destruct (p x); lia.
Qed.

Lemma last_cons_last {A} (x d : A) (l : list A) : List.last (x :: l) d = List.last l x.
Proof.
  destruct l as [|y l]; [done|].
  change (List.last (y :: l) d = List.last (y :: l) x). apply last_cons_default.
Qed.

Lemma last_cum_n (a : list Qc) (e : Qc) (rest : list Qc) (d : Z) :
  List.last (np.cum_n a (e :: rest)) d = np.searchsorted_right a (List.last rest e).
Proof.
  revert e d. induction rest as [|r rs IH]; intros e d; [done|].
  rewrite cum_n_cons, (last_cons_last (np.searchsorted_left a e)), IH.
  by rewrite (last_cons_last r e).
Qed.

Lemma decreases_first_last (e0 : Qc) (rest : list Qc) :
  np.decreases (e0 :: rest) = false → e0 ≤ List.last rest e0.
Proof.
  revert e0. induction rest as [|e1 rest IH]; intros e0 Hd; [apply Qcle_refl|].
  cbn [np.decreases] in Hd. apply orb_false_iff in Hd as [Hle Hd].
  apply Qc_ltb_ge in Hle. rewrite last_cons_last.
  apply Qcle_trans with e1; [done|by apply IH].
Qed.

(** The samples that the edges cover are those that are not [outside] of
    the first and the last edge. *)
Lemma count_outside (a : list Qc) (lo hi : Qc) :
  lo ≤ hi →
  (np.searchsorted_right a hi - np.searchsorted_left a lo)%Z
  = (np.size a - uncovered a lo hi)%Z.
Proof.
  intros Hle. unfold np.searchsorted_left, np.searchsorted_right, np.size, uncovered.
  induction a as [|x a IH]; [done|].
  rewrite !count_cons. cbn [length]. unfold outside at 1.
  destruct (Qc_leb x hi) eqn:E1, (Qc_ltb x lo) eqn:E2, (Qc_ltb hi x) eqn:E3;
    simpl; try lia; exfalso; qc_order.
Qed.

Lemma uncovered_range (a : list Qc) (lo hi : Qc) :
  (0 ≤ uncovered a lo hi ≤ np.size a)%Z.
Proof. apply (count_range (outside lo hi)). Qed.

Lemma sum_histogram_edges (a : list Qc) (e0 e1 : Qc) (rest : list Qc) (c : list Z) :
  np.histogram_edges a (e0 :: e1 :: rest) = Ok c →
  c = bin_counts a (e0 :: e1 :: rest)
  ∧ fold_right Z.add 0%Z c = (np.size a - uncovered a e0 (List.last rest e1))%Z.
Proof.
  unfold np.histogram_edges. destruct (np.decreases _) eqn:Hd; [done|].
  intros H.
  assert (Hc : c = np.diff (np.cum_n a (e0 :: e1 :: rest))) by congruence.
  clear H. subst c. split; [by apply diff_cum_n|].
  rewrite cum_n_cons, sum_diff, last_cum_n.
  apply count_outside.
  pose proof (decreases_first_last e0 (e1 :: rest) Hd) as Hle.
  by rewrite last_cons_last in Hle.
Qed.

Lemma histogram_edges_counts (a edges : list Qc) (c : list Z) :
  np.histogram_edges a edges = Ok c →
  Forall (fun x => (0 ≤ x)%Z) c ∧ (fold_right Z.add 0%Z c ≤ np.size a)%Z.
Proof.
  intros H. split.
  - unfold np.histogram_edges in H. destruct (np.decreases edges) eqn:Hd; [done|].
    injection H as <-. rewrite diff_cum_n by done. apply bin_counts_nonneg.
  - destruct edges as [|e0 [|e1 rest]].
    + injection H as <-. unfold np.size. simpl. lia.
    + injection H as <-. unfold np.size. simpl. lia.
    + apply sum_histogram_edges in H as [_ ->].
      pose proof (uncovered_range a e0 (List.last rest e1)). lia.
Qed.

(** No count is negative, and no sample is counted twice. *)
Lemma histogram_counts (a : list Qc) (bins : np.bins_arg) (c : list Z) :
  np.histogram a bins = Ok c →
  Forall (fun x => (0 ≤ x)%Z) c ∧ (fold_right Z.add 0%Z c ≤ np.size a)%Z.
Proof.
  destruct bins as [|n|edges]; cbn [np.histogram];
    [done| |apply histogram_edges_counts].
  destruct (n <? 1)%Z; [done|].
  repeat case_match; apply histogram_edges_counts.
Qed.

Lemma Qc_of_Z_pos (n : Z) : (0 < n)%Z → 0 < Qc_of_Z n.
Proof. intros Hn. rewrite <- Z2Qc_inj_0, <- Z2Qc_inj_lt. done. Qed.

Lemma normalize_nonneg (c : list Z) (N : Z) :
  (0 < N)%Z → Forall (fun x => (0 ≤ x)%Z) c →
  Forall (fun p => 0 ≤ p) (normalize c N).
Proof.
  intros HN Hc. induction Hc as [|x c Hx _ IH]; [constructor|].
  cbn [normalize List.map]. apply Forall_cons_2; [|exact IH].
  apply Qc_le_div_iff; [by apply Qc_of_Z_pos|].
  rewrite Qcmult_0_l, <- Z2Qc_inj_0, <- Z2Qc_inj_le. done.
Qed.

Lemma sum_normalize_le (c : list Z) (N : Z) :
  (0 < N)%Z → (fold_right Z.add 0%Z c ≤ N)%Z → np.sum (normalize c N) ≤ 1.
Proof.
  intros HN Hc. rewrite sum_normalize.
  apply Qc_div_le_iff; [by apply Qc_of_Z_pos|].
  rewrite Qcmult_1_l, <- Z2Qc_inj_le. done.
Qed.

Lemma sum_nonneg (l : list Qc) : Forall (fun p => 0 ≤ p) l → 0 ≤ np.sum l.
Proof.
  induction 1 as [|x l Hx _ IH]; [apply Qcle_refl|].
  rewrite np_sum_cons. qc_real. lra.
Qed.

(** For two sub-distributions the squared differences sum to at most the
    sum of the two totals. *)
Lemma sum_sqerr_bounds (p q : list Qc) :
  Forall (fun x => 0 ≤ x) p → Forall (fun x => 0 ≤ x) q →
  np.sum p ≤ 1 → np.sum q ≤ 1 →
  0 ≤ np.sum (sqerr p q) ∧ np.sum (sqerr p q) ≤ np.sum p + np.sum q.
Proof.
  intros Hp. revert q. induction Hp as [|x p Hx Hp IH]; intros q Hq Sp Sq.
  - pose proof (sum_nonneg q Hq) as Hq0.
    change (sqerr [] q) with (@nil Qc). rewrite np_sum_nil.
    split; qc_real; lra.
  - pose proof (sum_nonneg p Hp) as Hp0.
    destruct Hq as [|y q Hy Hq].
    + change (sqerr (x :: p) []) with (@nil Qc).
      rewrite np_sum_cons in *. rewrite np_sum_nil. split; qc_real; lra.
    + pose proof (sum_nonneg q Hq) as Hq0.
      rewrite sqerr_cons, !np_sum_cons in *.
      destruct (IH q Hq) as [IH0 IH1]; [qc_real; lra..|].
      assert (Hx1 : x ≤ 1) by (qc_real; lra).
      assert (Hy1 : y ≤ 1) by (qc_real; lra).
      assert (Hsq : (x - y) * (x - y) ≤ x + y).
      { clear -Hx Hy Hx1 Hy1. qc_real. nra. }
      assert (Hsq0 : 0 ≤ (x - y) * (x - y)).
      { generalize (x - y). intros a. qc_real. nra. }
      clear IH Hp Hq. set (sq := (x - y) * (x - y)) in *. clearbody sq.
      split; qc_real; lra.
Qed.

Lemma size_pos (a : list Qc) : a ≠ [] → (0 < np.size a)%Z.
Proof. destruct a; [done|]. intros _. unfold np.size. cbn [length]. lia. Qed.

Lemma two_as_sum : Qc_of_Z 2 = 1 + 1.
Proof. apply Qc_is_canon. reflexivity. Qed.

Lemma distance_bounds (arr1 arr2 : list Qc) (bins : np.bins_arg) (d : Qc) :
  histogram_distance arr1 arr2 bins = Ok d → 0 ≤ d ∧ d ≤ Qc_of_Z 2.
Proof.
  rewrite histogram_distance_Ok.
  intros (HP & c1 & c2 & Hc1 & Hc2 & _ & _ & ->).
  apply precondition_Ok in HP as (N1 & N2 & _ & _).
  apply size_pos in N1, N2.
  apply histogram_counts in Hc1 as [Hn1 Hs1], Hc2 as [Hn2 Hs2].
  pose proof (normalize_nonneg c1 _ N1 Hn1) as P1.
  pose proof (normalize_nonneg c2 _ N2 Hn2) as P2.
  pose proof (sum_normalize_le c1 _ N1 Hs1) as S1.
  pose proof (sum_normalize_le c2 _ N2 Hs2) as S2.
  destruct (sum_sqerr_bounds _ _ P1 P2 S1 S2) as [H0 H2].
  split; [done|]. rewrite two_as_sum.
  eapply Qcle_trans; [exact H2|]. by apply Qcplus_le_compat.
Qed.

Lemma square_nonneg (a : Qc) : 0 ≤ a * a.
Proof. qc_real. nra. Qed.

Lemma sum_sqerr_nonneg (p q : list Qc) : 0 ≤ np.sum (sqerr p q).
Proof.
  revert q. induction p as [|x p IH]; intros [|y q]; try apply Qcle_refl.
  rewrite sqerr_cons, np_sum_cons.
  pose proof (square_nonneg (x - y)) as Hsq. specialize (IH q).
  set (a := (x - y) * (x - y)) in *. set (S := np.sum (sqerr p q)) in *.
  clearbody a S. qc_real. lra.
Qed.

(** The squared differences sum to 0 only for equal histograms. *)
Lemma sum_sqerr_zero (p q : list Qc) :
  length p = length q → np.sum (sqerr p q) = 0 → p = q.
Proof.
  revert q. induction p as [|x p IH]; intros [|y q] Hlen H; try done.
  rewrite sqerr_cons, np_sum_cons in H.
  pose proof (square_nonneg (x - y)) as Hsq.
  pose proof (sum_sqerr_nonneg p q) as HS.
  assert (H1 : (x - y) * (x - y) + np.sum (sqerr p q) ≤ 0)
    by (rewrite H; apply Qcle_refl).
  assert (Ha : (x - y) * (x - y) = 0).
  { apply Qcle_antisym; [|done].
    set (a := (x - y) * (x - y)) in *. set (S := np.sum (sqerr p q)) in *.
    clearbody a S. qc_real. lra. }
  assert (Hb : np.sum (sqerr p q) = 0).
  { apply Qcle_antisym; [|done].
    set (a := (x - y) * (x - y)) in *. set (S := np.sum (sqerr p q)) in *.
    clearbody a S. qc_real. lra. }
  assert (Hxy : x = y).
  { assert (Hd : x - y = 0) by (by destruct (Qcmult_integral _ _ Ha)).
    rewrite <- (Qcplus_0_l y), <- Hd. ring. }
  f_equal; [done|]. apply IH; [|done]. by injection Hlen.
Qed.

Lemma length_normalize (c : list Z) (N : Z) : length (normalize c N) = length c.
Proof. unfold normalize. by rewrite length_map. Qed.

(** X4.  Whenever [histogram_distance] returns, with any [bins], the
    result lies between 0 and 2: the counts are not negative and no sample
    is counted twice, so that each normalized histogram has entries in
    [[0, 1]] of total at most 1.  The result is 0 exactly when the two
    normalized histograms are equal. *)
Theorem histogram_distance_range (arr1 arr2 : list Qc) (bins : np.bins_arg) (d : Qc) :
  histogram_distance arr1 arr2 bins = Ok d →
  0 ≤ d ∧ d ≤ Qc_of_Z 2
  ∧ ∃ c1 c2,
      np.histogram arr1 (effective_bins bins) = Ok c1
      ∧ np.histogram arr2 (effective_bins bins) = Ok c2
      ∧ (d = 0 ↔ normalize c1 (np.size arr1) = normalize c2 (np.size arr2)).
Proof.
  intros H. destruct (distance_bounds _ _ _ _ H) as [H0 H2].
  split; [done|]. split; [done|].
  apply histogram_distance_Ok in H as (_ & c1 & c2 & Hc1 & Hc2 & _ & _ & ->).
  exists c1, c2. split; [done|]. split; [done|]. split.
  - apply sum_sqerr_zero. rewrite !length_normalize.
    by apply (histogram_lengths_agree arr1 arr2 (effective_bins bins)).
  - intros ->. apply sum_sqerr_self.
Qed.

Lemma histogram_distance_range_witness : 0 ≤ Q2Qc (3 # 2) ∧ Q2Qc (3 # 2) ≤ Qc_of_Z 2.
Proof.
  destruct (histogram_distance_range [0; Q2Qc (1 # 2)] [1] np.BinsNone (Q2Qc (3 # 2)))
    as (H0 & H2 & _).
  - vm_compute. reflexivity.
  - split; [exact H0|exact H2].
Defined.

(** ** The range of [energy] *)

Lemma scores_of_bounds (self : ColorEstimator) (arr : nat) (range : list nat)
    (σ σ' : gmap nat (list (list Qc))) (scores : list Qc) :
  scores_of self arr range σ = (σ', Ok scores) →
  Forall2 (fun _ s => 0 ≤ s ∧ s ≤ Qc_of_Z 2) range scores.
Proof.
  revert σ σ' scores. induction range as [|i range IH]; intros σ σ' scores H.
  - injection H as _ <-. constructor.
  - cbn [scores_of] in H.
    apply M_bind_inv in H as [(σ1 & r & _ & H)|(e & _ & [=])].
    apply M_bind_inv in H as [(σ2 & a & _ & H)|(e & _ & [=])].
    apply M_bind_inv in H as [(σ3 & s & Hs & H)|(e & _ & [=])].
    apply M_bind_inv in H as [(σ4 & ss & Hss & H)|(e & _ & [=])].
    injection H as _ <-. injection Hs as _ Hs.
    constructor; [by eapply distance_bounds|by eapply IH].
Qed.

(** X5.  Whenever [energy] returns, whatever the functions of
    [parse_operations] did to the copy of the source, the value lies
    between 0 and 600: it is 100 times the sum of three distances of
    [[0, 2]]. *)
Theorem energy_range (parse_operations : string → res (list (nat → M nat)))
    (self : ColorEstimator) (σ σ' : gmap nat (list (list Qc))) (E : Qc) :
  energy parse_operations self σ = (σ', Ok E) → 0 ≤ E ∧ E ≤ Qc_of_Z 600.
Proof.
  unfold energy. intros H.
  apply M_bind_inv in H as [(σ1 & arr & _ & H)|(e & _ & [=])].
  apply M_bind_inv in H as [(σ2 & ops & _ & H)|(e & _ & [=])].
  apply M_bind_inv in H as [(σ3 & funcs & _ & H)|(e & _ & [=])].
  apply M_bind_inv in H as [(σ4 & arr' & _ & H)|(e & _ & [=])].
  apply M_bind_inv in H as [(σ5 & scores & Hs & H)|(e & _ & [=])].
  injection H as _ <-.
  apply scores_of_bounds in Hs. cbn [seq] in Hs.
  apply Forall2_cons_inv_l in Hs as (s0 & k0 & [L0 U0] & Hs & ->).
  apply Forall2_cons_inv_l in Hs as (s1 & k1 & [L1 U1] & Hs & ->).
  apply Forall2_cons_inv_l in Hs as (s2 & k2 & [L2 U2] & Hs & ->).
  apply Forall2_nil_inv_l in Hs as ->.
  unfold py_sum. cbn [fold_left]. split; qc_real; lra.
Qed.

Lemma energy_example_run :
  energy example_parse example_estimator example_store
  = ((energy example_parse example_estimator example_store).1, Ok (Qc_of_Z 550)).
Proof.
  pose proof energy_example as H.
  destruct (energy example_parse example_estimator example_store) as [σ' [e|e]];
    cbn [fst snd] in *; [by subst|done].
Qed.

Lemma energy_range_witness : 0 ≤ Qc_of_Z 550 ∧ Qc_of_Z 550 ≤ Qc_of_Z 600.
Proof.
  apply (energy_range example_parse example_estimator example_store
           (energy example_parse example_estimator example_store).1).
  exact energy_example_run.
Defined.

(** ** The order of the samples *)

Lemma Qc_min_spec (x y : Qc) :
  (Qc_min x y = x ∨ Qc_min x y = y) ∧ Qc_min x y ≤ x ∧ Qc_min x y ≤ y.
Proof.
  unfold Qc_min. destruct (Qc_ltb y x) eqn:E.
  - apply Qc_ltb_lt in E. split; [by right|].
    split; [by apply Qclt_le_weak|apply Qcle_refl].
  - apply Qc_ltb_ge in E. split; [by left|]. split; [apply Qcle_refl|done].
Qed.

Lemma Qc_max_spec (x y : Qc) :
  (Qc_max x y = x ∨ Qc_max x y = y) ∧ x ≤ Qc_max x y ∧ y ≤ Qc_max x y.
Proof.
  unfold Qc_max. destruct (Qc_ltb x y) eqn:E.
  - apply Qc_ltb_lt in E. split; [by right|].
    split; [by apply Qclt_le_weak|apply Qcle_refl].
  - apply Qc_ltb_ge in E. split; [by left|]. split; [apply Qcle_refl|done].
Qed.

(** [min()] is a sample that no sample is below. *)
Lemma fold_min_spec (xs : list Qc) (x : Qc) :
  fold_left Qc_min xs x ∈ x :: xs
  ∧ Forall (fun y => fold_left Qc_min xs x ≤ y) (x :: xs).
Proof.
  revert x. induction xs as [|y xs IH]; intros x; cbn [fold_left].
  - split; [apply elem_of_cons; by left|apply Forall_singleton, Qcle_refl].
  - destruct (IH (Qc_min x y)) as [Hin Hall].
    destruct (Qc_min_spec x y) as (Hc & Hx & Hy).
    apply Forall_cons in Hall as [Hm Hall].
    split.
    + rewrite elem_of_cons in Hin. rewrite !elem_of_cons.
      destruct Hin as [Hin|Hin]; [|tauto].
      rewrite Hin. tauto.
    + apply Forall_cons_2; [by apply Qcle_trans with (Qc_min x y)|].
      apply Forall_cons_2; [by apply Qcle_trans with (Qc_min x y)|done].
Qed.

Lemma fold_max_spec (xs : list Qc) (x : Qc) :
  fold_left Qc_max xs x ∈ x :: xs
  ∧ Forall (fun y => y ≤ fold_left Qc_max xs x) (x :: xs).
Proof.
  revert x. induction xs as [|y xs IH]; intros x; cbn [fold_left].
  - split; [apply elem_of_cons; by left|apply Forall_singleton, Qcle_refl].
  - destruct (IH (Qc_max x y)) as [Hin Hall].
    destruct (Qc_max_spec x y) as (Hc & Hx & Hy).
    apply Forall_cons in Hall as [Hm Hall].
    split.
    + rewrite elem_of_cons in Hin. rewrite !elem_of_cons.
      destruct Hin as [Hin|Hin]; [|tauto].
      rewrite Hin. tauto.
    + apply Forall_cons_2; [by apply Qcle_trans with (Qc_max x y)|].
      apply Forall_cons_2; [by apply Qcle_trans with (Qc_max x y)|done].
Qed.

Lemma np_min_perm (a a' : list Qc) : a ≡ₚ a' → np.min a = np.min a'.
Proof.
  intros HP. destruct a as [|x xs], a' as [|x' xs'].
  - done.
  - by apply Permutation_nil_cons in HP.
  - symmetry in HP. by apply Permutation_nil_cons in HP.
  - cbn [np.min]. f_equal.
    destruct (fold_min_spec xs x) as [Hin Hall].
    destruct (fold_min_spec xs' x') as [Hin' Hall'].
    rewrite Forall_forall in Hall, Hall'.
    apply Qcle_antisym.
    + apply Hall. by rewrite HP.
    + apply Hall'. by rewrite <- HP.
Qed.

Lemma np_max_perm (a a' : list Qc) : a ≡ₚ a' → np.max a = np.max a'.
Proof.
  intros HP. destruct a as [|x xs], a' as [|x' xs'].
  - done.
  - by apply Permutation_nil_cons in HP.
  - symmetry in HP. by apply Permutation_nil_cons in HP.
  - cbn [np.max]. f_equal.
    destruct (fold_max_spec xs x) as [Hin Hall].
    destruct (fold_max_spec xs' x') as [Hin' Hall'].
    rewrite Forall_forall in Hall, Hall'.
    apply Qcle_antisym.
    + apply Hall'. by rewrite <- HP.
    + apply Hall. by rewrite HP.
Qed.

Lemma np_size_perm (a a' : list Qc) : a ≡ₚ a' → np.size a = np.size a'.
Proof. intros HP. unfold np.size. by rewrite (Permutation_length HP). Qed.

Lemma count_perm (p : Qc → bool) (a a' : list Qc) :
  a ≡ₚ a' →
  Z.of_nat (length (filter (fun y => p y) a))
  = Z.of_nat (length (filter (fun y => p y) a')).
Proof.
  induction 1 as [|x a a' _ IH|x y a|a a' a'' _ IH1 _ IH2].
  - done.
  - by rewrite !count_cons, IH.
  - rewrite !count_cons. lia.
  - congruence.
Qed.

Lemma histogram_edges_perm (a a' edges : list Qc) :
  a ≡ₚ a' → np.histogram_edges a edges = np.histogram_edges a' edges.
Proof.
  intros HP. unfold np.histogram_edges, np.cum_n.
  destruct (np.decreases edges); [done|]. do 3 f_equal.
  - apply map_ext. intros v. by apply count_perm.
  - apply map_ext. intros v. by apply count_perm.
Qed.

Lemma histogram_perm (a a' : list Qc) (bins : np.bins_arg) :
  a ≡ₚ a' → np.histogram a bins = np.histogram a' bins.
Proof.
  intros HP. destruct bins as [|n|edges]; cbn [np.histogram];
    [done| |by apply histogram_edges_perm].
  destruct (n <? 1)%Z; [done|].
  assert (Hmin : match a with [] => 0 | x :: xs => fold_left Qc_min xs x end
                 = match a' with [] => 0 | x :: xs => fold_left Qc_min xs x end).
  { pose proof (np_min_perm a a' HP) as H.
    destruct a, a'; cbn [np.min] in H; congruence. }
  assert (Hmax : match a with [] => 1 | x :: xs => fold_left Qc_max xs x end
                 = match a' with [] => 1 | x :: xs => fold_left Qc_max xs x end).
  { pose proof (np_max_perm a a' HP) as H.
    destruct a, a'; cbn [np.max] in H; congruence. }
  rewrite Hmin, Hmax. repeat case_match; by apply histogram_edges_perm.
Qed.

(** X6.  The order of the samples is of no account: for arrays that hold
    the same samples in another order, [histogram_distance] returns the same
    value or raises the same error. *)
Theorem histogram_distance_permutation (arr1 arr1' arr2 arr2' : list Qc)
    (bins : np.bins_arg) :
  arr1 ≡ₚ arr1' → arr2 ≡ₚ arr2' →
  histogram_distance arr1 arr2 bins = histogram_distance arr1' arr2' bins.
Proof.
  intros H1 H2. unfold histogram_distance. cbv zeta.
  rewrite (np_min_perm _ _ H1), (np_max_perm _ _ H1), (np_size_perm _ _ H1),
    (histogram_perm _ _ _ H1).
  rewrite (np_min_perm _ _ H2), (np_max_perm _ _ H2), (np_size_perm _ _ H2),
    (histogram_perm _ _ _ H2).
  reflexivity.
Qed.

Lemma histogram_distance_permutation_witness :
  histogram_distance [0; Q2Qc (1 # 2); 1] [1; 0] np.BinsNone
  = histogram_distance [Q2Qc (1 # 2); 0; 1] [0; 1] np.BinsNone.
Proof.
  apply (histogram_distance_permutation [0; Q2Qc (1 # 2); 1] [Q2Qc (1 # 2); 0; 1]
           [1; 0] [0; 1] np.BinsNone).
  - apply perm_swap.
  - apply perm_swap.
Defined.

(** ** The check of the sums, for bins given by their edges *)



Lemma histogram_edges_increasing (a edges : list Qc) :
  np.decreases edges = false →
  np.histogram_edges a edges = Ok (bin_counts a edges).
Proof.
  intros Hd. unfold np.histogram_edges. by rewrite Hd, diff_cum_n.
Qed.



(** ** [validate] and [cmd] *)

Lemma first_missing_unique (ks : list string) (st : gmap string Qc)
    (i i' : nat) (k k' : string) :
  first_missing ks st i k → first_missing ks st i' k' → i = i' ∧ k = k'.
Proof.
  intros (H1 & H2 & H3) (H1' & H2' & H3').
  destruct (lt_eq_lt_dec i i') as [[Hlt|Heq]|Hlt].
  - destruct (H3' i k Hlt H1) as [v Hv]. congruence.
  - subst i'. split; [done|congruence].
  - destruct (H3 i' k' Hlt H1') as [v Hv]. congruence.
Qed.

Lemma first_missing_not_all (ks : list string) (st : gmap string Qc) (i : nat) (k : string) :
  first_missing ks st i k → ¬ Forall (fun k => is_Some (st !! k)) ks.
Proof.
  intros (H1 & H2 & _) HF. rewrite Forall_forall in HF.
  destruct (HF k (list_elem_of_lookup_2 _ _ _ H1)) as [v Hv]. congruence.
Qed.

(** The loop of [validate] ends without an answer when no key is missing,
    and answers [False] at the first missing key. *)
Lemma validate_loop_spec (ks : list string) (st : gmap string Qc) :
  (validate_loop ks st = PyNone ∧ Forall (fun k => is_Some (st !! k)) ks)
  ∨ (validate_loop ks st = PyBool false ∧ ∃ i k, first_missing ks st i k).
Proof.
  induction ks as [|k ks IH].
  - left. split; [done|constructor].
  - cbn [validate_loop]. case_bool_decide as Hk.
    + destruct IH as [[-> HF]|[-> (i & k' & H1 & H2 & H3)]].
      * left. split; [done|by constructor].
      * right. split; [done|]. exists (S i), k'.
        split; [done|]. split; [done|].
        intros [|j] k'' Hj Hl.
        -- injection Hl as <-. done.
        -- apply (H3 j); [lia|done].
    + right. split; [done|]. exists 0%nat, k.
      split; [done|]. split; [by apply eq_None_not_Some|]. intros; lia.
Qed.

Ltac earlier_keys :=
  let j := fresh "j" in
  let Hl := fresh "Hl" in
  intros j ? ? Hl;
  repeat (destruct j as [|j]; [injection Hl as <-; by eexists|]);
  lia.

(** [cmd] returns on a state with the four keys, and raises [KeyError]
    for the first key, in the order of the template, that is missing. *)
Lemma cmd_spec (st : gmap string Qc) :
  (has_keys st ∧ ∃ d, cmd st = Ok d)
  ∨ (∃ i k, first_missing keys st i k ∧ cmd st = Raise (KeyError k)).
Proof.
  destruct (st !! "gamma_red") as [r|] eqn:Hr.
  2: { right. exists 0%nat, "gamma_red". split.
       - split; [done|]. split; [done|]. earlier_keys.
       - rewrite cmd_getitem. unfold getitem. by rewrite Hr. }
  destruct (st !! "gamma_green") as [g|] eqn:Hg.
  2: { right. exists 1%nat, "gamma_green". split.
       - split; [done|]. split; [done|]. earlier_keys.
       - rewrite cmd_getitem. unfold getitem. by rewrite Hr, bind_Ok, Hg. }
  destruct (st !! "gamma_blue") as [b|] eqn:Hb.
  2: { right. exists 2%nat, "gamma_blue". split.
       - split; [done|]. split; [done|]. earlier_keys.
       - rewrite cmd_getitem. unfold getitem.
         by rewrite Hr, bind_Ok, Hg, bind_Ok, Hb. }
  destruct (st !! "contrast") as [c|] eqn:Hc.
  2: { right. exists 3%nat, "contrast". split.
       - split; [done|]. split; [done|]. earlier_keys.
       - rewrite cmd_getitem. unfold getitem.
         by rewrite Hr, bind_Ok, Hg, bind_Ok, Hb, bind_Ok, Hc. }
  left.
  assert (Hk : has_keys st).
  { unfold has_keys, keys. repeat (apply Forall_cons_2; [by eexists|]).
    apply Forall_nil_2. }
  split; [done|by apply has_keys_cmd].
Qed.

(** X8.  [validate] foretells [cmd]: it ends without an answer ([None])
    exactly for the states with the four keys, for which [cmd] returns, and
    it answers [False] exactly when a key is missing; [cmd] then raises
    [KeyError] for the first missing key, in the order of [keys], and it
    raises nothing else. *)
Theorem validate_foretells_cmd (st : gmap string Qc) :
  (validate st = PyNone ↔ has_keys st)
  ∧ (has_keys st ↔ ∃ d, cmd st = Ok d)
  ∧ (validate st = PyBool false ↔ ∃ i k, first_missing keys st i k)
  ∧ (∀ i k, first_missing keys st i k → cmd st = Raise (KeyError k))
  ∧ (∀ e, cmd st = Raise e → ∃ i k, e = KeyError k ∧ first_missing keys st i k).
Proof.
  pose proof (validate_loop_spec keys st) as HV. fold (validate st) in HV.
  pose proof (cmd_spec st) as HC.
  pose proof (first_missing_not_all keys st) as HN. fold (has_keys st) in HN.
  split; [|split; [|split; [|split]]].
  - destruct HV as [[HV HF]|[HV (i & k & Hm)]]; [done|].
    rewrite HV. split; [done|]. intros Hk. by destruct (HN i k Hm).
  - destruct HC as [[Hk Hd]|(i & k & Hm & Hr)]; [done|].
    split; [intros Hk; by destruct (HN i k Hm)|].
    intros [d Hd]. congruence.
  - destruct HV as [[HV HF]|[HV Hm]]; [|done].
    rewrite HV. split; [done|]. intros (i & k & Hm). by destruct (HN i k Hm).
  - intros i k Hm.
    destruct HC as [[Hk Hd]|(i' & k' & Hm' & Hr)]; [by destruct (HN i k Hm)|].
    destruct (first_missing_unique _ _ _ _ _ _ Hm Hm') as [_ ->]. exact Hr.
  - intros e He.
    destruct HC as [[Hk [d Hd]]|(i & k & Hm & Hr)]; [congruence|].
    exists i, k. split; [congruence|done].
Qed.

Lemma validate_foretells_cmd_witness :
  cmd (delete "gamma_blue" (delete "contrast" default_params))
  = Raise (KeyError "gamma_blue").
Proof.
  destruct (validate_foretells_cmd (delete "gamma_blue" (delete "contrast" default_params)))
    as (_ & _ & _ & H & _).
  apply (H 2%nat "gamma_blue").
  split; [reflexivity|]. split; [reflexivity|].
  intros j k' Hj Hl.
  destruct j as [|[|j]]; [injection Hl as <-; by eexists..|lia].
Defined.

(** ** [move] and the state *)

Lemma has_keys_insert (st : gmap string Qc) (k : string) (v : Qc) :
  has_keys st → has_keys (<[k := v]> st).
Proof.
  unfold has_keys. intros Hk. eapply Forall_impl; [exact Hk|].
  intros k' Hk'. apply lookup_insert_is_Some.
  destruct (decide (k = k')); [by left|by right].
Qed.

Lemma move_run (st : gmap string Qc) (g : rng) (fuel : nat) :
  has_keys st →
  ∃ (k : string) (m v : Qc),
    k ∈ keys ∧ m ∈ multipliers ∧ st !! k = Some v
    ∧ move (S fuel) st g
      = Some (Ok (<[k := fmul v m]> st, {| draw := draw g; pos := S (S (pos g)) |})).
Proof.
  intros Hkeys.
  destruct (lookup_lt_is_Some_2 keys (draw g (pos g) mod 4)%nat) as [k Hk].
  { apply Nat.mod_upper_bound. done. }
  destruct (lookup_lt_is_Some_2 multipliers (draw g (S (pos g)) mod 2)%nat) as [m Hm].
  { apply Nat.mod_upper_bound. done. }
  assert (Hin : k ∈ keys) by (eapply list_elem_of_lookup_2; exact Hk).
  destruct (has_keys_lookup st k Hkeys Hin) as [v Hv].
  exists k, m, v. split; [done|].
  split; [eapply list_elem_of_lookup_2; exact Hm|]. split; [done|].
  unfold move, move_with.
  rewrite (choice_lookup keys g k Hk).
  rewrite (choice_lookup multipliers {| draw := draw g; pos := S (pos g) |} m Hm).
  cbn [draw pos].
  rewrite move_loop_keys by done.
  unfold getitem. by rewrite Hv.
Qed.

(** X9.  [move] keeps a state fit for [cmd]: on a state with the four
    keys it returns, after two draws, a state with the same keys, which
    [validate] passes and for which [cmd] returns a descriptor. *)
Theorem move_keeps_keys (st : gmap string Qc) (g : rng) (fuel : nat) :
  has_keys st → (1 ≤ fuel)%nat →
  ∃ st' g',
    move fuel st g = Some (Ok (st', g'))
    ∧ has_keys st' ∧ dom st' = dom st
    ∧ validate st' = PyNone
    ∧ (∃ d, cmd st' = Ok d)
    ∧ draw g' = draw g ∧ pos g' = (pos g + 2)%nat.
Proof.
  intros Hkeys Hfuel. destruct fuel as [|fuel]; [lia|].
  destruct (move_run st g fuel Hkeys) as (k & m & v & Hk & Hm & Hv & Hrun).
  pose proof (has_keys_insert st k (fmul v m) Hkeys) as Hkeys'.
  eexists _, _. split; [exact Hrun|]. split; [done|]. split.
  { apply dom_insert_lookup_L. by exists v. }
  split.
  { destruct (validate_loop_spec keys (<[k := fmul v m]> st))
      as [[HV _]|[_ (i & k' & Hmiss)]]; [done|].
    by destruct (first_missing_not_all _ _ _ _ Hmiss). }
  split; [by apply has_keys_cmd|]. cbn [draw pos]. split; [done|lia].
Qed.

Lemma default_params_has_keys : has_keys default_params.
Proof.
  unfold has_keys, keys. repeat (apply Forall_cons_2; [by eexists|]).
  apply Forall_nil_2.
Qed.

Lemma move_keeps_keys_witness :
  ∃ st' g',
    move 1 default_params {| draw := fun i => (3 + i)%nat; pos := 0 |} = Some (Ok (st', g'))
    ∧ has_keys st' ∧ dom st' = dom default_params.
Proof.
  destruct (move_keeps_keys default_params {| draw := fun i => (3 + i)%nat; pos := 0 |} 1)
    as (st' & g' & H1 & H2 & H3 & _).
  - exact default_params_has_keys.
  - lia.
  - exists st', g'. split; [exact H1|]. split; [exact H2|exact H3].
Defined.

(** ** The guard on [bias] *)

Lemma choice_elem {A} (xs : list A) (g g' : rng) (x : A) :
  choice xs g = Ok (x, g') → x ∈ xs.
Proof.
  unfold choice. destruct (xs !! _) as [y|] eqn:Hy; [|done].
  intros [= <- _]. by eapply list_elem_of_lookup_2.
Qed.

(** The key that the loop ends with is not [bias], or the value of [bias]
    is at most the float 0.909. *)
Lemma move_loop_result (ks : list string) (fuel : nat) (k k' : string)
    (st : gmap string Qc) (g g' : rng) :
  move_loop ks fuel k st g = Some (Ok (k', g')) →
  k' ≠ "bias" ∨ ∃ v, st !! "bias" = Some v ∧ v ≤ f64 (Q2Qc (909 # 1000)).
Proof.
  revert k g. induction fuel as [|fuel IH]; intros k g; [done|].
  cbn [move_loop]. destruct (String.eqb k "bias") eqn:Ek.
  - apply String.eqb_eq in Ek. subst k. unfold getitem.
    destruct (st !! "bias") as [v|] eqn:Hv; [|done].
    destruct (Qc_ltb (f64 (Q2Qc (909 # 1000))) v) eqn:Hlt.
    + destruct (choice ks g) as [[k1 g1]|e]; [|done]. apply IH.
    + intros [= <- _]. right. exists v. split; [done|]. by apply Qc_ltb_ge.
  - apply String.eqb_neq in Ek. intros [= <- _]. by left.
Qed.

(** The float 0.909 times the float 1.1 is below 1, and so is the float
    that the product is rounded to. *)
Lemma multipliers_bound (v m : Qc) :
  m ∈ multipliers → v ≤ f64 (Q2Qc (909 # 1000)) → fmul v m ≤ 1.
Proof.
  assert (E : f64 (Q2Qc (909 # 1000))
              = Q2Qc (4093772061279781 # 4503599627370496)).
  { apply Qc_is_canon. by vm_compute. }
  rewrite multipliers_floats, E. rewrite !elem_of_cons, elem_of_nil.
  intros Hm Hv. apply f64_le_1.
  destruct Hm as [->|[->|[]]]; qc_real; lra.
Qed.

(** X10.  The guard of the loop keeps [bias] from exceeding 1.0, for any
    list of keys and a state of floats of a magnitude of at most [2^1023]:
    a value of [bias] that is at most 1 is at most 1 after [move], and a
    value above the float 0.909 is left as it is. *)
Theorem move_bias_at_most_one (ks : list string) (fuel : nat)
    (st st' : gmap string Qc) (g g' : rng) (v : Qc) :
  map_Forall (fun _ v => moderate v) st →
  st !! "bias" = Some v → v ≤ 1 →
  move_with ks fuel st g = Some (Ok (st', g')) →
  ∃ v', st' !! "bias" = Some v' ∧ v' ≤ 1
        ∧ (f64 (Q2Qc (909 # 1000)) < v → v' = v).
Proof.
  intros _ Hv Hle. unfold move_with.
  destruct (choice ks g) as [[k g1]|e]; [|done].
  destruct (choice multipliers g1) as [[m g2]|e] eqn:Hm; [|done].
  apply choice_elem in Hm.
  destruct (move_loop ks fuel k st g2) as [[[k' g3]|e]|] eqn:Hloop; [|done..].
  apply move_loop_result in Hloop.
  unfold getitem. destruct (st !! k') as [v0|] eqn:Hv0; [|done].
  cbv zeta. intros Heq.
  assert (Hst : st' = <[k' := fmul v0 m]> st) by congruence. subst st'. clear Heq.
  destruct (decide (k' = "bias")) as [->|Hne].
  - destruct Hloop as [Hne|(v1 & Hv1 & Hle1)]; [done|].
    assert (v1 = v) by congruence. assert (v0 = v) by congruence. subst v1 v0.
    exists (fmul v m). split; [apply lookup_insert_eq|].
    split; [by apply multipliers_bound|].
    intros Hlt. exfalso. exact (Qcle_not_lt _ _ Hle1 Hlt).
  - exists v. split; [by rewrite lookup_insert_ne|]. split; [exact Hle|done].
Qed.

Lemma move_bias_at_most_one_witness :
  ∃ v', (<["contrast" := fmul (Qc_of_Z 10) (f64 (Q2Qc (9 # 10)))]>
           (<["bias" := 1]> default_params)) !! "bias" = Some v'
        ∧ v' ≤ 1.
Proof.
  destruct (move_bias_at_most_one ["bias"; "contrast"] 3
              (<["bias" := 1]> default_params)
              (<["contrast" := fmul (Qc_of_Z 10) (f64 (Q2Qc (9 # 10)))]>
                 (<["bias" := 1]> default_params))
              {| draw := fun i => match i with 3%nat => 1%nat | _ => 0%nat end; pos := 0 |}
              {| draw := fun i => match i with 3%nat => 1%nat | _ => 0%nat end; pos := 4 |}
              1)
    as (v' & H1 & H2 & _).
  - apply map_Forall_insert_2; [exact moderate_one|exact default_params_moderate].
  - reflexivity.
  - by vm_compute.
  - unfold move_with.
    rewrite (choice_lookup ["bias"; "contrast"]
               {| draw := fun i => match i with 3%nat => 1%nat | _ => 0%nat end;
                  pos := 0 |} "bias" eq_refl).
    cbn [draw pos].
    rewrite (choice_lookup multipliers
               {| draw := fun i => match i with 3%nat => 1%nat | _ => 0%nat end;
                  pos := 1 |} (f64 (Q2Qc (9 # 10))) eq_refl).
    cbn [draw pos].
    assert (Hg : Qc_ltb (f64 (Q2Qc (909 # 1000))) 1 = true) by (by vm_compute).
    cbn [move_loop].
    change (String.eqb "bias" "bias") with true. cbv iota.
    change (getitem (<["bias" := 1]> default_params) "bias") with (@Ok Qc 1).
    cbv iota. rewrite Hg.
    rewrite (choice_lookup ["bias"; "contrast"]
               {| draw := fun i => match i with 3%nat => 1%nat | _ => 0%nat end;
                  pos := 2 |} "bias" eq_refl).
    cbn [draw pos].
    change (String.eqb "bias" "bias") with true. cbv iota.
    change (getitem (<["bias" := 1]> default_params) "bias") with (@Ok Qc 1).
    cbv iota. rewrite Hg.
    rewrite (choice_lookup ["bias"; "contrast"]
               {| draw := fun i => match i with 3%nat => 1%nat | _ => 0%nat end;
                  pos := 3 |} "contrast" eq_refl).
    cbn [draw pos].
    change (String.eqb "contrast" "bias") with false. cbv iota.
    change (getitem (<["bias" := 1]> default_params) "contrast")
      with (Ok (Qc_of_Z 10)).
    reflexivity.
  - exists v'. split; [exact H1|exact H2].
Defined.

(** When every draw of a key gives [bias] and its value is above the float
    0.909, the loop is entered again and again. *)
Lemma move_loop_bias_only (ks : list string) (fuel : nat) (st : gmap string Qc)
    (g : rng) (v : Qc) :
  ks ≠ [] → Forall (fun k => k = "bias") ks →
  st !! "bias" = Some v → f64 (Q2Qc (909 # 1000)) < v →
  move_loop ks fuel "bias" st g = None.
Proof.
  intros Hne Hall Hv Hlt. apply Qc_ltb_lt in Hlt.
  revert g. induction fuel as [|fuel IH]; intros g; [reflexivity|].
  cbn [move_loop]. change (String.eqb "bias" "bias") with true. cbv iota.
  unfold getitem. rewrite Hv. rewrite Hlt.
  destruct (lookup_lt_is_Some_2 ks (draw g (pos g) mod length ks)%nat) as [k Hk].
  { apply Nat.mod_upper_bound. destruct ks; [by destruct Hne|cbn [length]; lia]. }
  rewrite (choice_lookup ks g k Hk).
  rewrite Forall_forall in Hall.
  rewrite (Hall k (list_elem_of_lookup_2 _ _ _ Hk)). apply IH.
Qed.

(** X11.  With [bias] as the only key and a value of [bias] above the float
    0.909, which is 4093772061279781 over [2^52], [move] does not return:
    the loop draws the key again without end, whatever the number of
    iterations it is given. *)
Theorem move_bias_only_never_returns (ks : list string) (st : gmap string Qc)
    (g : rng) (v : Qc) :
  ks ≠ [] → Forall (fun k => k = "bias") ks →
  st !! "bias" = Some v → f64 (Q2Qc (909 # 1000)) < v →
  f64 (Q2Qc (909 # 1000)) = Q2Qc (4093772061279781 # 4503599627370496)
  ∧ ∀ fuel, move_with ks fuel st g = None.
Proof.
  intros Hne Hall Hv Hlt.
  split; [apply Qc_is_canon; by vm_compute|].
  intros fuel. unfold move_with.
  destruct (lookup_lt_is_Some_2 ks (draw g (pos g) mod length ks)%nat) as [k Hk].
  { apply Nat.mod_upper_bound. destruct ks; [by destruct Hne|cbn [length]; lia]. }
  rewrite (choice_lookup ks g k Hk).
  destruct (lookup_lt_is_Some_2 multipliers
              (draw g (S (pos g)) mod length multipliers)%nat) as [m Hm].
  { apply Nat.mod_upper_bound. cbn [multipliers length]. lia. }
  rewrite (choice_lookup multipliers {| draw := draw g; pos := S (pos g) |} m Hm).
  rewrite Forall_forall in Hall.
  rewrite (Hall k (list_elem_of_lookup_2 _ _ _ Hk)).
  by rewrite (move_loop_bias_only ks fuel st _ v Hne (proj2 (Forall_forall _ _) Hall) Hv Hlt).
Qed.

Lemma move_bias_only_never_returns_witness :
  move_with ["bias"] 1000 (<["bias" := 1]> default_params) {| draw := fun i => i; pos := 0 |}
  = None.
Proof.
  apply (move_bias_only_never_returns ["bias"] (<["bias" := 1]> default_params)
           {| draw := fun i => i; pos := 0 |} 1).
  - discriminate.
  - by apply Forall_singleton.
  - reflexivity.
  - by vm_compute.
Defined.

(** The guard compares with the float: a value between 909/1000 and the
    float 0.909 passes the guard. *)
Example move_guard_float :
  Q2Qc (909 # 1000) < Q2Qc (4093772061279781 # 4503599627370496)
  ∧ move_loop ["bias"] 1 "bias"
      (<["bias" := Q2Qc (4093772061279781 # 4503599627370496)]> default_params)
      {| draw := fun i => i; pos := 0 |}
    = Some (Ok ("bias", {| draw := fun i => i; pos := 0 |})).
Proof.
  split; [by vm_compute|].
  assert (Hg : Qc_ltb (f64 (Q2Qc (909 # 1000)))
                 (Q2Qc (4093772061279781 # 4503599627370496)) = false)
    by (by vm_compute).
  cbn [move_loop]. change (String.eqb "bias" "bias") with true. cbv iota.
  change (getitem _ "bias")
    with (Ok (Q2Qc (4093772061279781 # 4503599627370496))).
  cbv iota. by rewrite Hg.
Qed.

(** ** [energy], again *)

Lemma energy_run (parse_operations : string → res (list (nat → M nat)))
    (self : ColorEstimator) (σ : gmap nat (list (list Qc))) (d : string)
    (funcs : list (nat → M nat)) (gs : list (list (list Qc) → list (list Qc)))
    (src_img ref_img : list (list Qc)) :
  cmd (state self) = Ok d → parse_operations d = Ok funcs →
  Forall2 implements funcs gs →
  σ !! src self = Some src_img → σ !! ref self = Some ref_img →
  ∃ σ',
    energy parse_operations self σ
    = (σ', scores ← distances ref_img (transformed gs src_img) (seq 0 3);
           Ok (py_sum scores * Qc_of_Z 100))
    ∧ ∀ l, l ∈ dom σ → σ' !! l = σ !! l.
Proof.
  intros Hd Hfuncs Himpl Hsrc Href.
  set (out := transformed gs src_img).
  set (σ1 := <[fresh (dom σ) := src_img]> σ).
  assert (HD : dom σ ⊆ dom σ1).
  { unfold σ1. rewrite dom_insert_L. intros l Hl. by apply elem_of_union_r. }
  destruct (apply_ops_implements funcs gs Himpl (dom σ) (fresh (dom σ)) σ1 src_img)
    as (σ' & arr' & Hrun & Hout & Heq & Harr');
    [apply lookup_insert_eq|apply fresh_unallocated|done|].
  assert (Hkeep : ∀ l, l ∈ dom σ → σ' !! l = σ !! l).
  { intros l Hl. rewrite (Heq l Hl). by apply insert_fresh_lookup. }
  assert (Href' : σ' !! ref self = Some ref_img).
  { rewrite Hkeep; [done|]. apply elem_of_dom. by eexists. }
  exists σ'. split; [|done].
  unfold energy.
  rewrite (M_bind_Ok _ _ _ _ _ (ndarray_copy_Some (src self) σ src_img Hsrc)).
  fold σ1. rewrite Hd. rewrite (M_bind_Ok _ _ σ1 σ1 d) by done.
  rewrite Hfuncs. rewrite (M_bind_Ok _ _ σ1 σ1 funcs) by done.
  rewrite (M_bind_Ok _ _ _ _ _ Hrun).
  pose proof (scores_of_distances self arr' (seq 0 3) σ' ref_img out Href' Hout) as Hs.
  fold out.
  destruct (distances ref_img out (seq 0 3)) as [scores|e].
  - by rewrite (M_bind_Ok _ _ _ _ _ Hs), bind_Ok.
  - rewrite bind_Raise. by apply M_bind_Raise.
Qed.

(** X12.  [energy] can be asked again: when the functions parsed from the
    descriptor implement transformations, a second call, in the store that
    the first call leaves, gives what the first call gave, a value or an
    error.  The source buffer is not worn by the calls. *)
Theorem energy_repeatable
    (parse_operations : string → res (list (nat → M nat)))
    (self : ColorEstimator) (σ : gmap nat (list (list Qc))) (d : string)
    (funcs : list (nat → M nat)) (gs : list (list (list Qc) → list (list Qc)))
    (src_img ref_img : list (list Qc)) :
  cmd (state self) = Ok d → parse_operations d = Ok funcs →
  Forall2 implements funcs gs →
  σ !! src self = Some src_img → σ !! ref self = Some ref_img →
  ∃ σ1 σ2 r,
    energy parse_operations self σ = (σ1, r)
    ∧ energy parse_operations self σ1 = (σ2, r).
Proof.
  intros Hd Hfuncs Himpl Hsrc Href.
  destruct (energy_run parse_operations self σ d funcs gs src_img ref_img)
    as (σ1 & Hrun1 & Hkeep1); [done..|].
  assert (Hsrc1 : σ1 !! src self = Some src_img).
  { rewrite Hkeep1; [done|]. apply elem_of_dom. by eexists. }
  assert (Href1 : σ1 !! ref self = Some ref_img).
  { rewrite Hkeep1; [done|]. apply elem_of_dom. by eexists. }
  destruct (energy_run parse_operations self σ1 d funcs gs src_img ref_img)
    as (σ2 & Hrun2 & _); [done..|].
  by eexists σ1, σ2, _.
Qed.

Lemma cmd_default_params :
  cmd default_params = Ok "gamma r 1.00, gamma g 1.00, gamma b 1.00, sigmoidal rgb 10.00 0.5".
Proof. by vm_compute. Qed.

Lemma example_implements :
  Forall2 implements [op_inplace halve; op_copy halve] [halve; halve].
Proof.
  apply Forall2_cons_2; [apply op_inplace_implements|].
  apply Forall2_cons_2; [apply op_copy_implements|]. apply Forall2_nil_2.
Qed.

Lemma energy_repeatable_witness :
  ∃ σ1 σ2 r,
    energy example_parse example_estimator example_store = (σ1, r)
    ∧ energy example_parse example_estimator σ1 = (σ2, r).
Proof.
  apply (energy_repeatable example_parse example_estimator example_store
           "gamma r 1.00, gamma g 1.00, gamma b 1.00, sigmoidal rgb 10.00 0.5"
           [op_inplace halve; op_copy halve] [halve; halve]
           example_source example_reference).
  - exact cmd_default_params.
  - reflexivity.
  - exact example_implements.
  - reflexivity.
  - reflexivity.
Defined.

(** X13.  From the constructor to the first energy: an estimator made
    without a state, from two arrays of the caller, asks [parse_operations]
    for the descriptor of the default parameters, and its energy is 100
    times the sum of the three channel distances between the reference and
    the transformed source; the arrays of the caller hold what they held. *)
Theorem init_then_energy
    (base : option (gmap string Qc → res bool))
    (parse_operations : string → res (list (nat → M nat)))
    (σ : gmap nat (list (list Qc))) (source reference : nat)
    (a b : list (list Qc))
    (funcs : list (nat → M nat)) (gs : list (list (list Qc) → list (list Qc))) :
  σ !! source = Some a → σ !! reference = Some b →
  parse_operations "gamma r 1.00, gamma g 1.00, gamma b 1.00, sigmoidal rgb 10.00 0.5"
  = Ok funcs →
  Forall2 implements funcs gs →
  ∃ σ1 self σ2,
    __init__ base source reference None σ = (σ1, Ok self)
    ∧ energy parse_operations self σ1
      = (σ2, s0 ← channel_distance b (transformed gs a) 0;
             s1 ← channel_distance b (transformed gs a) 1;
             s2 ← channel_distance b (transformed gs a) 2;
             Ok ((s0 + s1 + s2) * Qc_of_Z 100))
    ∧ σ2 !! source = Some a ∧ σ2 !! reference = Some b.
Proof.
  intros Ha Hb Hparse Himpl.
  destruct (init_default_params base σ source reference a b None Ha Hb)
    as (σ1 & self & Hinit & Hst & Hsrc & Href & _ & _ & _ & Hkeep1); [by left|].
  assert (Hcmd : cmd (state self) = Ok _) by (rewrite Hst; exact cmd_default_params).
  destruct (energy_run parse_operations self σ1 _ funcs gs a b Hcmd Hparse Himpl Hsrc Href)
    as (σ2 & Hrun & Hkeep2).
  exists σ1, self, σ2. split; [done|].
  split; [by rewrite Hrun, distances_three|].
  assert (Hdom : ∀ l, l ∈ dom σ → l ∈ dom σ1).
  { intros l Hl. apply elem_of_dom. rewrite (Hkeep1 l Hl). by apply elem_of_dom. }
  assert (Hs : source ∈ dom σ) by (apply elem_of_dom; by eexists).
  assert (Hr : reference ∈ dom σ) by (apply elem_of_dom; by eexists).
  split.
  - by rewrite (Hkeep2 _ (Hdom _ Hs)), (Hkeep1 _ Hs).
  - by rewrite (Hkeep2 _ (Hdom _ Hr)), (Hkeep1 _ Hr).
Qed.

Lemma init_then_energy_witness :
  ∃ σ1 self σ2,
    __init__ simanneal_validate 0 1 None example_store = (σ1, Ok self)
    ∧ energy example_parse self σ1
      = (σ2, s0 ← channel_distance example_reference
                     (transformed [halve; halve] example_source) 0;
             s1 ← channel_distance example_reference
                     (transformed [halve; halve] example_source) 1;
             s2 ← channel_distance example_reference
                     (transformed [halve; halve] example_source) 2;
             Ok ((s0 + s1 + s2) * Qc_of_Z 100))
    ∧ σ2 !! 0%nat = Some example_source ∧ σ2 !! 1%nat = Some example_reference.
Proof.
  apply (init_then_energy simanneal_validate example_parse example_store 0 1
           example_source example_reference
           [op_inplace halve; op_copy halve] [halve; halve]).
  - reflexivity.
  - reflexivity.
  - reflexivity.
  - exact example_implements.
Defined.

(** X14.  On a state with a key missing, [energy] raises [KeyError] for
    the first missing key: the source is copied, [parse_operations] is not
    asked, whatever it is, and the arrays that were there hold what they
    held. *)
Theorem energy_missing_key
    (parse_operations : string → res (list (nat → M nat)))
    (self : ColorEstimator) (σ : gmap nat (list (list Qc)))
    (src_img : list (list Qc)) (i : nat) (k : string) :
  σ !! src self = Some src_img →
  first_missing keys (state self) i k →
  ∃ σ',
    energy parse_operations self σ = (σ', Raise (KeyError k))
    ∧ ∀ l, l ∈ dom σ → σ' !! l = σ !! l.
Proof.
  intros Hsrc Hmiss.
  assert (Hcmd : cmd (state self) = Raise (KeyError k)).
  { destruct (cmd_spec (state self)) as [[Hk _]|(i' & k' & Hm' & Hr)].
    - by destruct (first_missing_not_all _ _ _ _ Hmiss).
    - destruct (first_missing_unique _ _ _ _ _ _ Hmiss Hm') as [_ ->]. exact Hr. }
  exists (<[fresh (dom σ) := src_img]> σ). split.
  - unfold energy.
    rewrite (M_bind_Ok _ _ _ _ _ (ndarray_copy_Some (src self) σ src_img Hsrc)).
    rewrite Hcmd. by apply M_bind_Raise.
  - intros l Hl. by apply insert_fresh_lookup.
Qed.

Lemma energy_missing_key_witness :
  ∃ σ',
    energy example_parse
      {| src := 0; ref := 1; state := delete "gamma_green" default_params |}
      example_store
    = (σ', Raise (KeyError "gamma_green"))
    ∧ ∀ l, l ∈ dom example_store → σ' !! l = example_store !! l.
Proof.
  apply (energy_missing_key example_parse
           {| src := 0; ref := 1; state := delete "gamma_green" default_params |}
           example_store example_source 1 "gamma_green").
  - reflexivity.
  - split; [reflexivity|]. split; [reflexivity|].
    intros j k' Hj Hl. destruct j as [|j]; [injection Hl as <-; by eexists|lia].
Defined.

(** ** [calc_downsample] on all integers *)

(** X15.  On integers [calc_downsample] never falls through to [None]:
    with a target of 0 it raises [ZeroDivisionError]; with any other target
    it returns the float nearest to the smaller of the two dimensions over
    the target, also for dimensions that are zero or negative, or raises
    [OverflowError] when that quotient is beyond the floats; the two
    dimensions can be exchanged. *)
Theorem calc_downsample_integers (w h target : Z) :
  calc_downsample w h 0 = Raise ZeroDivisionError
  ∧ (target ≠ 0%Z →
     calc_downsample w h target
     = if overflows (Qc_frac (Z.min w h) target) then Raise OverflowError
       else Ok (Some (f64 (Qc_frac (Z.min w h) target))))
  ∧ calc_downsample w h target ≠ Ok None
  ∧ calc_downsample w h target = calc_downsample h w target.
Proof.
  assert (Hn : target ≠ 0%Z →
     calc_downsample w h target
     = if overflows (Qc_frac (Z.min w h) target) then Raise OverflowError
       else Ok (Some (f64 (Qc_frac (Z.min w h) target)))).
  { intros Ht. rewrite calc_downsample_min. unfold truediv.
    replace (target =? 0)%Z with false by lia.
    by destruct (overflows (Qc_frac (Z.min w h) target)). }
  split; [by rewrite calc_downsample_min|]. split; [exact Hn|]. split.
  - destruct (decide (target = 0%Z)) as [->|Ht].
    + by rewrite calc_downsample_min.
    + rewrite Hn by done.
      by destruct (overflows (Qc_frac (Z.min w h) target)).
  - by rewrite !calc_downsample_min, Z.min_comm.
Qed.

Lemma calc_downsample_integers_witness :
  calc_downsample (-3) 0 400
  = if overflows (Qc_frac (Z.min (-3) 0) 400) then Raise OverflowError
    else Ok (Some (f64 (Qc_frac (Z.min (-3) 0) 400))).
Proof.
  destruct (calc_downsample_integers (-3) 0 400) as (_ & H & _).
  apply H. lia.
Defined.

(** A quotient of [2^1024] is beyond the floats; the quotient
    [2^53 + 1] is rounded to [2^53]; a negative dimension gives a negative
    ratio. *)
Example calc_downsample_examples :
  calc_downsample (2 ^ 1024) (2 ^ 1024) 1 = Raise OverflowError
  ∧ calc_downsample 9007199254740993 9007199254740993 1
    = Ok (Some (Qc_of_Z 9007199254740992))
  ∧ calc_downsample (-3) 0 400 = Ok (Some (Q2Qc (-8646911284551352 # 1152921504606846976)))
  ∧ calc_downsample 4000 1234 0 = Raise ZeroDivisionError
  ∧ calc_downsample 4000 1234 400
    = Ok (Some (Q2Qc (3473401212609495 # 1125899906842624))).
Proof.
  assert (H1 : overflows (Qc_frac (2 ^ 1024) 1) = true) by (by vm_compute).
  assert (H2 : overflows (Qc_frac 9007199254740993 1) = false) by (by vm_compute).
  assert (E2 : f64 (Qc_frac 9007199254740993 1) = Qc_of_Z 9007199254740992).
  { apply Qc_is_canon. by vm_compute. }
  assert (H3 : overflows (Qc_frac (-3) 400) = false) by (by vm_compute).
  assert (E3 : f64 (Qc_frac (-3) 400)
               = Q2Qc (-8646911284551352 # 1152921504606846976)).
  { apply Qc_is_canon. by vm_compute. }
  assert (H5 : overflows (Qc_frac 1234 400) = false) by (by vm_compute).
  assert (E5 : f64 (Qc_frac 1234 400)
               = Q2Qc (3473401212609495 # 1125899906842624)).
  { apply Qc_is_canon. by vm_compute. }
  rewrite !calc_downsample_min. unfold truediv.
  rewrite Z.min_id, Z.min_id.
  change (Z.min (-3) 0) with (-3)%Z. change (Z.min 4000 1234) with 1234%Z.
  change (1 =? 0)%Z with false. change (400 =? 0)%Z with false.
  change (0 =? 0)%Z with true. cbv iota.
  rewrite H1, H2, E2, H3, E3, H5, E5. clear. repeat split; reflexivity.
Qed.

(** ** [time_string] *)

Lemma percent_02i_table :
  forallb (fun k => String.eqb (percent_i true 2 (Z.of_nat k)) (two_digits (Z.of_nat k)))
    (seq 0 100) = true.
Proof. vm_compute. reflexivity. Qed.

Lemma percent_2i_table :
  forallb (fun k => Nat.eqb (String.length (percent_i false 2 (Z.of_nat k))) 2)
    (seq 0 100) = true.
Proof. vm_compute. reflexivity. Qed.

(** [%02i] of a number below 100 is its two decimal digits. *)
Lemma percent_02i (n : Z) : (0 ≤ n < 100)%Z → percent_i true 2 n = two_digits n.
Proof.
  intros Hn. pose proof percent_02i_table as T. rewrite forallb_forall in T.
  specialize (T (Z.to_nat n)). rewrite Z2Nat.id in T by lia.
  apply String.eqb_eq, T, in_seq. lia.
Qed.

Lemma percent_2i_length (n : Z) :
  (0 ≤ n < 100)%Z → String.length (percent_i false 2 n) = 2%nat.
Proof.
  intros Hn. pose proof percent_2i_table as T. rewrite forallb_forall in T.
  specialize (T (Z.to_nat n)). rewrite Z2Nat.id in T by lia.
  apply Nat.eqb_eq, T, in_seq. lia.
Qed.

Lemma length_append (a b : string) :
  String.length (a +:+ b) = (String.length a + String.length b)%nat.
Proof.
  induction a as [|c a IH]; [done|].
  rewrite append_cons. cbn [String.length]. by rewrite IH.
Qed.

(** X16.  [time_string] writes the rounded number of seconds [n] as hours,
    minutes and seconds: the minutes and the seconds are two decimal digits
    each, of numbers from 0 to 59, also for a negative [n], and
    [n = 3600 h + 60 m + s]; up to 100 hours the string has eight
    characters. *)
Theorem time_string_fields (round : Qc → Z) (seconds : Qc) :
  let n := round seconds in
  let h := (n / 3600)%Z in
  let m := (n mod 3600 / 60)%Z in
  let s := (n mod 3600 mod 60)%Z in
  time_string round seconds
  = percent_i false 2 h +:+ ":" +:+ two_digits m +:+ ":" +:+ two_digits s
  ∧ (0 ≤ m < 60)%Z ∧ (0 ≤ s < 60)%Z
  ∧ n = (3600 * h + 60 * m + s)%Z
  ∧ ((0 ≤ n < 360000)%Z → String.length (time_string round seconds) = 8%nat).
Proof.
  intros n h m s.
  assert (Hm : (0 ≤ m < 60)%Z).
  { unfold m. pose proof (Z.mod_pos_bound n 3600 ltac:(lia)) as Hr.
    split; [apply Z.div_pos; lia|apply Z.div_lt_upper_bound; lia]. }
  assert (Hs : (0 ≤ s < 60)%Z) by (apply Z.mod_pos_bound; lia).
  assert (Hn : n = (3600 * h + 60 * m + s)%Z).
  { unfold h, m, s.
    pose proof (Z.div_mod n 3600 ltac:(lia)).
    pose proof (Z.div_mod (n mod 3600) 60 ltac:(lia)). lia. }
  assert (Heq : time_string round seconds
                = percent_i false 2 h +:+ ":" +:+ two_digits m +:+ ":" +:+ two_digits s).
  { unfold time_string, divmod. cbv zeta. fold n. fold h m s.
    by rewrite !percent_02i by lia. }
  split; [done|]. split; [done|]. split; [done|]. split; [done|].
  intros Hrange. rewrite Heq, !length_append, percent_2i_length.
  - reflexivity.
  - unfold h. split; [apply Z.div_pos; lia|apply Z.div_lt_upper_bound; lia].
Qed.

Lemma time_string_fields_witness :
  time_string (fun q : Qc => fmt.round_half_even q) (Q2Qc (14651 # 2)) = " 2:02:06"
  ∧ String.length (time_string (fun q : Qc => fmt.round_half_even q) (Q2Qc (14651 # 2)))
    = 8%nat.
Proof.
  destruct (time_string_fields (fun q : Qc => fmt.round_half_even q) (Q2Qc (14651 # 2)))
    as (H & _ & _ & _ & L).
  split.
  - etransitivity; [exact H|]. by vm_compute.
  - apply L. by vm_compute.
Defined.

(** ** An integer for [bins] *)

Lemma decreases_map_seq (f : nat → Qc) (i m : nat) :
  (∀ j, f j ≤ f (S j)) → np.decreases (List.map f (seq i m)) = false.
Proof.
  intros Hf. revert i. induction m as [|m IH]; intros i; [done|].
  destruct m as [|m]; [done|].
  specialize (IH (S i)).
  change (seq i (S (S m))) with (i :: S i :: seq (S (S i)) m).
  change (seq (S i) (S m)) with (S i :: seq (S (S i)) m) in IH.
  cbn [List.map np.decreases] in *. rewrite IH.
  by rewrite (proj2 (Qc_ltb_ge _ _) (Hf i)).
Qed.

Lemma last_map_seq (f : nat → Qc) (i m : nat) (d : Qc) :
  List.last (List.map f (seq i (S m))) d = f (i + m)%nat.
Proof.
  revert i d. induction m as [|m IH]; intros i d.
  - cbn. f_equal. lia.
  - change (seq i (S (S m))) with (i :: seq (S i) (S m)).
    cbn [List.map]. rewrite last_cons_last, IH. f_equal. lia.
Qed.

Lemma uncovered_none (a : list Qc) (lo hi : Qc) :
  Forall (fun y => lo ≤ y ∧ y ≤ hi) a → uncovered a lo hi = 0%Z.
Proof.
  unfold uncovered. induction 1 as [|x a [Hlo Hhi] _ IH]; [done|].
  rewrite count_cons, IH. unfold outside.
  rewrite (proj2 (Qc_ltb_ge _ _) Hlo), (proj2 (Qc_ltb_ge _ _) Hhi). done.
Qed.

(** Equal-width bins from [lo] to [hi] count every sample of [[lo, hi]]. *)
Lemma histogram_linspace_total (a : list Qc) (lo hi : Qc) (k : nat) :
  lo ≤ hi → Forall (fun y => lo ≤ y ∧ y ≤ hi) a →
  ∃ c, np.histogram_edges a (np.linspace lo hi (S k)) = Ok c
       ∧ fold_right Z.add 0%Z c = np.size a.
Proof.
  intros Hle Ha. unfold np.linspace.
  set (N := Qc_of_Z (Z.of_nat (S k))).
  assert (HN : 0 < N) by (apply Qc_of_Z_pos; lia).
  pose proof (Qc_pos_nonzero N HN) as HNz.
  set (step := (hi - lo) / N).
  assert (Hstep : 0 ≤ step).
  { apply Qc_le_div_iff; [done|]. rewrite Qcmult_0_l. qc_real. lra. }
  set (f := fun i : nat => lo + Qc_of_Z (Z.of_nat i) * step).
  assert (Hf : ∀ j, f j ≤ f (S j)).
  { intros j. unfold f.
    replace (Qc_of_Z (Z.of_nat (S j))) with (Qc_of_Z (Z.of_nat j) + 1).
    - set (q := Qc_of_Z (Z.of_nat j)). clearbody q step. qc_real. lra.
    - rewrite Nat2Z.inj_succ, <- Z.add_1_r, Z2Qc_inj_add. done. }
  pose proof (decreases_map_seq f 0 (S (S k)) Hf) as Hd.
  change (seq 0 (S (S k))) with (0%nat :: 1%nat :: seq 2 k) in *.
  cbn [List.map] in *.
  pose proof (histogram_edges_increasing a _ Hd) as Hh.
  destruct (sum_histogram_edges _ _ _ _ _ Hh) as [_ Hs].
  eexists. split; [exact Hh|]. rewrite Hs.
  assert (Hlast : List.last (List.map f (seq 2 k)) (f 1%nat) = f (S k)).
  { destruct k as [|k]; [done|]. rewrite last_map_seq. done. }
  assert (Hf0 : f 0%nat = lo).
  { unfold f. change (Qc_of_Z (Z.of_nat 0)) with (Qc_of_Z 0).
    rewrite Z2Qc_inj_0. ring. }
  assert (HfN : f (S k) = hi).
  { unfold f, step. fold N. field. done. }
  rewrite Hlast, Hf0, HfN, uncovered_none by done. lia.
Qed.

Lemma min_le_max (xs : list Qc) (x : Qc) :
  fold_left Qc_min xs x ≤ fold_left Qc_max xs x
  ∧ Forall (fun y => fold_left Qc_min xs x ≤ y ∧ y ≤ fold_left Qc_max xs x) (x :: xs).
Proof.
  destruct (fold_min_spec xs x) as [_ Hmin].
  destruct (fold_max_spec xs x) as [_ Hmax].
  split.
  - apply Forall_cons in Hmin as [Hmin _]. apply Forall_cons in Hmax as [Hmax _].
    by apply Qcle_trans with x.
  - rewrite Forall_forall in Hmin, Hmax. apply Forall_forall. intros y Hy.
    split; [by apply Hmin|by apply Hmax].
Qed.

Lemma histogram_int_total (a : list Qc) (n : Z) :
  a ≠ [] → (1 ≤ n)%Z →
  ∃ c, np.histogram a (np.BinsInt n) = Ok c ∧ fold_right Z.add 0%Z c = np.size a.
Proof.
  intros Hne Hn. destruct a as [|x xs]; [done|]. cbn [np.histogram].
  replace (n <? 1)%Z with false by lia.
  destruct (Z.to_nat n) as [|k] eqn:Hk; [lia|].
  destruct (min_le_max xs x) as [Hle Hall].
  set (lo := fold_left Qc_min xs x) in *. set (hi := fold_left Qc_max xs x) in *.
  destruct (decide (lo = hi)) as [Heq|Hneq].
  - apply histogram_linspace_total.
    + clearbody lo hi. qc_real. lra.
    + eapply Forall_impl; [exact Hall|]. intros y [H1 H2].
      clearbody lo hi. split; qc_real; lra.
  - by apply histogram_linspace_total.
Qed.

Lemma sum_one_check (c : list Z) (N : Z) :
  (0 < N)%Z → fold_right Z.add 0%Z c = N →
  Qc_ltb (Qcabs (np.sum (normalize c N) - 1)) eps = true.
Proof.
  intros HN Hc. rewrite sum_normalize, Hc, Qc_div_same by lia.
  exact sum_check_passes.
Qed.

(** X17.  With a positive integer for [bins], [histogram_distance]
    returns for all non-empty arrays of admitted samples: the bins of each
    array span the range of that array, so that every sample is counted and
    the check of the sums cannot fail.  With a negative integer numpy's
    [ValueError] is raised. *)
Theorem histogram_distance_integer_bins (arr1 arr2 : list Qc) (n : Z) :
  arr1 ≠ [] → arr2 ≠ [] →
  Forall admitted_sample arr1 → Forall admitted_sample arr2 →
  ((1 ≤ n)%Z →
   ∃ c1 c2,
     np.histogram arr1 (np.BinsInt n) = Ok c1
     ∧ np.histogram arr2 (np.BinsInt n) = Ok c2
     ∧ fold_right Z.add 0%Z c1 = np.size arr1
     ∧ fold_right Z.add 0%Z c2 = np.size arr2
     ∧ histogram_distance arr1 arr2 (np.BinsInt n)
       = Ok (np.sum (sqerr (normalize c1 (np.size arr1))
                           (normalize c2 (np.size arr2)))))
  ∧ ((n < 0)%Z →
     histogram_distance arr1 arr2 (np.BinsInt n)
     = Raise (ValueError "`bins` must be positive, when an integer")).
Proof.
  intros N1 N2 F1 F2. split; intros Hn.
  - destruct (histogram_int_total arr1 n N1 Hn) as (c1 & Hc1 & Hs1).
    destruct (histogram_int_total arr2 n N2 Hn) as (c2 & Hc2 & Hs2).
    exists c1, c2. repeat (split; [done|]).
    apply histogram_distance_Ok. split; [by apply precondition_ok|].
    exists c1, c2.
    assert (He : effective_bins (np.BinsInt n) = np.BinsInt n).
    { unfold effective_bins, truthy. by replace (n =? 0)%Z with false by lia. }
    rewrite He. split; [done|]. split; [done|].
    split; [apply sum_one_check; [by apply size_pos|done]|].
    split; [apply sum_one_check; [by apply size_pos|done]|]. done.
  - rewrite histogram_distance_split, precondition_ok, bind_Ok by done.
    rewrite compare_histograms_unfold.
    assert (He : effective_bins (np.BinsInt n) = np.BinsInt n).
    { unfold effective_bins, truthy. by replace (n =? 0)%Z with false by lia. }
    rewrite He. cbn [np.histogram]. by replace (n <? 1)%Z with true by lia.
Qed.

Lemma histogram_distance_integer_bins_witness :
  ∃ c1 c2,
    np.histogram [Q2Qc (1 # 8); Q2Qc (1 # 4)] (np.BinsInt 2) = Ok c1
    ∧ np.histogram [Q2Qc (1 # 2); Q2Qc (7 # 8)] (np.BinsInt 2) = Ok c2
    ∧ histogram_distance [Q2Qc (1 # 8); Q2Qc (1 # 4)] [Q2Qc (1 # 2); Q2Qc (7 # 8)]
        (np.BinsInt 2)
      = Ok (np.sum (sqerr (normalize c1 2) (normalize c2 2))).
Proof.
  destruct (histogram_distance_integer_bins
              [Q2Qc (1 # 8); Q2Qc (1 # 4)] [Q2Qc (1 # 2); Q2Qc (7 # 8)] 2)
    as [H _]; try done.
  - repeat (apply Forall_cons_2; [split; by vm_compute|]). apply Forall_nil_2.
  - repeat (apply Forall_cons_2; [split; by vm_compute|]). apply Forall_nil_2.
  - destruct H as (c1 & c2 & H1 & H2 & _ & _ & H3); [lia|].
    exists c1, c2. split; [exact H1|]. split; [exact H2|exact H3].
Defined.

(** ** The constructor without a state *)

(** X18.  Without a state, or with an empty one, the constructor takes
    the default parameters and copies the two arrays: the buffers of the
    estimator are two new, distinct arrays that hold what the arrays of the
    caller hold, and every array that was there is left as it was.  The
    attribute [_validate] is not consulted on this path: the outcome is the
    same whatever the base class binds to it, or if it binds nothing.  The
    constructor of the base class is taken to store the parameters as the
    state, as that of [simanneal.Annealer] does. *)
Theorem init_without_state (base : option (gmap string Qc → res bool))
    (σ : gmap nat (list (list Qc))) (source reference : nat)
    (a b : list (list Qc)) (st : option (gmap string Qc)) :
  σ !! source = Some a → σ !! reference = Some b →
  (st = None) ∨ (st = Some ∅) →
  ∃ σ' self,
    __init__ base source reference st σ = (σ', Ok self)
    ∧ state self = default_params
    ∧ has_keys (state self)
    ∧ σ' !! src self = Some a ∧ σ' !! ref self = Some b
    ∧ (src self ∉ dom σ) ∧ (ref self ∉ dom σ) ∧ src self ≠ ref self
    ∧ dom σ' = {[src self; ref self]} ∪ dom σ
    ∧ ∀ l, l ∈ dom σ → σ' !! l = σ !! l.
Proof.
  intros Ha Hb Hst.
  destruct (init_default_params base σ source reference a b st Ha Hb Hst)
    as (σ' & self & Hinit & Hs & Hsrc & Href & Hn1 & Hn2 & Hne & Hkeep).
  exists σ', self. split; [done|]. split; [done|].
  split; [rewrite Hs; apply default_params_has_keys|].
  repeat (split; [done|]). split; [|done].
  unfold __init__ in Hinit.
  rewrite (M_bind_Ok _ _ _ _ _ (ndarray_copy_Some source σ a Ha)) in Hinit.
  assert (Hb' : (<[fresh (dom σ) := a]> σ) !! reference = Some b).
  { rewrite insert_fresh_lookup; [done|]. apply elem_of_dom. by exists b. }
  rewrite (M_bind_Ok _ _ _ _ _ (ndarray_copy_Some reference _ b Hb')) in Hinit.
  assert (Hnot : not_state st = true).
  { destruct Hst as [->| ->]; [done|]. cbn [not_state]. by apply bool_decide_eq_true_2. }
  rewrite Hnot in Hinit.
  rewrite (M_bind_Ok _ _ _ _ default_params eq_refl) in Hinit.
  injection Hinit as <- <-. cbn [src ref].
  rewrite !dom_insert_L. apply set_eq. intros l.
  rewrite !elem_of_union, !elem_of_singleton. tauto.
Qed.

Lemma init_without_state_witness :
  ∃ σ' self,
    __init__ simanneal_validate 0 1 (Some ∅) example_store = (σ', Ok self)
    ∧ state self = default_params
    ∧ σ' !! src self = Some example_source ∧ σ' !! ref self = Some example_reference.
Proof.
  destruct (init_without_state simanneal_validate example_store 0 1
              example_source example_reference (Some ∅))
    as (σ' & self & H1 & H2 & _ & H3 & H4 & _).
  - reflexivity.
  - reflexivity.
  - by right.
  - exists σ', self. split; [exact H1|]. split; [exact H2|]. split; [exact H3|exact H4].
Defined.
